(** * whatsapp_cloud_api: error classification, retry hints, case conversion,
      webhook normalisation and event dispatch

    A shallow embedding of the pure core of the library
    ([errors/], [utils/case.py], [webhooks/normalize.py],
    [events/dispatcher.py], the header merge, the URLs and the request cycle
    of [client.py], the alias generator of [types.py]) together with the
    properties its specification states about it, and further properties
    that the code has.

    Conventions.  Python values of type [Any] are the inductive [Py.value];
    a call that can raise returns a [Py.result], whose [Raise] carries the
    exception class.  Strings are ASCII text.  The interpreter's recursion
    limit and memory are not modelled. *)

From Stdlib Require Import ZArith String Ascii List Bool Lia.
From Stdlib Require Import Floats.SpecFloat.
From stdpp Require Import base option strings gmap list.

Local Open Scope string_scope.
Local Open Scope Z_scope.

(** ** The Python runtime the library runs on *)

Module Py.

(** Exception classes that the modelled code can raise or catch. *)
Inductive exn :=
| ValueError | TypeError | AttributeError | OverflowError
| JSONDecodeError | RecursionError | ValidationError.

Inductive result (A : Type) :=
| Ok (a : A)
| Raise (e : exn).
Arguments Ok {A} a.
Arguments Raise {A} e.

#[export] Instance exn_eq_dec : EqDecision exn.
Proof. solve_decision. Defined.

#[export] Instance result_ret : MRet result := fun _ a => Ok a.
#[export] Instance result_bind : MBind result := fun _ _ f m =>
  match m with Ok a => f a | Raise e => Raise e end.
#[export] Instance result_fmap : FMap result := fun _ _ f m =>
  match m with Ok a => Ok (f a) | Raise e => Raise e end.

(** [for x in xs: acc = body(acc, x)], stopping at the first exception. *)
Definition foldM {A S} (body : S -> A -> result S)
  : list A -> S -> result S :=
  fix go xs acc :=
    match xs with
    | [] => Ok acc
    | x :: xs' => acc' ← body acc x; go xs' acc'
    end.

(** [[f(x) for x in xs]]. *)
Definition mapM {A B} (f : A -> result B) : list A -> result (list B) :=
  fix go xs :=
    match xs with
    | [] => Ok []
    | x :: xs' => y ← f x; ys ← go xs'; Ok (y :: ys)
    end.

(** The part of the class hierarchy that [except] and [suppress] see:
    [json.JSONDecodeError] and pydantic's [ValidationError] derive from
    [ValueError]. *)
Definition subclass (e cls : exn) : bool :=
  bool_decide (e = cls)
  || match e, cls with
     | JSONDecodeError, ValueError | ValidationError, ValueError => true
     | _, _ => false
     end.

(** [with contextlib.suppress(classes...): x = body]: [None] when the body
    raised one of [classes], which leaves [x] as it was. *)
Definition suppress {A} (classes : list exn) (body : result A)
  : result (option A) :=
  match body with
  | Ok a => Ok (Some a)
  | Raise e => if existsb (subclass e) classes then Ok None else Raise e
  end.

(** Dictionary keys: the hashable values that [json] decoding can produce.
    [True] and [False] are the keys 1 and 0, a float with an integer value is
    that integer ([as_key] below). *)
Inductive key :=
| KStr (s : string)
| KInt (z : Z)
| KFloat (f : spec_float)
| KNone.

#[export] Instance spec_float_eq_dec : EqDecision spec_float.
Proof. solve_decision. Defined.

#[export] Instance key_eq_dec : EqDecision key.
Proof. solve_decision. Defined.

(** A value of type [Any]: what [json] decoding produces, plus dicts keyed
    by something else than a string.  A dict is kept in insertion order. *)
#[local] Unset Elimination Schemes.
Inductive value :=
| VNone
| VBool (b : bool)
| VInt (z : Z)
| VFloat (f : spec_float)
| VStr (s : string)
| VList (l : list value)
| VDict (d : list (key * value)).
#[local] Set Elimination Schemes.

Abbreviation dict := (list (key * value)).

(** [d[k]] as an option. *)
Fixpoint dict_get (d : dict) (k : key) : option value :=
  match d with
  | [] => None
  | (k', v) :: d' => if decide (k' = k) then Some v else dict_get d' k
  end.

(** [d[k] = v]: an existing key keeps its position, a new one goes last. *)
Fixpoint dict_set (d : dict) (k : key) (v : value) : dict :=
  match d with
  | [] => [(k, v)]
  | (k', v') :: d' =>
      if decide (k' = k) then (k, v) :: d' else (k', v') :: dict_set d' k v
  end.

Fixpoint dict_del (d : dict) (k : key) : dict :=
  match d with
  | [] => []
  | (k', v') :: d' =>
      if decide (k' = k) then d' else (k', v') :: dict_del d' k
  end.

Definition dict_mem (d : dict) (k : key) : bool :=
  bool_decide (is_Some (dict_get d k)).

(** [d.get(k, dflt)] on a dict. *)
Definition get (d : dict) (k : string) (dflt : value) : value :=
  default dflt (dict_get d (KStr k)).

(** [x.get(k, dflt)] on a value of type [Any]: only a dict has [get]. *)
Definition attr_get (x : value) (k : string) (dflt : value) : result value :=
  match x with
  | VDict d => Ok (get d k dflt)
  | _ => Raise AttributeError
  end.

(** Truth value, as tested by [not x], [x or y] and [if x]. *)
Definition truthy (x : value) : bool :=
  match x with
  | VNone => false
  | VBool b => b
  | VInt z => negb (Z.eqb z 0)
  | VFloat (S754_zero _) => false
  | VFloat _ => true
  | VStr s => negb (bool_decide (s = ""))
  | VList l => match l with [] => false | _ :: _ => true end
  | VDict d => match d with [] => false | _ :: _ => true end
  end.

(** [x == s] for a string literal [s]. *)
Definition eq_str (x : value) (s : string) : bool :=
  match x with
  | VStr s' => bool_decide (s' = s)
  | _ => false
  end.

(** [for x in v]: a list yields its items, a dict its keys, a string its
    characters; nothing else is iterable. *)
Definition key_value (k : key) : value :=
  match k with
  | KStr s => VStr s
  | KInt z => VInt z
  | KFloat f => VFloat f
  | KNone => VNone
  end.

Fixpoint chars (s : string) : list value :=
  match s with
  | EmptyString => []
  | String c s' => VStr (String c EmptyString) :: chars s'
  end.

Definition iter (v : value) : result (list value) :=
  match v with
  | VList l => Ok l
  | VDict d => Ok (map (fun kv => key_value (fst kv)) d)
  | VStr s => Ok (chars s)
  | _ => Raise TypeError
  end.

(** *** [float(s)] and [int(x)]

    A Python float is an IEEE 754 binary64 number: [spec_float] at precision
    53 and maximal exponent 1024, with the library's correctly rounded
    operations. *)

Definition prec := 53.
Definition emax := 1024.

Definition is_digit (c : ascii) : bool :=
  let n := nat_of_ascii c in (48 <=? n)%nat && (n <=? 57)%nat.

(** The whitespace that [float] strips from ASCII text. *)
Definition is_space (c : ascii) : bool :=
  let n := nat_of_ascii c in
  ((9 <=? n)%nat && (n <=? 13)%nat) || (n =? 32)%nat.

Definition digit_val (c : ascii) : Z := Z.of_nat (nat_of_ascii c) - 48.

Definition digits_val (ds : list ascii) : Z :=
  fold_left (fun acc c => 10 * acc + digit_val c) ds 0.

Definition lower_ascii (c : ascii) : ascii :=
  let n := nat_of_ascii c in
  if (65 <=? n)%nat && (n <=? 90)%nat then ascii_of_nat (n + 32) else c.

Fixpoint span_digits (s : list ascii) : list ascii * list ascii :=
  match s with
  | c :: s' =>
      if is_digit c
      then let '(ds, r) := span_digits s' in (c :: ds, r)
      else ([], s)
  | [] => ([], [])
  end.

Fixpoint lstrip (s : list ascii) : list ascii :=
  match s with
  | c :: s' => if is_space c then lstrip s' else s
  | [] => []
  end.

Definition strip (s : list ascii) : list ascii := rev (lstrip (rev (lstrip s))).

(** Digit grouping: an underscore is accepted only between two digits; the
    underscores are then dropped.  [prev] is the character before [s]. *)
Fixpoint drop_underscores (prev : option ascii) (s : list ascii)
  : option (list ascii) :=
  match s with
  | [] => if decide (prev = Some "_"%char) then None else Some []
  | c :: s' =>
      if decide (c = "_"%char) then
        match prev with
        | Some p => if is_digit p then drop_underscores (Some c) s' else None
        | None => None
        end
      else if bool_decide (prev = Some "_"%char) && negb (is_digit c) then None
      else cons c <$> drop_underscores (Some c) s'
  end.

Definition take_sign (s : list ascii) : bool * list ascii :=
  match s with
  | "-"%char :: s' => (true, s')
  | "+"%char :: s' => (false, s')
  | _ => (false, s)
  end.

(** The float nearest to [(-1)^neg * m * 10^e10], ties to even; too large a
    magnitude gives an infinity, too small a zero. *)
Definition round_decimal (neg : bool) (m : Z) (e10 : Z) : spec_float :=
  match m with
  | Zpos p =>
      match e10 with
      | Zneg k =>
          SFdiv prec emax (S754_finite neg p 0)
                (S754_finite false (Pos.pow 10 k) 0)
      | _ => binary_round prec emax neg (p * Z.to_pos (10 ^ e10))%positive 0
      end
  | _ => S754_zero neg
  end.

(** [digits [. digits] [(e|E) [sign] digits]] with a digit in the mantissa,
    matched against the whole of [s]. *)
Definition parse_decimal (neg : bool) (s : list ascii) : option spec_float :=
  let '(ip, r1) := span_digits s in
  let '(fp, r2) :=
    match r1 with
    | "."%char :: r => span_digits r
    | _ => ([], r1)
    end in
  match (ip ++ fp)%list with
  | [] => None
  | mant =>
      let e_frac := - Z.of_nat (length fp) in
      match r2 with
      | [] => Some (round_decimal neg (digits_val mant) e_frac)
      | c :: r3 =>
          if decide (lower_ascii c = "e"%char) then
            let '(eneg, r4) := take_sign r3 in
            match span_digits r4 with
            | ((_ :: _) as ed, []) =>
                let e := if eneg then - digits_val ed else digits_val ed in
                Some (round_decimal neg (digits_val mant) (e + e_frac))
            | _ => None
            end
          else None
      end
  end.

(** [inf], [infinity] and [nan], in any letter case. *)
Definition parse_inf_nan (neg : bool) (s : list ascii) : option spec_float :=
  let w := string_of_list_ascii (map lower_ascii s) in
  if decide (w = "inf" \/ w = "infinity") then Some (S754_infinity neg)
  else if decide (w = "nan") then Some S754_nan
  else None.

(** [float(s)] for a string [s]. *)
Definition float_of_string (s : string) : result spec_float :=
  match drop_underscores None (list_ascii_of_string s) with
  | None => Raise ValueError
  | Some t =>
      let '(neg, body) := take_sign (strip t) in
      match parse_decimal neg body with
      | Some x => Ok x
      | None =>
          match parse_inf_nan neg body with
          | Some x => Ok x
          | None => Raise ValueError
          end
      end
  end.

(** [float(n)] for an integer of small magnitude (exact). *)
Definition float_of_Z (n : Z) : spec_float :=
  binary_normalize prec emax n 0 false.

Definition float_mul (x y : spec_float) : spec_float := SFmul prec emax x y.

(** [int(x)]: truncation towards zero; an infinity has no integer value
    (OverflowError), nor has a NaN (ValueError). *)
Definition int_of_float (x : spec_float) : result Z :=
  match x with
  | S754_zero _ => Ok 0
  | S754_infinity _ => Raise OverflowError
  | S754_nan => Raise ValueError
  | S754_finite s m e =>
      let a := match e with
               | Zneg k => Z.shiftr (Zpos m) (Zpos k)
               | _ => Z.shiftl (Zpos m) e
               end in
      Ok (if s then - a else a)
  end.

(** The integer a float is equal to, if any. *)
Definition integral (x : spec_float) : option Z :=
  match x with
  | S754_zero _ => Some 0
  | S754_finite s m e =>
      let n := if s then Zneg m else Zpos m in
      match e with
      | Zneg k =>
          if Z.eqb (Z.land (Zpos m) (Z.ones (Zpos k))) 0
          then Some (Z.shiftr n (Zpos k)) else None
      | _ => Some (Z.shiftl n e)
      end
  | _ => None
  end.

(** The key under which a value is hashed; lists and dicts are unhashable. *)
Definition as_key (v : value) : result key :=
  match v with
  | VNone => Ok KNone
  | VBool b => Ok (KInt (if b then 1 else 0))
  | VInt z => Ok (KInt z)
  | VFloat f => Ok (from_option KInt (KFloat f) (integral f))
  | VStr s => Ok (KStr s)
  | VList _ | VDict _ => Raise TypeError
  end.

End Py.
Export Py.

(** ** utils/case.py *)

Module Case.

Definition is_lower_alnum (c : ascii) : bool :=
  let n := nat_of_ascii c in
  ((97 <=? n)%nat && (n <=? 122)%nat) || is_digit c.

Definition is_upper (c : ascii) : bool :=
  let n := nat_of_ascii c in (65 <=? n)%nat && (n <=? 90)%nat.

Definition upper_ascii (c : ascii) : ascii :=
  let n := nat_of_ascii c in
  if (97 <=? n)%nat && (n <=? 122)%nat then ascii_of_nat (n - 32) else c.

Fixpoint lower (s : string) : string :=
  match s with
  | EmptyString => EmptyString
  | String c s' => String (lower_ascii c) (lower s')
  end.

(** [_CAMEL_RE.sub(lambda m: m.group(1).upper(), s)] with
    [_CAMEL_RE = _([a-z0-9])]: scanning from the left, an underscore followed
    by a lower-case letter or a digit is replaced by that character in upper
    case; matches do not overlap. *)
Fixpoint to_camel (s : string) : string :=
  match s with
  | EmptyString => EmptyString
  | String a t =>
      match t with
      | String c s' =>
          if bool_decide (a = "_"%char) && is_lower_alnum c
          then String (upper_ascii c) (to_camel s')
          else String a (to_camel t)
      | EmptyString => String a EmptyString
      end
  end.

(** [_SNAKE_RE.sub(r"_\1", s)] with [_SNAKE_RE = (?<=[a-z0-9])([A-Z])]: an
    underscore goes before every capital whose predecessor in [s] is a
    lower-case letter or a digit.  [prev] is the character before [s]. *)
Fixpoint snake_sub (prev : option ascii) (s : string) : string :=
  match s with
  | EmptyString => EmptyString
  | String c s' =>
      let rest := String c (snake_sub (Some c) s') in
      if is_upper c && from_option is_lower_alnum false prev
      then String "_" rest
      else rest
  end.

Definition to_snake (s : string) : string := lower (snake_sub None s).

(** The key argument of [to_camel] / [to_snake] inside the deep conversions:
    [re.sub] raises TypeError on anything but a string. *)
Definition convert_key (f : string -> string) (k : key) : result key :=
  match k with
  | KStr s => Ok (KStr (f s))
  | _ => Raise TypeError
  end.

(** [{f(k): deep(v) for k, v in obj.items()}]: the key expression is
    evaluated before the value, items are stored in order. *)
Definition convert_items (f : string -> string) (deep : value -> result value)
  : dict -> result dict :=
  fun d =>
    foldM (fun acc kv =>
             k' ← convert_key f (fst kv);
             v' ← deep (snd kv);
             Ok (dict_set acc k' v')) d [].

Fixpoint to_camel_deep (obj : value) : result value :=
  match obj with
  | VList l => VList <$> mapM to_camel_deep l
  | VDict d => VDict <$> convert_items to_camel to_camel_deep d
  | _ => Ok obj
  end.

Fixpoint to_snake_deep (obj : value) : result value :=
  match obj with
  | VList l => VList <$> mapM to_snake_deep l
  | VDict d => VDict <$> convert_items to_snake to_snake_deep d
  | _ => Ok obj
  end.

End Case.

(** ** errors/categorize.py *)

Module Categorize.

Inductive ErrorCategory :=
| authorization
| permission
| parameter
| throttling
| template
| media
| phone_registration
| integrity
| business_eligibility
| reengagement_window
| waba_config
| flow
| synchronization
| server
| unknown.

#[export] Instance ErrorCategory_eq_dec : EqDecision ErrorCategory.
Proof. solve_decision. Defined.

Definition _CODE_TO_CATEGORY : gmap Z ErrorCategory :=
  list_to_map
    [ (0, authorization); (190, authorization);
      (10, permission); (200, permission); (299, permission);
      (4, throttling); (80007, throttling); (130429, throttling);
      (131048, throttling); (131056, throttling);
      (33, parameter); (100, parameter); (130472, parameter);
      (131008, parameter); (131009, parameter); (131021, parameter);
      (131026, parameter); (135000, parameter);
      (131051, media); (131052, media); (131053, media);
      (132000, template); (132001, template); (132005, template);
      (132007, template); (132012, template); (132015, template);
      (132016, template);
      (132068, flow); (132069, flow);
      (133000, phone_registration); (133004, phone_registration);
      (133005, phone_registration); (133006, phone_registration);
      (133008, phone_registration); (133009, phone_registration);
      (133010, phone_registration); (133015, phone_registration);
      (133016, phone_registration);
      (131047, reengagement_window);
      (368, integrity); (130497, integrity); (131031, integrity) ].

Definition categorize_error (code : option Z) (http_status : option Z)
  : ErrorCategory :=
  match code ≫= (fun c => _CODE_TO_CATEGORY !! c) with
  | Some category => category
  | None =>
      match http_status with
      | Some status => if 500 <=? status then server else unknown
      | None => unknown
      end
  end.

End Categorize.

(** ** errors/retry.py *)

Module Retry.
Import Categorize.

Inductive RetryAction :=
| retry
| retry_after
| fix_and_retry
| do_not_retry
| refresh_token.

#[export] Instance RetryAction_eq_dec : EqDecision RetryAction.
Proof. solve_decision. Defined.

Record RetryHint := {
  action : RetryAction;
  retry_after_ms : option Z;
}.

(** The table is total on [ErrorCategory], so the default of
    [_CATEGORY_RETRY.get(category, "retry")] is never taken. *)
Definition _CATEGORY_RETRY (category : ErrorCategory) : RetryAction :=
  match category with
  | authorization => refresh_token
  | permission => fix_and_retry
  | parameter => fix_and_retry
  | throttling => retry_after
  | template => fix_and_retry
  | media => fix_and_retry
  | phone_registration => fix_and_retry
  | integrity => do_not_retry
  | business_eligibility => do_not_retry
  | reengagement_window => do_not_retry
  | waba_config => fix_and_retry
  | flow => fix_and_retry
  | synchronization => retry
  | server => retry
  | unknown => retry
  end.

(** [int(float(retry_after_header) * 1000)]. *)
Definition header_ms (retry_after_header : string) : result Z :=
  seconds ← float_of_string retry_after_header;
  int_of_float (float_mul seconds (float_of_Z 1000)).

(** The block [if retry_after_header is not None: with suppress(ValueError,
    TypeError): retry_after_ms = ...], as the value [retry_after_ms] has
    after it. *)
Definition parsed_header (retry_after_header : option string)
  : result (option Z) :=
  match retry_after_header with
  | Some h => suppress [ValueError; TypeError] (header_ms h)
  | None => Ok None
  end.

Definition get_retry_hint (category : ErrorCategory)
    (retry_after_header : option string) : result RetryHint :=
  let action := _CATEGORY_RETRY category in
  retry_after_ms ← parsed_header retry_after_header;
  let retry_after_ms :=
    if bool_decide (action = retry_after) && bool_decide (retry_after_ms = None)
    then Some 60000
    else retry_after_ms in
  Ok {| action := action; retry_after_ms := retry_after_ms |}.

End Retry.

(** ** errors/graph_api_error.py *)

Module GraphApiError.
Import Categorize Retry.

(** The exception object; [message] is the argument of [Exception]. *)
Record t := {
  message : value;
  http_status : Z;
  code : value;
  type : value;
  details : value;
  error_subcode : value;
  fbtrace_id : value;
  error_data : value;
  raw : value;
  category : ErrorCategory;
  retry : RetryHint;
}.

(** The [code] argument as [categorize_error] uses it: [None], or the
    integer key it is looked up under; a string equals no key of the table,
    so it classifies as an absent code does. *)
Definition code_arg (code : value) : result (option Z) :=
  k ← as_key code;
  Ok match k with KInt z => Some z | _ => None end.

(** [GraphApiError.__init__]. *)
Definition init (message : value) (http_status : Z) (code type_ details
    error_subcode fbtrace_id error_data : value)
    (retry_after_header : option string) (raw : value) : result t :=
  c ← code_arg code;
  let category := categorize_error c (Some http_status) in
  retry ← get_retry_hint category retry_after_header;
  Ok {| message := message; http_status := http_status; code := code;
        type := type_; details := details; error_subcode := error_subcode;
        fbtrace_id := fbtrace_id; error_data := error_data; raw := raw;
        category := category; retry := retry |}.

Definition from_response (http_status : Z) (body : dict)
    (retry_after_header : option string) : result t :=
  let err := get body "error" (VDict body) in
  message ← attr_get err "message" (VStr "Unknown Graph API error");
  code ← attr_get err "code" VNone;
  type_ ← attr_get err "type" (VStr "");
  error_user_msg ← attr_get err "error_user_msg" VNone;
  details ← (if truthy error_user_msg then Ok error_user_msg
             else attr_get err "details" VNone);
  error_subcode ← attr_get err "error_subcode" VNone;
  fbtrace_id ← attr_get err "fbtrace_id" VNone;
  error_data ← attr_get err "error_data" VNone;
  init message http_status code type_ details error_subcode fbtrace_id
       error_data retry_after_header (VDict body).

Definition is_auth_error (e : t) : bool :=
  bool_decide (category e = authorization).
Definition is_rate_limit (e : t) : bool :=
  bool_decide (category e = throttling).
Definition is_template_error (e : t) : bool :=
  bool_decide (category e = template).
Definition requires_token_refresh (e : t) : bool :=
  bool_decide (action (retry e) = refresh_token).

End GraphApiError.

(** ** types.py: the webhook models

    Each pydantic model is a record; [model_validate] is the validation that
    the class declaration gives for decoded JSON (lax mode: a [str] field
    takes a string only), [model_dump] is [model_dump(exclude_none=True)].
    With [populate_by_name] a field is read under its alias first, then
    under its name. *)

Module Types.

Definition as_str (v : value) : result string :=
  match v with VStr s => Ok s | _ => Raise ValidationError end.

Definition str_keys (d : dict) : bool :=
  forallb (fun kv => match fst kv with KStr _ => true | _ => false end) d.

(** [dict[str, Any]]. *)
Definition as_dict (v : value) : result dict :=
  match v with
  | VDict d => if str_keys d then Ok d else Raise ValidationError
  | _ => Raise ValidationError
  end.

(** [list[dict[str, Any]]]. *)
Definition as_dict_list (v : value) : result (list dict) :=
  match v with
  | VList l => mapM as_dict l
  | _ => Raise ValidationError
  end.

(** [T | None]. *)
Definition optional {A} (f : value -> result A) (v : value)
  : result (option A) :=
  match v with VNone => Ok None | _ => Some <$> f v end.

(** The input key a field is read from: the alias if the input has it, else
    the field name. *)
Definition lookup_key (d : dict) (alias name : string) : string :=
  if dict_mem d (KStr alias) then alias else name.

(** A field with a default of [None]. *)
Definition field_opt {A} (f : value -> result A) (d : dict)
    (alias name : string) : result (option A) :=
  match dict_get d (KStr (lookup_key d alias name)) with
  | Some v => optional f v
  | None => Ok None
  end.

(** A field without default. *)
Definition field_req {A} (f : value -> result A) (d : dict)
    (alias name : string) : result A :=
  match dict_get d (KStr (lookup_key d alias name)) with
  | Some v => f v
  | None => Raise ValidationError
  end.

(** The input items that no field has read ([extra="allow"]). *)
Definition extras (d : dict) (fields : list (string * string)) : dict :=
  let used := map (fun an => KStr (lookup_key d (fst an) (snd an))) fields in
  filter (fun kv => fst kv ∉ used) d.

(** [{name: value}] for the items whose value is not [None]. *)
Definition dump_items (items : list (string * option value)) (init : dict)
  : dict :=
  fold_left (fun acc nv =>
               match snd nv with
               | Some v => dict_set acc (KStr (fst nv)) v
               | None => acc
               end) items init.

Definition not_none (v : value) : option value :=
  match v with VNone => None | _ => Some v end.

Module WebhookMessageContext.

Record t := {
  id : option string;
  from_ : option string;
  referred_product : option dict;
}.

Definition model_validate (obj : value) : result t :=
  match obj with
  | VDict d =>
      id ← field_opt as_str d "id" "id";
      from_ ← field_opt as_str d "from" "from_";
      referred_product ←
        field_opt as_dict d "referredProduct" "referred_product";
      Ok {| id := id; from_ := from_; referred_product := referred_product |}
  | _ => Raise ValidationError
  end.

Definition model_dump (c : t) : dict :=
  dump_items [ ("id", VStr <$> id c);
               ("from_", VStr <$> from_ c);
               ("referred_product", VDict <$> referred_product c) ] [].

End WebhookMessageContext.

Module WebhookMessage.

Record t := {
  id : string;
  type : string;
  timestamp : string;
  from_ : option string;
  to : option string;
  context : option WebhookMessageContext.t;
  text : option dict;
  image : option dict;
  video : option dict;
  audio : option dict;
  document : option dict;
  location : option dict;
  interactive : option dict;
  template : option dict;
  order : option dict;
  sticker : option dict;
  contacts : option (list dict);
  reaction : option dict;
  button : option dict;
  referral : option dict;
  extra : dict;
}.

(** Alias and name of every field, in declaration order. *)
Definition fields : list (string * string) :=
  [ ("id", "id"); ("type", "type"); ("timestamp", "timestamp");
    ("from", "from_"); ("to", "to"); ("context", "context");
    ("text", "text"); ("image", "image"); ("video", "video");
    ("audio", "audio"); ("document", "document"); ("location", "location");
    ("interactive", "interactive"); ("template", "template");
    ("order", "order"); ("sticker", "sticker"); ("contacts", "contacts");
    ("reaction", "reaction"); ("button", "button");
    ("referral", "referral") ].

Definition model_validate (obj : value) : result t :=
  match obj with
  | VDict d =>
      if str_keys d then
        id ← field_req as_str d "id" "id";
        type ← field_req as_str d "type" "type";
        timestamp ← field_req as_str d "timestamp" "timestamp";
        from_ ← field_opt as_str d "from" "from_";
        to ← field_opt as_str d "to" "to";
        context ←
          field_opt WebhookMessageContext.model_validate d "context" "context";
        text ← field_opt as_dict d "text" "text";
        image ← field_opt as_dict d "image" "image";
        video ← field_opt as_dict d "video" "video";
        audio ← field_opt as_dict d "audio" "audio";
        document ← field_opt as_dict d "document" "document";
        location ← field_opt as_dict d "location" "location";
        interactive ← field_opt as_dict d "interactive" "interactive";
        template ← field_opt as_dict d "template" "template";
        order ← field_opt as_dict d "order" "order";
        sticker ← field_opt as_dict d "sticker" "sticker";
        contacts ← field_opt as_dict_list d "contacts" "contacts";
        reaction ← field_opt as_dict d "reaction" "reaction";
        button ← field_opt as_dict d "button" "button";
        referral ← field_opt as_dict d "referral" "referral";
        Ok {| id := id; type := type; timestamp := timestamp; from_ := from_;
              to := to; context := context; text := text; image := image;
              video := video; audio := audio; document := document;
              location := location; interactive := interactive;
              template := template; order := order; sticker := sticker;
              contacts := contacts; reaction := reaction; button := button;
              referral := referral; extra := extras d fields |}
      else Raise ValidationError
  | _ => Raise ValidationError
  end.

Definition model_dump (m : t) : dict :=
  let declared :=
    dump_items
      [ ("id", Some (VStr (id m))); ("type", Some (VStr (type m)));
        ("timestamp", Some (VStr (timestamp m)));
        ("from_", VStr <$> from_ m); ("to", VStr <$> to m);
        ("context",
          (fun c => VDict (WebhookMessageContext.model_dump c)) <$> context m);
        ("text", VDict <$> text m); ("image", VDict <$> image m);
        ("video", VDict <$> video m); ("audio", VDict <$> audio m);
        ("document", VDict <$> document m);
        ("location", VDict <$> location m);
        ("interactive", VDict <$> interactive m);
        ("template", VDict <$> template m); ("order", VDict <$> order m);
        ("sticker", VDict <$> sticker m);
        ("contacts", (fun l => VList (map VDict l)) <$> contacts m);
        ("reaction", VDict <$> reaction m); ("button", VDict <$> button m);
        ("referral", VDict <$> referral m) ] [] in
  fold_left (fun acc kv =>
               match not_none (snd kv) with
               | Some v => dict_set acc (fst kv) v
               | None => acc
               end) (extra m) declared.

End WebhookMessage.

Module MessageStatusUpdate.

Record t := {
  id : string;
  status : string;
  timestamp : string;
  recipient_id : option string;
  conversation : option dict;
  pricing : option dict;
  errors : option (list dict);
  extra : dict;
}.

Definition fields : list (string * string) :=
  [ ("id", "id"); ("status", "status"); ("timestamp", "timestamp");
    ("recipientId", "recipient_id"); ("conversation", "conversation");
    ("pricing", "pricing"); ("errors", "errors") ].

Definition model_validate (obj : value) : result t :=
  match obj with
  | VDict d =>
      if str_keys d then
        id ← field_req as_str d "id" "id";
        status ← field_req as_str d "status" "status";
        timestamp ← field_req as_str d "timestamp" "timestamp";
        recipient_id ← field_opt as_str d "recipientId" "recipient_id";
        conversation ← field_opt as_dict d "conversation" "conversation";
        pricing ← field_opt as_dict d "pricing" "pricing";
        errors ← field_opt as_dict_list d "errors" "errors";
        Ok {| id := id; status := status; timestamp := timestamp;
              recipient_id := recipient_id; conversation := conversation;
              pricing := pricing; errors := errors;
              extra := extras d fields |}
      else Raise ValidationError
  | _ => Raise ValidationError
  end.

End MessageStatusUpdate.

Module NormalizedWebhook.

Record t := {
  object : option string;
  phone_number_id : option string;
  display_phone_number : option string;
  contacts : list dict;
  messages : list WebhookMessage.t;
  statuses : list MessageStatusUpdate.t;
  raw : list (string * list dict);
}.

(** [NormalizedWebhook()]. *)
Definition empty : t :=
  {| object := None; phone_number_id := None; display_phone_number := None;
     contacts := []; messages := []; statuses := []; raw := [] |}.

(** [dict[str, list[dict[str, Any]]]]. *)
Definition as_raw (d : dict) : result (list (string * list dict)) :=
  mapM (fun kv =>
          match fst kv with
          | KStr k => l ← as_dict_list (snd kv); Ok (k, l)
          | _ => Raise ValidationError
          end) d.

(** [NormalizedWebhook(object=..., ..., raw=...)]: the keyword arguments are
    validated against the field types; the message and status models are
    taken as they are. *)
Definition init (object phone_number_id display_phone_number : value)
    (contacts : list value) (messages : list WebhookMessage.t)
    (statuses : list MessageStatusUpdate.t) (raw : dict) : result t :=
  object ← optional as_str object;
  phone_number_id ← optional as_str phone_number_id;
  display_phone_number ← optional as_str display_phone_number;
  contacts ← mapM as_dict contacts;
  raw ← as_raw raw;
  Ok {| object := object; phone_number_id := phone_number_id;
        display_phone_number := display_phone_number; contacts := contacts;
        messages := messages; statuses := statuses; raw := raw |}.

End NormalizedWebhook.

End Types.

(** ** webhooks/normalize.py *)

Module Normalize.
Import Types.

(** The local variables of [normalize_webhook] that the loops update. *)
Record locals := {
  all_messages : list WebhookMessage.t;
  all_statuses : list MessageStatusUpdate.t;
  all_contacts : list value;
  raw : dict;
  phone_number_id : value;
  display_phone_number : value;
}.

Definition initial : locals :=
  {| all_messages := []; all_statuses := []; all_contacts := []; raw := [];
     phone_number_id := VNone; display_phone_number := VNone |}.

Fixpoint substring (needle : string) (s : string) : bool :=
  String.prefix needle s
  || match s with
     | EmptyString => false
     | String _ s' => substring needle s'
     end.

(** ["from" in normalized]. *)
Definition contains_from (normalized : value) : result bool :=
  match normalized with
  | VDict d => Ok (dict_mem d (KStr "from"))
  | VList l => Ok (existsb (fun x => eq_str x "from") l)
  | VStr s => Ok (substring "from" s)
  | _ => Raise TypeError
  end.

(** [normalized.setdefault("from_", normalized.pop("from", None))]: the
    argument is evaluated first, and an existing ["from_"] is kept. *)
Definition rename_from (normalized : value) : result value :=
  match normalized with
  | VDict d =>
      let popped := default VNone (dict_get d (KStr "from")) in
      let d' := dict_del d (KStr "from") in
      Ok (VDict (if dict_mem d' (KStr "from_") then d'
                 else dict_set d' (KStr "from_") popped))
  | _ => Raise AttributeError
  end.

(** [raw.setdefault(field, []).append(item)]. *)
Definition raw_append (raw : dict) (field : key) (item : value) : dict :=
  match dict_get raw field with
  | Some (VList l) => dict_set raw field (VList (l ++ [item])%list)
  | _ => dict_set raw field (VList [item])
  end.

(** Body of [for msg in value.get("messages", [])]. *)
Definition add_message (st : locals) (msg : value) : result locals :=
  normalized ← Case.to_snake_deep msg;
  has_from ← contains_from normalized;
  normalized ← (if has_from : bool then rename_from normalized
                else Ok normalized);
  m ← WebhookMessage.model_validate normalized;
  Ok {| all_messages := (all_messages st ++ [m])%list;
        all_statuses := all_statuses st; all_contacts := all_contacts st;
        raw := raw st; phone_number_id := phone_number_id st;
        display_phone_number := display_phone_number st |}.

(** Body of [for status in value.get("statuses", [])]. *)
Definition add_status (st : locals) (status : value) : result locals :=
  normalized ← Case.to_snake_deep status;
  u ← MessageStatusUpdate.model_validate normalized;
  Ok {| all_messages := all_messages st;
        all_statuses := (all_statuses st ++ [u])%list;
        all_contacts := all_contacts st;
        raw := raw st; phone_number_id := phone_number_id st;
        display_phone_number := display_phone_number st |}.

(** Body of [for c in value.get("contacts", [])]. *)
Definition add_contact (st : locals) (c : value) : result locals :=
  c' ← Case.to_snake_deep c;
  Ok {| all_messages := all_messages st; all_statuses := all_statuses st;
        all_contacts := (all_contacts st ++ [c'])%list;
        raw := raw st; phone_number_id := phone_number_id st;
        display_phone_number := display_phone_number st |}.

(** The two metadata assignments under [if not phone_number_id]. *)
Definition take_metadata (st : locals) (metadata : value) : result locals :=
  if truthy (phone_number_id st) then Ok st
  else
    pid ← attr_get metadata "phone_number_id" VNone;
    dpn ← attr_get metadata "display_phone_number" VNone;
    Ok {| all_messages := all_messages st; all_statuses := all_statuses st;
          all_contacts := all_contacts st; raw := raw st;
          phone_number_id := pid; display_phone_number := dpn |}.

(** Body of [for change in changes]. *)
Definition do_change (st : locals) (change : value) : result locals :=
  value ← attr_get change "value" (VDict []);
  field ← attr_get change "field" (VStr "");
  if negb (eq_str field "messages") then
    k ← as_key field;
    item ← Case.to_snake_deep value;
    Ok {| all_messages := all_messages st; all_statuses := all_statuses st;
          all_contacts := all_contacts st;
          raw := raw_append (raw st) k item;
          phone_number_id := phone_number_id st;
          display_phone_number := display_phone_number st |}
  else
    metadata ← attr_get value "metadata" (VDict []);
    st ← take_metadata st metadata;
    contacts ← attr_get value "contacts" (VList []) ≫= iter;
    st ← foldM add_contact contacts st;
    messages ← attr_get value "messages" (VList []) ≫= iter;
    st ← foldM add_message messages st;
    statuses ← attr_get value "statuses" (VList []) ≫= iter;
    foldM add_status statuses st.

(** Body of [for entry in entries]. *)
Definition do_entry (st : locals) (entry : value) : result locals :=
  changes ← attr_get entry "changes" (VList []) ≫= iter;
  foldM do_change changes st.

Definition normalize_webhook (payload : value)
  : result NormalizedWebhook.t :=
  match payload with
  | VDict d =>
      let obj := get d "object" VNone in
      entries ← iter (get d "entry" (VList []));
      st ← foldM do_entry entries initial;
      NormalizedWebhook.init obj (phone_number_id st)
        (display_phone_number st) (all_contacts st) (all_messages st)
        (all_statuses st) (raw st)
  | _ => Ok NormalizedWebhook.empty
  end.

End Normalize.

(** ** events/events.py *)

Module Events.

(** The fields of [WhatsAppEvent] and [MessageEvent]. *)
Record MessageEvent := {
  phone_number_id : option string;
  message_id : string;
  timestamp : string;
  from_number : string;
  context : option dict;
}.

(** The fields of [WhatsAppEvent] and [StatusEvent]. *)
Record StatusEvent := {
  st_phone_number_id : option string;
  st_message_id : string;
  st_timestamp : string;
  recipient_id : string;
  conversation : option dict;
  pricing : option dict;
}.

(** The concrete event classes.  The dataclasses do not check their field
    types, so a type-specific field holds whatever the payload had. *)
Inductive WhatsAppEvent :=
| TextReceived (base : MessageEvent) (body : value) (preview_url : bool)
| ImageReceived (base : MessageEvent) (image_id mime_type sha256 caption : value)
| VideoReceived (base : MessageEvent) (video_id mime_type sha256 caption : value)
| AudioReceived (base : MessageEvent) (audio_id mime_type sha256 voice : value)
| DocumentReceived (base : MessageEvent)
    (document_id mime_type sha256 filename caption : value)
| StickerReceived (base : MessageEvent) (sticker_id mime_type animated : value)
| LocationReceived (base : MessageEvent) (latitude longitude name address : value)
| ContactsReceived (base : MessageEvent) (contacts : list dict)
| ReactionReceived (base : MessageEvent) (emoji reacted_message_id : value)
| ButtonReply (base : MessageEvent) (button_id button_title : value)
| ListReply (base : MessageEvent) (list_id list_title list_description : value)
| FlowResponse (base : MessageEvent) (response_json flow_token : value)
| OrderReceived (base : MessageEvent)
    (catalog_id product_items order_text : value)
| MessageSent (base : StatusEvent)
| MessageDelivered (base : StatusEvent)
| MessageRead (base : StatusEvent)
| MessageFailed (base : StatusEvent) (errors : list dict)
| UnknownMessageReceived (base : MessageEvent) (raw_type : string)
    (raw_data : dict).

End Events.

(** ** events/dispatcher.py *)

Module Dispatcher.
Import Types Events.

Section Builtins.

(** [json.loads] on a string, and [str] on a value that is not a string
    (used by the f-string of [_map_interactive]). *)
Variable json_loads : string -> result value.
Variable str_of : value -> string.

Definition format (v : value) : string :=
  match v with VStr s => s | _ => str_of v end.

Definition _base_kwargs (msg : WebhookMessage.t)
    (phone_number_id : option string) : MessageEvent :=
  let ctx :=
    match WebhookMessage.context msg with
    | Some c => Some (WebhookMessageContext.model_dump c)
    | None => None
    end in
  {| phone_number_id := phone_number_id;
     message_id := WebhookMessage.id msg;
     timestamp := WebhookMessage.timestamp msg;
     from_number := default "" (WebhookMessage.from_ msg);
     context := match ctx with
                | Some ((_ :: _) as d) => Some d
                | _ => None
                end |}.

(** [try: json.loads(s) except (json.JSONDecodeError, TypeError): {}]. *)
Definition loads_or_empty (s : string) : result value :=
  match json_loads s with
  | Ok v => Ok v
  | Raise e =>
      if existsb (subclass e) [JSONDecodeError; TypeError]
      then Ok (VDict [])
      else Raise e
  end.

Definition _map_interactive (msg : WebhookMessage.t) (base : MessageEvent)
  : result WhatsAppEvent :=
  let interactive := default [] (WebhookMessage.interactive msg) in
  let itype := get interactive "type" (VStr "") in
  if eq_str itype "button_reply" then
    let reply := get interactive "button_reply" (VDict []) in
    button_id ← attr_get reply "id" (VStr "");
    button_title ← attr_get reply "title" (VStr "");
    Ok (ButtonReply base button_id button_title)
  else if eq_str itype "list_reply" then
    let reply := get interactive "list_reply" (VDict []) in
    list_id ← attr_get reply "id" (VStr "");
    list_title ← attr_get reply "title" (VStr "");
    list_description ← attr_get reply "description" VNone;
    Ok (ListReply base list_id list_title list_description)
  else if eq_str itype "nfm_reply" then
    let reply := get interactive "nfm_reply" (VDict []) in
    response_json ← attr_get reply "response_json" (VDict []);
    response_json ←
      match response_json with
      | VStr s => loads_or_empty s
      | _ => Ok response_json
      end;
    flow_token ← attr_get reply "flow_token" VNone;
    Ok (FlowResponse base response_json flow_token)
  else
    Ok (UnknownMessageReceived base ("interactive:" +:+ format itype)
          interactive).

Definition _map_message (msg : WebhookMessage.t)
    (phone_number_id : option string) : result WhatsAppEvent :=
  let base := _base_kwargs msg phone_number_id in
  let type := WebhookMessage.type msg in
  if decide (type = "text") then
    let text := default [] (WebhookMessage.text msg) in
    Ok (TextReceived base (get text "body" (VStr "")) false)
  else if decide (type = "image") then
    let img := default [] (WebhookMessage.image msg) in
    Ok (ImageReceived base (get img "id" (VStr ""))
          (get img "mime_type" (VStr "")) (get img "sha256" (VStr ""))
          (get img "caption" VNone))
  else if decide (type = "video") then
    let vid := default [] (WebhookMessage.video msg) in
    Ok (VideoReceived base (get vid "id" (VStr ""))
          (get vid "mime_type" (VStr "")) (get vid "sha256" (VStr ""))
          (get vid "caption" VNone))
  else if decide (type = "audio") then
    let aud := default [] (WebhookMessage.audio msg) in
    Ok (AudioReceived base (get aud "id" (VStr ""))
          (get aud "mime_type" (VStr "")) (get aud "sha256" (VStr ""))
          (get aud "voice" (VBool false)))
  else if decide (type = "document") then
    let doc := default [] (WebhookMessage.document msg) in
    Ok (DocumentReceived base (get doc "id" (VStr ""))
          (get doc "mime_type" (VStr "")) (get doc "sha256" (VStr ""))
          (get doc "filename" VNone) (get doc "caption" VNone))
  else if decide (type = "sticker") then
    let stk := default [] (WebhookMessage.sticker msg) in
    Ok (StickerReceived base (get stk "id" (VStr ""))
          (get stk "mime_type" (VStr "")) (get stk "animated" (VBool false)))
  else if decide (type = "location") then
    let loc := default [] (WebhookMessage.location msg) in
    Ok (LocationReceived base
          (get loc "latitude" (VFloat (S754_zero false)))
          (get loc "longitude" (VFloat (S754_zero false)))
          (get loc "name" VNone) (get loc "address" VNone))
  else if decide (type = "contacts") then
    Ok (ContactsReceived base (default [] (WebhookMessage.contacts msg)))
  else if decide (type = "reaction") then
    let rxn := default [] (WebhookMessage.reaction msg) in
    Ok (ReactionReceived base (get rxn "emoji" VNone)
          (get rxn "message_id" (VStr "")))
  else if decide (type = "interactive") then
    _map_interactive msg base
  else if decide (type = "order") then
    let order := default [] (WebhookMessage.order msg) in
    Ok (OrderReceived base (get order "catalog_id" (VStr ""))
          (get order "product_items" (VList []))
          (get order "order_text" VNone))
  else
    Ok (UnknownMessageReceived base type (WebhookMessage.model_dump msg)).

(** The status branch of [dispatch_webhook]: the [base] dict and the
    [match status.status]. *)
Definition status_event (pid : option string) (status : MessageStatusUpdate.t)
  : WhatsAppEvent :=
  let base :=
    {| st_phone_number_id := pid;
       st_message_id := MessageStatusUpdate.id status;
       st_timestamp := MessageStatusUpdate.timestamp status;
       recipient_id := default "" (MessageStatusUpdate.recipient_id status);
       conversation := MessageStatusUpdate.conversation status;
       pricing := MessageStatusUpdate.pricing status |} in
  let s := MessageStatusUpdate.status status in
  if decide (s = "sent") then MessageSent base
  else if decide (s = "delivered") then MessageDelivered base
  else if decide (s = "read") then MessageRead base
  else if decide (s = "failed") then
    MessageFailed base (default [] (MessageStatusUpdate.errors status))
  else MessageSent base.

(** [for x in xs: emitter.emit(f(x))]: the emitter is the list of the events
    emitted so far; an exception stops the loop and keeps what was emitted. *)
Fixpoint emit_each {A} (f : A -> result WhatsAppEvent) (xs : list A)
    (emitted : list WhatsAppEvent) : list WhatsAppEvent * result unit :=
  match xs with
  | [] => (emitted, Ok tt)
  | x :: xs' =>
      match f x with
      | Ok event => emit_each f xs' (emitted ++ [event])%list
      | Raise e => (emitted, Raise e)
      end
  end.

Definition dispatch_webhook (webhook : NormalizedWebhook.t)
    (emitted : list WhatsAppEvent) : list WhatsAppEvent * result unit :=
  let pid := NormalizedWebhook.phone_number_id webhook in
  match emit_each (fun msg => _map_message msg pid)
          (NormalizedWebhook.messages webhook) emitted with
  | (emitted, Ok _) =>
      emit_each (fun status => Ok (status_event pid status))
        (NormalizedWebhook.statuses webhook) emitted
  | (emitted, Raise e) => (emitted, Raise e)
  end.

End Builtins.

End Dispatcher.

(** ** client.py: the headers of a request *)

Module Client.

Record WhatsAppClient := {
  _access_token : string;
  _base_url : string;
  _version : string;
}.

Definition _auth_headers (self : WhatsAppClient) : gmap string string :=
  {[ "Authorization" := "Bearer " +:+ _access_token self ]}.

(** [{**self._auth_headers, **(headers or {})}], the header map that
    [request] and [fetch_authenticated] hand to the HTTP client: on a common
    key the right operand of the merge wins. *)
Definition merged_headers (self : WhatsAppClient)
    (headers : option (gmap string string)) : gmap string string :=
  default ∅ headers ∪ _auth_headers self.

End Client.

(** ** client.py: URLs and the request cycle *)

Module Request.
Import Client.

(** [s.lstrip("/")] and [s.rstrip("/")]. *)
Fixpoint lstrip_slash (s : string) : string :=
  match s with
  | String c s' => if bool_decide (c = "/"%char) then lstrip_slash s' else s
  | EmptyString => EmptyString
  end.

Fixpoint rstrip_slash (s : string) : string :=
  match s with
  | EmptyString => EmptyString
  | String c s' =>
      match rstrip_slash s' with
      | EmptyString =>
          if bool_decide (c = "/"%char) then EmptyString
          else String c EmptyString
      | r => String c r
      end
  end.

Definition _DEFAULT_BASE_URL : string := "https://graph.facebook.com".
Definition _DEFAULT_VERSION : string := "v23.0".

(** [WhatsAppClient.__init__], for the three fields that the methods
    below read. *)
Definition init (access_token base_url graph_version : string)
  : WhatsAppClient :=
  {| _access_token := access_token;
     _base_url := rstrip_slash base_url;
     _version := graph_version |}.

Definition _url (self : WhatsAppClient) (path : string) : string :=
  if String.prefix "http" path then path
  else _base_url self +:+ "/" +:+ _version self +:+ "/" +:+ lstrip_slash path.

(** What the methods read of an [httpx.Response]: the status, the body
    bytes, the outcome of [resp.json()] and the header [retry-after]. *)
Record Response := {
  status_code : Z;
  content : string;
  json : result value;
  retry_after : option string;
}.

(** How an awaited call of [request] ends. *)
Inductive outcome :=
| Returned (v : value)
| ReturnedResponse (resp : Response)
| RaisedGraphApiError (e : GraphApiError.t)
| Raised (e : exn).

(** [GraphApiError.from_response] on a decoded body of any type: only a
    dict has [get]. *)
Definition from_response (http_status : Z) (body : value)
    (retry_after_header : option string) : result GraphApiError.t :=
  match body with
  | VDict d => GraphApiError.from_response http_status d retry_after_header
  | _ => Raise AttributeError
  end.

Section Http.

(** The HTTP client: [self._http.request(method, url, json=..., params=...,
    data=..., files=..., headers=...)], for an exchange that completes.
    [Args] stands for the four payload arguments, which [request] hands
    over as they are. *)
Variable Args : Type.
Variable http : string -> string -> Args -> gmap string string -> Response.

(** [request], after the response has arrived. *)
Definition respond (resp : Response) (raw_response : bool) : outcome :=
  if raw_response then ReturnedResponse resp
  else
    match (if bool_decide (content resp = "") then Ok (VDict [])
           else json resp) with
    | Raise e => Raised e
    | Ok body =>
        if 400 <=? status_code resp then
          match from_response (status_code resp) body (retry_after resp) with
          | Ok e => RaisedGraphApiError e
          | Raise e => Raised e
          end
        else
          match Case.to_snake_deep body with
          | Ok v => Returned v
          | Raise e => Raised e
          end
    end.

Definition request (self : WhatsAppClient) (method path : string)
    (args : Args) (headers : option (gmap string string))
    (raw_response : bool) : outcome :=
  let merged_headers := merged_headers self headers in
  let resp := http method (_url self path) args merged_headers in
  respond resp raw_response.

Definition get (self : WhatsAppClient) (path : string) (args : Args)
  : outcome :=
  request self "GET" path args None false.

Definition post (self : WhatsAppClient) (path : string) (args : Args)
  : outcome :=
  request self "POST" path args None false.

Definition delete (self : WhatsAppClient) (path : string) (args : Args)
  : outcome :=
  request self "DELETE" path args None false.

End Http.

End Request.

(** ** types.py: the alias generator *)

Module Alias.
Import Case.

(** [s.split("_")]: the pieces between the underscores, at least one. *)
Fixpoint split_underscore (s : string) : string * list string :=
  match s with
  | EmptyString => (EmptyString, [])
  | String c s' =>
      let (p, ps) := split_underscore s' in
      if bool_decide (c = "_"%char) then (EmptyString, p :: ps)
      else (String c p, ps)
  end.

(** [w.capitalize()]: the first character in upper case, the others in
    lower case. *)
Definition capitalize (w : string) : string :=
  match w with
  | EmptyString => EmptyString
  | String c w' => String (upper_ascii c) (lower w')
  end.

Fixpoint join (ws : list string) : string :=
  match ws with
  | [] => EmptyString
  | w :: ws' => w +:+ join ws'
  end.

(** [_to_camel] of [types.py], the alias generator of every model (and
    [_to_api_key] of [resources/messages/resource.py], which has the same
    body). *)
Definition _to_camel (s : string) : string :=
  let (p, ps) := split_underscore s in
  p +:+ join (map capitalize ps).

Fixpoint has_underscore (s : string) : bool :=
  match s with
  | EmptyString => false
  | String c s' => bool_decide (c = "_"%char) || has_underscore s'
  end.

End Alias.

(** ** Vocabulary of the properties *)

Module Spec.
Import Categorize Types.

(** The groups of codes as the specification lists them (section 4.2). *)
Definition spec_groups : list (ErrorCategory * list Z) :=
  [ (authorization, [0; 190]);
    (permission, [10; 200; 299]);
    (throttling, [4; 80007; 130429; 131048; 131056]);
    (parameter,
      [33; 100; 130472; 131008; 131009; 131021; 131026; 135000]);
    (media, [131051; 131052; 131053]);
    (template,
      [132000; 132001; 132005; 132007; 132012; 132015; 132016]);
    (flow, [132068; 132069]);
    (phone_registration,
      [133000; 133004; 133005; 133006; 133008; 133009; 133010; 133015;
       133016]);
    (reengagement_window, [131047]);
    (integrity, [368; 130497; 131031]) ].

(** [s] has a match of [_CAMEL_RE]: an underscore before a lower-case letter
    or a digit. *)
Fixpoint camel_match (s : string) : bool :=
  match s with
  | EmptyString => false
  | String a t =>
      match t with
      | String c _ => bool_decide (a = "_"%char) && Case.is_lower_alnum c
      | EmptyString => false
      end
      || camel_match t
  end.

(** [s] has two underscores before a digit. *)
Fixpoint underscores_digit (s : string) : bool :=
  match s with
  | EmptyString => false
  | String a t =>
      match t with
      | String b (String c _) =>
          bool_decide (a = "_"%char) && bool_decide (b = "_"%char)
          && is_digit c
      | _ => false
      end
      || underscores_digit t
  end.

(** [s] has a capital letter. *)
Fixpoint has_upper (s : string) : bool :=
  match s with
  | EmptyString => false
  | String c s' => Case.is_upper c || has_upper s'
  end.

Definition is_str_key (k : key) : bool :=
  match k with KStr _ => true | _ => false end.

(** Every dict inside [v] is keyed by strings, as in decoded JSON. *)
Fixpoint str_keys_deep (v : value) : bool :=
  match v with
  | VList l => forallb str_keys_deep l
  | VDict d =>
      forallb (fun kv => is_str_key (fst kv) && str_keys_deep (snd kv)) d
  | _ => true
  end.

(** The keys of a dict, in order. *)
Definition keys (d : dict) : list key := map fst d.

(** [w] has the structure of [v] with the keys renamed by [f]: a list as
    long as the list [v]; a dict whose keys are the images under [f] of the
    keys of the dict [v]; [v] itself for any other [v]. *)
Definition same_kind (f : string -> string) (v w : value) : Prop :=
  match v, w with
  | VList l, VList l' => length l = length l'
  | VDict d, VDict d' =>
      forall k', k' ∈ keys d' <-> exists s, KStr s ∈ keys d /\ k' = KStr (f s)
  | (VList _ | VDict _), _ => False
  | _, _ => w = v
  end.

(** An item of a dict: a string key and a value keyed by strings. *)
Definition str_item (kv : key * value) : bool :=
  is_str_key (fst kv) && str_keys_deep (snd kv).

(** A message that has only its three required fields. *)
Definition bare_message (id type timestamp : string) : WebhookMessage.t :=
  {| WebhookMessage.id := id; WebhookMessage.type := type;
     WebhookMessage.timestamp := timestamp; WebhookMessage.from_ := None;
     WebhookMessage.to := None; WebhookMessage.context := None;
     WebhookMessage.text := None; WebhookMessage.image := None;
     WebhookMessage.video := None; WebhookMessage.audio := None;
     WebhookMessage.document := None; WebhookMessage.location := None;
     WebhookMessage.interactive := None; WebhookMessage.template := None;
     WebhookMessage.order := None; WebhookMessage.sticker := None;
     WebhookMessage.contacts := None; WebhookMessage.reaction := None;
     WebhookMessage.button := None; WebhookMessage.referral := None;
     WebhookMessage.extra := [] |}.

(** An interactive message with the payload [interactive]. *)
Definition interactive_message (interactive : dict) : WebhookMessage.t :=
  {| WebhookMessage.id := "wamid.1"; WebhookMessage.type := "interactive";
     WebhookMessage.timestamp := "1700000000";
     WebhookMessage.from_ := Some "5511999999999";
     WebhookMessage.to := None; WebhookMessage.context := None;
     WebhookMessage.text := None; WebhookMessage.image := None;
     WebhookMessage.video := None; WebhookMessage.audio := None;
     WebhookMessage.document := None; WebhookMessage.location := None;
     WebhookMessage.interactive := Some interactive;
     WebhookMessage.template := None;
     WebhookMessage.order := None; WebhookMessage.sticker := None;
     WebhookMessage.contacts := None; WebhookMessage.reaction := None;
     WebhookMessage.button := None; WebhookMessage.referral := None;
     WebhookMessage.extra := [] |}.

(** The types that [_map_message] matches on. *)
Definition known_types : list string :=
  [ "text"; "image"; "video"; "audio"; "document"; "sticker"; "location";
    "contacts"; "reaction"; "interactive"; "order" ].

(** [entry.get("changes", [])], as the inner loop iterates it. *)
Definition entry_changes (entry : value) : result (list value) :=
  attr_get entry "changes" (VList []) ≫= iter.

(** What a change offers as metadata: for a change with field ["messages"]
    the pair of [metadata.get("phone_number_id")] and
    [metadata.get("display_phone_number")], for any other change nothing. *)
Definition change_metadata (change : value) : option (value * value) :=
  match attr_get change "value" (VDict []),
        attr_get change "field" (VStr "") with
  | Ok value, Ok field =>
      if eq_str field "messages" then
        match attr_get value "metadata" (VDict []) with
        | Ok (VDict metadata) =>
            Some (get metadata "phone_number_id" VNone,
                  get metadata "display_phone_number" VNone)
        | _ => None
        end
      else None
  | _, _ => None
  end.

(** The change offers a [phone_number_id] that is neither absent nor
    empty. *)
Definition offers_id (change : value) : bool :=
  match change_metadata change with
  | Some (pid, _) => truthy pid
  | None => false
  end.

(** The metadata pair that the loops of [normalize_webhook] hold. *)
Definition held (st : Normalize.locals) : value * value :=
  (Normalize.phone_number_id st, Normalize.display_phone_number st).

(** A payload of one entry with the given changes. *)
Definition one_entry (changes : list value) : dict :=
  [(KStr "object", VStr "whatsapp_business_account");
   (KStr "entry", VList [VDict [(KStr "changes", VList changes)]])].


(** Four changes: one of another field, then three of field ["messages"],
    the first of them with an empty [phone_number_id]. *)
Definition alerts_change : value :=
  VDict [(KStr "field", VStr "account_alerts");
         (KStr "value", VDict [(KStr "alertType", VStr "x")])].

(** The base fields of a status event, as the specification lists them. *)
Definition status_base (pid : option string)
    (status : MessageStatusUpdate.t) : Events.StatusEvent :=
  {| Events.st_phone_number_id := pid;
     Events.st_message_id := MessageStatusUpdate.id status;
     Events.st_timestamp := MessageStatusUpdate.timestamp status;
     Events.recipient_id :=
       default "" (MessageStatusUpdate.recipient_id status);
     Events.conversation := MessageStatusUpdate.conversation status;
     Events.pricing := MessageStatusUpdate.pricing status |}.

(** A status update with the given status and no optional field. *)
Definition status_update (id status : string) : MessageStatusUpdate.t :=
  {| MessageStatusUpdate.id := id; MessageStatusUpdate.status := status;
     MessageStatusUpdate.timestamp := "1700000000";
     MessageStatusUpdate.recipient_id := None;
     MessageStatusUpdate.conversation := None;
     MessageStatusUpdate.pricing := None;
     MessageStatusUpdate.errors := None;
     MessageStatusUpdate.extra := [] |}.

(** A webhook as [normalize_webhook] returns it, with one message and three
    status updates. *)
Definition sample_webhook : NormalizedWebhook.t :=
  {| NormalizedWebhook.object := Some "whatsapp_business_account";
     NormalizedWebhook.phone_number_id := Some "1234567890";
     NormalizedWebhook.display_phone_number := Some "15550001111";
     NormalizedWebhook.contacts := [];
     NormalizedWebhook.messages := [bare_message "wamid.1" "text" "1700000000"];
     NormalizedWebhook.statuses :=
       [status_update "wamid.2" "sent"; status_update "wamid.3" "pending";
        status_update "wamid.4" "failed"];
     NormalizedWebhook.raw := [] |}.

(** A [json.loads] that rejects every string, and a [str] that prints
    nothing: enough for messages that are not flow replies. *)
Definition loads_nothing (s : string) : result value := Raise JSONDecodeError.
Definition str_nothing (v : value) : string := "".

End Spec.

(** ** Vocabulary of the further properties *)

Module KeyShapes.
Import Case Spec.

Definition is_lower_letter (c : ascii) : bool :=
  let n := nat_of_ascii c in (97 <=? n)%nat && (n <=? 122)%nat.

(** A snake-case key on which camel conversion can be undone: no capital;
    every underscore stands between a lower-case letter or digit that does
    not itself follow an underscore, and a lower-case letter.  [prev] is the
    character before [s], [after] tells whether [prev] follows an
    underscore. *)
Fixpoint snake_wf (prev : option ascii) (after : bool) (s : string) : bool :=
  match s with
  | EmptyString => true
  | String c t =>
      if bool_decide (c = "_"%char) then
        from_option is_lower_alnum false prev && negb after
        && match t with
           | String x _ => is_lower_letter x
           | EmptyString => false
           end
        && snake_wf (Some c) false t
      else
        negb (is_upper c)
        && snake_wf (Some c) (bool_decide (prev = Some "_"%char)) t
  end.

Definition snake_key (s : string) : bool := snake_wf None false s.

(** A camel-case key on which snake conversion can be undone: every capital
    follows a lower-case letter or digit, and no underscore stands before a
    lower-case letter or digit. *)
Fixpoint camel_wf (prev : option ascii) (s : string) : bool :=
  match s with
  | EmptyString => true
  | String c t =>
      (if is_upper c then from_option is_lower_alnum false prev
       else negb (bool_decide (prev = Some "_"%char) && is_lower_alnum c))
      && camel_wf (Some c) t
  end.

Definition camel_key (s : string) : bool := camel_wf None s.

End KeyShapes.

Module DeepShapes.
Import Case Spec.

(** Every dict inside [v] has string keys that satisfy [p] and are pairwise
    distinct. *)
Fixpoint keyed (p : string -> bool) (v : value) : bool :=
  match v with
  | VList l => forallb (keyed p) l
  | VDict d =>
      bool_decide (NoDup (keys d))
      && forallb (fun kv =>
                    match fst kv with KStr s => p s | _ => false end
                    && keyed p (snd kv)) d
  | _ => true
  end.

(** The value of the last item of [d] whose key is a string that [f] sends
    to [k'], as the dict comprehension of the deep conversions keeps it. *)
Fixpoint last_value (f : string -> string) (k' : string) (d : dict)
  : option value :=
  match d with
  | [] => None
  | (k, v) :: d' =>
      match last_value f k' d' with
      | Some v' => Some v'
      | None =>
          match k with
          | KStr s => if bool_decide (f s = k') then Some v else None
          | _ => None
          end
      end
  end.

(** [v] with every string key [s] replaced by [f s], nothing merged. *)
Definition renamed (f : string -> string) (ren : value -> value) (d : dict)
  : dict :=
  map (fun kv => (match fst kv with KStr s => KStr (f s) | k => k end,
                  ren (snd kv))) d.

Fixpoint rename_keys (f : string -> string) (v : value) : value :=
  match v with
  | VList l => VList (map (rename_keys f) l)
  | VDict d => VDict (renamed f (rename_keys f) d)
  | _ => v
  end.

(** The key that the dict comprehension stores an item under. *)
Definition converted_key (f : string -> string) (k : key) : key :=
  match k with KStr s => KStr (f s) | _ => k end.

(** The keys of a list in the order of their first occurrence, as a dict
    keeps the keys that are set on it. *)
Fixpoint first_occurrences (ks : list key) : list key :=
  match ks with
  | [] => []
  | k :: ks' => k :: filter (fun k' => k' <> k) (first_occurrences ks')
  end.

Section Pointwise.
Context {A B : Type}.
Variable R : A -> B -> Prop.

(** Two lists of the same length, related item by item. *)
Fixpoint each (l : list A) (l' : list B) : Prop :=
  match l, l' with
  | [], [] => True
  | x :: l, y :: l' => R x y /\ each l l'
  | _, _ => False
  end.

End Pointwise.

Section Stored.
Variable f : string -> string.
Variable R : value -> value -> Prop.
Variable d' : dict.

(** Every item of [d0] that is the last one stored under its converted key
    has its value, converted, under that key in [d']. *)
Fixpoint stored (d0 : dict) : Prop :=
  match d0 with
  | [] => True
  | (k, x) :: d1 =>
      (forall s, k = KStr s -> last_value f (f s) d1 = None ->
       exists y, dict_get d' (KStr (f s)) = Some y /\ R x y)
      /\ stored d1
  end.

End Stored.

(** [w] is [v] with nothing but its dict keys changed, by [f], at every
    depth.  A list becomes the list of its converted elements.  A dict
    becomes the dict that has the converted keys of the items, in the order
    of their first occurrence, each with the converted value of the last
    item that is stored under it.  Any other value stays as it is. *)
Fixpoint converted (f : string -> string) (v w : value) {struct v} : Prop :=
  match v with
  | VList l => exists l', w = VList l' /\ each (converted f) l l'
  | VDict d =>
      exists d', w = VDict d'
        /\ keys d' = first_occurrences (map (converted_key f) (keys d))
        /\ stored f (converted f) d' d
  | _ => w = v
  end.

End DeepShapes.

Module NormalizeShapes.
Import Types Normalize Spec.

(** The dict that [normalize_webhook] validates as a message: the item in
    snake case, with ["from"] moved to ["from_"]. *)
Definition renamed_message (msg : value) : result value :=
  normalized ← Case.to_snake_deep msg;
  has_from ← contains_from normalized;
  if has_from : bool then rename_from normalized else Ok normalized.

(** What the loops of [normalize_webhook] append for one item. *)
Definition normalize_message (msg : value) : result WebhookMessage.t :=
  renamed_message msg ≫= WebhookMessage.model_validate.

Definition normalize_status (status : value)
  : result MessageStatusUpdate.t :=
  Case.to_snake_deep status ≫= MessageStatusUpdate.model_validate.

(** The changes of a payload, over all its entries, in order. *)
Definition payload_changes (payload : dict) : list value :=
  match iter (get payload "entry" (VList [])) ≫= mapM entry_changes with
  | Ok chss => concat chss
  | Raise _ => []
  end.

(** The items that a change holds under [name]: those of its value if its
    field is ["messages"], none otherwise. *)
Definition change_items (name : string) (change : value) : list value :=
  match attr_get change "value" (VDict []),
        attr_get change "field" (VStr "") with
  | Ok value, Ok field =>
      if eq_str field "messages" then
        match attr_get value name (VList []) ≫= iter with
        | Ok items => items
        | Raise _ => []
        end
      else []
  | _, _ => []
  end.

(** The three lists that the loops of [normalize_webhook] extend. *)
Definition collected (st : locals)
  : list value * list WebhookMessage.t * list MessageStatusUpdate.t :=
  (all_contacts st, all_messages st, all_statuses st).

(** An inbound message, a status update and a contact, as Meta sends
    them. *)
Definition inbound_message (id from : string) : value :=
  VDict [(KStr "id", VStr id); (KStr "type", VStr "text");
         (KStr "timestamp", VStr "1700000000"); (KStr "from", VStr from);
         (KStr "text", VDict [(KStr "body", VStr "hi")])].

Definition delivery_status (id status : string) : value :=
  VDict [(KStr "id", VStr id); (KStr "status", VStr status);
         (KStr "timestamp", VStr "1700000000");
         (KStr "recipient_id", VStr "5511")].

(** A ["messages"] change with metadata, contacts, messages and statuses. *)
Definition full_change (pid : string) (contacts messages statuses : list value)
  : value :=
  VDict [(KStr "field", VStr "messages");
         (KStr "value",
           VDict [(KStr "metadata",
                    VDict [(KStr "phone_number_id", VStr pid);
                           (KStr "display_phone_number", VStr "15550001111")]);
                  (KStr "contacts", VList contacts);
                  (KStr "messages", VList messages);
                  (KStr "statuses", VList statuses)])].

(** A payload of two entries: an alert and a change with two messages, then
    a change with a message and a status. *)
Definition two_entries : dict :=
  [(KStr "object", VStr "whatsapp_business_account");
   (KStr "entry",
     VList [VDict [(KStr "changes",
                     VList [alerts_change;
                            full_change "111"
                              [VDict [(KStr "waId", VStr "5511")]]
                              [inbound_message "wamid.1" "5511";
                               inbound_message "wamid.2" "5512"] []])];
            VDict [(KStr "changes",
                     VList [full_change "222" []
                              [inbound_message "wamid.3" "5513"]
                              [delivery_status "wamid.0" "read"];
                            alerts_change])]])].

(** The invariant of the local [raw] of [normalize_webhook]: keys are
    pairwise distinct, none is ["messages"], every bucket is a list with an
    item. *)
Definition raw_item_ok (kv : key * value) : Prop :=
  fst kv <> KStr "messages" /\ exists x l, snd kv = VList (x :: l).

End NormalizeShapes.

Module EventShapes.
Import Types Events.

(** The [MessageEvent] fields of an event, if it is one. *)
Definition message_base (event : WhatsAppEvent) : option MessageEvent :=
  match event with
  | TextReceived base _ _ | ImageReceived base _ _ _ _
  | VideoReceived base _ _ _ _ | AudioReceived base _ _ _ _
  | DocumentReceived base _ _ _ _ _ | StickerReceived base _ _ _
  | LocationReceived base _ _ _ _ | ContactsReceived base _
  | ReactionReceived base _ _ | ButtonReply base _ _
  | ListReply base _ _ _ | FlowResponse base _ _
  | OrderReceived base _ _ _ | UnknownMessageReceived base _ _ => Some base
  | MessageSent _ | MessageDelivered _ | MessageRead _ | MessageFailed _ _ =>
      None
  end.

Definition is_dict (v : value) : bool :=
  match v with VDict _ => true | _ => false end.

(** The three interactive replies that [_map_interactive] reads. *)
Definition reply_kinds : list string :=
  ["button_reply"; "list_reply"; "nfm_reply"].

End EventShapes.

Module Raises.

(** A computation that raises nothing but exceptions of the classes [E]. *)
Definition only {A} (E : list exn) (m : result A) : Prop :=
  forall e, m = Raise e -> e ∈ E.

End Raises.

(** * Properties *)

(** ** Induction on values *)

Section ValueInduction.
Variable P : value -> Prop.
Hypothesis none_case : P VNone.
Hypothesis bool_case : forall b, P (VBool b).
Hypothesis int_case : forall z, P (VInt z).
Hypothesis float_case : forall f, P (VFloat f).
Hypothesis str_case : forall s, P (VStr s).
Hypothesis list_case : forall l, Forall P l -> P (VList l).
Hypothesis dict_case :
  forall d, Forall (fun kv => P (snd kv)) d -> P (VDict d).

Fixpoint value_ind (v : value) : P v :=
  match v with
  | VNone => none_case
  | VBool b => bool_case b
  | VInt z => int_case z
  | VFloat f => float_case f
  | VStr s => str_case s
  | VList l =>
      list_case l
        ((fix items (l : list value) : Forall P l :=
            match l with
            | [] => List.Forall_nil P
            | x :: l' => List.Forall_cons P x l' (value_ind x) (items l')
            end) l)
  | VDict d =>
      dict_case d
        ((fix items (d : dict) : Forall (fun kv => P (snd kv)) d :=
            match d with
            | [] => List.Forall_nil _
            | kv :: d' =>
                List.Forall_cons (fun kv => P (snd kv)) kv d'
                  (value_ind (snd kv)) (items d')
            end) d)
  end.

End ValueInduction.

(** ** Error classifier *)

Section CategorizeProperties.
Import Categorize Spec.

(** The table of the code holds exactly the groups of the specification. *)
Lemma table_matches_spec_groups :
  _CODE_TO_CATEGORY =
    list_to_map
      (flat_map (fun g => map (fun c => (c, fst g)) (snd g)) spec_groups).
Proof. apply map_eq; intros c. vm_compute list_to_map. reflexivity. Qed.

Lemma table_size : size _CODE_TO_CATEGORY = 43%nat.
Proof. reflexivity. Qed.

(** C1.  A code that is a key of the table is classified by the table,
    whatever the HTTP status; any other code, or no code, is [server] under a
    status of 500 or more and [unknown] otherwise (no status included). *)
Theorem categorize_error_table_then_status (code http_status : option Z) :
  (forall c category,
     code = Some c -> _CODE_TO_CATEGORY !! c = Some category ->
     categorize_error code http_status = category)
  /\ ((forall c, code = Some c -> _CODE_TO_CATEGORY !! c = None) ->
      (forall status, http_status = Some status -> 500 <= status ->
         categorize_error code http_status = server)
      /\ ((forall status, http_status = Some status -> status < 500) ->
          categorize_error code http_status = unknown)).
Proof.
  unfold categorize_error. split.
  - intros c category -> Hc.
    change (Some c ≫= _) with (_CODE_TO_CATEGORY !! c).
    rewrite Hc. reflexivity.
  - intros Hcode.
    assert (Hnone : code ≫= (fun c => _CODE_TO_CATEGORY !! c) = None).
    { destruct code as [c |]; [exact (Hcode c eq_refl) | reflexivity]. }
    rewrite Hnone. split.
    + intros status -> Hge.
      destruct (Z.leb_spec 500 status); [reflexivity | lia].
    + intros Hlow. destruct http_status as [status |]; [| reflexivity].
      specialize (Hlow status eq_refl).
      destruct (Z.leb_spec 500 status); [lia | reflexivity].
Qed.

Lemma categorize_error_table_then_status_witness :
  categorize_error (Some 190) (Some 500) = authorization
  /\ categorize_error (Some 99999) (Some 502) = server
  /\ categorize_error None (Some 400) = unknown.
Proof.
  split; [| split].
  - destruct (categorize_error_table_then_status (Some 190) (Some 500))
      as [Htab _].
    apply (Htab 190); [reflexivity | vm_compute; reflexivity].
  - destruct (categorize_error_table_then_status (Some 99999) (Some 502))
      as [_ Hrest].
    destruct Hrest as [Hserver _].
    { intros c [= <-]. vm_compute. reflexivity. }
    apply (Hserver 502); [reflexivity | lia].
  - destruct (categorize_error_table_then_status None (Some 400))
      as [_ Hrest].
    destruct Hrest as [_ Hunknown]; [discriminate |].
    apply Hunknown. intros status [= <-]. lia.
Defined.

(** The examples of the specification. *)
Example categorize_error_examples :
  categorize_error None (Some 500) = server
  /\ categorize_error None (Some 502) = server
  /\ categorize_error None (Some 400) = unknown
  /\ categorize_error None None = unknown
  /\ categorize_error (Some 99999) None = unknown
  /\ categorize_error (Some 131056) (Some 500) = throttling.
Proof. vm_compute. repeat split. Qed.

(** Every entry of the table wins over every HTTP status. *)
Lemma categorize_error_every_entry (c : Z) (category : ErrorCategory)
    (http_status : option Z) :
  (c, category) ∈ map_to_list _CODE_TO_CATEGORY ->
  categorize_error (Some c) http_status = category.
Proof.
  intros Hin%elem_of_map_to_list. unfold categorize_error.
  change (Some c ≫= _) with (_CODE_TO_CATEGORY !! c).
  rewrite Hin. reflexivity.
Qed.

End CategorizeProperties.

(** ** Retry advisor *)

Section RetryProperties.
Import Categorize Retry.

(** The action never depends on the header and is the one of the table. *)
Lemma get_retry_hint_action (category : ErrorCategory)
    (retry_after_header : option string) (hint : RetryHint) :
  get_retry_hint category retry_after_header = Ok hint ->
  action hint = _CATEGORY_RETRY category.
Proof.
  unfold get_retry_hint.
  destruct (parsed_header retry_after_header) as [ms | e]; simpl;
    [| discriminate].
  intros [= <-]. reflexivity.
Qed.

(** Without a header the advisor always answers. *)
Lemma get_retry_hint_no_header (category : ErrorCategory) :
  get_retry_hint category None =
    Ok {| action := _CATEGORY_RETRY category;
          retry_after_ms :=
            if decide (_CATEGORY_RETRY category = retry_after)
            then Some 60000 else None |}.
Proof. destruct category; reflexivity. Qed.

(** The examples of the specification: seconds become milliseconds, an
    unparsable header counts as no header. *)
Example get_retry_hint_examples :
  get_retry_hint throttling None =
    Ok {| action := retry_after; retry_after_ms := Some 60000 |}
  /\ get_retry_hint throttling (Some "30") =
       Ok {| action := retry_after; retry_after_ms := Some 30000 |}
  /\ get_retry_hint throttling (Some "1.5") =
       Ok {| action := retry_after; retry_after_ms := Some 1500 |}
  /\ get_retry_hint throttling (Some "not-a-number") =
       Ok {| action := retry_after; retry_after_ms := Some 60000 |}
  /\ get_retry_hint throttling (Some "nan") =
       Ok {| action := retry_after; retry_after_ms := Some 60000 |}.
Proof. vm_compute. repeat split. Qed.

(** The conversion truncates the product computed in binary64, not the
    decimal value: 1.001 s is 1000 ms. *)
Example header_ms_truncates :
  header_ms "1.001" = Ok 1000 /\ header_ms "0.0015" = Ok 1
  /\ header_ms "-1.5" = Ok (-1500).
Proof. vm_compute. repeat split. Qed.

(** C2.  A header that denotes an infinity parses as a float, but [int]
    raises OverflowError on it, which [suppress(ValueError, TypeError)] lets
    through: the call raises instead of falling back to 60000 ms. *)
Theorem get_retry_hint_infinite_header_raises :
  float_of_string "inf" = Ok (S754_infinity false)
  /\ get_retry_hint throttling (Some "inf") = Raise OverflowError
  /\ get_retry_hint throttling (Some "1e400") = Raise OverflowError
  /\ get_retry_hint authorization (Some "-Infinity") = Raise OverflowError.
Proof. vm_compute. repeat split. Qed.

(** [float] raises ValueError only, [int] of a float OverflowError or
    ValueError. *)
Lemma float_of_string_raises (h : string) (e : exn) :
  float_of_string h = Raise e -> e = ValueError.
Proof.
  unfold float_of_string.
  destruct (drop_underscores None (list_ascii_of_string h));
    [| congruence].
  destruct (take_sign _) as [neg body].
  destruct (parse_decimal neg body); [discriminate |].
  destruct (parse_inf_nan neg body); [discriminate | congruence].
Qed.

Lemma int_of_float_raises (x : spec_float) (e : exn) :
  int_of_float x = Raise e ->
  (e = OverflowError /\ exists s, x = S754_infinity s)
  \/ (e = ValueError /\ x = S754_nan).
Proof.
  destruct x as [s | s | | s m ex]; simpl; try discriminate.
  - intros [= <-]. left. eauto.
  - intros [= <-]. right. eauto.
Qed.

(** The header block raises nothing else: OverflowError is the only
    exception that [get_retry_hint] can end with. *)
Lemma get_retry_hint_raises_only_overflow (category : ErrorCategory)
    (retry_after_header : option string) (e : exn) :
  get_retry_hint category retry_after_header = Raise e -> e = OverflowError.
Proof.
  unfold get_retry_hint, parsed_header.
  destruct retry_after_header as [h |]; [| discriminate].
  unfold header_ms.
  destruct (float_of_string h) as [x | e'] eqn:Hf; simpl.
  - destruct (int_of_float _) as [n | e'] eqn:Hi; simpl; [discriminate |].
    apply int_of_float_raises in Hi as [[-> _] | [-> _]]; simpl;
      congruence.
  - apply float_of_string_raises in Hf as ->. discriminate.
Qed.

(** What the header block yields: nothing without a header or for a header
    that [float] or [int] rejects with ValueError, else the milliseconds. *)
Lemma parsed_header_cases (h : string) :
  parsed_header None = Ok None
  /\ (forall ms, header_ms h = Ok ms -> parsed_header (Some h) = Ok (Some ms))
  /\ (header_ms h = Raise ValueError -> parsed_header (Some h) = Ok None)
  /\ (header_ms h = Raise OverflowError ->
      parsed_header (Some h) = Raise OverflowError).
Proof.
  unfold parsed_header. repeat split.
  - intros ms ->. reflexivity.
  - intros ->. reflexivity.
  - intros ->. reflexivity.
Qed.

(** C7, as stated, fails: a category whose action is not [retry_after]
    still carries the milliseconds of a header that parses. *)
Lemma retry_after_ms_set_for_other_action :
  _CATEGORY_RETRY authorization <> retry_after
  /\ get_retry_hint authorization (Some "10") =
       Ok {| action := refresh_token; retry_after_ms := Some 10000 |}.
Proof. split; [discriminate | vm_compute; reflexivity]. Qed.

(** C7, amended.  When the header block yields [parsed] (the milliseconds
    of a header that parses, nothing for no header or an unparsable one),
    the hint has the tabulated action; under [retry_after] it always has a
    delay, 60000 ms by default; under any other action its delay is
    [parsed], so it is absent exactly when nothing was parsed. *)
Theorem get_retry_hint_delay (category : ErrorCategory)
    (retry_after_header : option string) (parsed : option Z) :
  parsed_header retry_after_header = Ok parsed ->
  get_retry_hint category retry_after_header =
    Ok {| action := _CATEGORY_RETRY category;
          retry_after_ms :=
            if decide (_CATEGORY_RETRY category = retry_after)
            then Some (default 60000 parsed)
            else parsed |}.
Proof.
  intros Hparsed. unfold get_retry_hint. rewrite Hparsed. simpl.
  destruct (decide (_CATEGORY_RETRY category = retry_after)) as [Heq | Hne].
  - rewrite Heq. destruct parsed; reflexivity.
  - rewrite bool_decide_eq_false_2 by exact Hne. reflexivity.
Qed.

Lemma get_retry_hint_delay_witness :
  get_retry_hint authorization (Some "10") =
    Ok {| action := refresh_token; retry_after_ms := Some 10000 |}
  /\ get_retry_hint server (Some "soon") =
       Ok {| action := retry; retry_after_ms := None |}
  /\ get_retry_hint throttling (Some "soon") =
       Ok {| action := retry_after; retry_after_ms := Some 60000 |}.
Proof.
  split; [| split].
  - apply (get_retry_hint_delay authorization (Some "10") (Some 10000)).
    vm_compute. reflexivity.
  - apply (get_retry_hint_delay server (Some "soon") None).
    vm_compute. reflexivity.
  - apply (get_retry_hint_delay throttling (Some "soon") None).
    vm_compute. reflexivity.
Defined.

End RetryProperties.

(** ** Case converter *)

Section CaseProperties.
Import Case Spec.

(** Facts about single characters, by inspection of the 256 of them. *)
Ltac by_ascii c := destruct c as [[] [] [] [] [] [] [] []]; vm_compute; congruence.

Lemma is_upper_lower_ascii (c : ascii) : is_upper (lower_ascii c) = false.
Proof. by_ascii c. Qed.

Lemma lower_ascii_not_upper (c : ascii) :
  is_upper c = false -> lower_ascii c = c.
Proof. by_ascii c. Qed.

Lemma upper_ascii_not_underscore (c : ascii) :
  is_lower_alnum c = true -> upper_ascii c <> "_"%char.
Proof. by_ascii c. Qed.

Lemma is_lower_alnum_upper_ascii (c : ascii) :
  is_lower_alnum c = true -> is_lower_alnum (upper_ascii c) = is_digit c.
Proof. by_ascii c. Qed.

Lemma underscore_not_lower_alnum : is_lower_alnum "_" = false.
Proof. reflexivity. Qed.

(** The examples of the specification and of the test suite. *)
Example case_examples :
  to_camel "phone_number_id" = "phoneNumberId"
  /\ to_snake "phoneNumberId" = "phone_number_id"
  /\ to_snake "URL" = "url"
  /\ to_camel "_private" = "Private"
  /\ to_camel "error_code_2" = "errorCode2"
  /\ to_snake "errorCode2" = "error_code2"
  /\ to_snake (to_camel "phone_number_id") = "phone_number_id".
Proof. repeat split. Qed.

Lemma has_upper_lower (s : string) : has_upper (lower s) = false.
Proof.
  induction s as [| c s IH]; simpl; [reflexivity |].
  rewrite is_upper_lower_ascii, IH. reflexivity.
Qed.

Lemma lower_no_upper (s : string) : has_upper s = false -> lower s = s.
Proof.
  induction s as [| c s IH]; simpl; [reflexivity |].
  intros [Hc Hs]%orb_false_elim.
  rewrite lower_ascii_not_upper, IH by assumption. reflexivity.
Qed.

Lemma snake_sub_no_upper (prev : option ascii) (s : string) :
  has_upper s = false -> snake_sub prev s = s.
Proof.
  revert prev. induction s as [| c s IH]; simpl; intros prev; [reflexivity |].
  intros [Hc Hs]%orb_false_elim.
  rewrite Hc, IH by assumption. reflexivity.
Qed.

Lemma to_snake_no_upper (s : string) : has_upper s = false -> to_snake s = s.
Proof.
  intros H. unfold to_snake.
  rewrite snake_sub_no_upper, lower_no_upper by assumption. reflexivity.
Qed.

Lemma to_snake_idempotent (s : string) : to_snake (to_snake s) = to_snake s.
Proof. apply to_snake_no_upper, has_upper_lower. Qed.

(** Both recursive calls of [to_camel] are on a shorter string. *)
Lemma string_length_ind (P : string -> Prop) :
  (forall s, (forall t, (String.length t < String.length s)%nat -> P t) -> P s) ->
  forall s, P s.
Proof.
  intros step s.
  assert (H : forall n t, (String.length t < n)%nat -> P t).
  { induction n as [| n IH]; intros t Hlt; [lia |].
    apply step. intros u Hu. apply IH. lia. }
  apply (H (S (String.length s))). lia.
Qed.

Lemma to_camel_no_match (s : string) : camel_match s = false -> to_camel s = s.
Proof.
  induction s as [| a t IH]; [reflexivity |].
  simpl. intros [Hhead Htail]%orb_false_elim.
  destruct t as [| c s']; [reflexivity |].
  rewrite Hhead. rewrite IH by assumption. reflexivity.
Qed.

Lemma underscores_digit_tail (a : ascii) (t : string) :
  underscores_digit (String a t) = false -> underscores_digit t = false.
Proof. simpl. intros [_ H]%orb_false_elim. exact H. Qed.

Lemma to_camel_clean (s : string) :
  underscores_digit s = false -> camel_match (to_camel s) = false.
Proof.
  induction s as [s IH] using string_length_ind. intros Hs.
  destruct s as [| a [| c s']]; [reflexivity | reflexivity |].
  change (to_camel (String a (String c s'))) with
    (if bool_decide (a = "_"%char) && is_lower_alnum c
     then String (upper_ascii c) (to_camel s')
     else String a (to_camel (String c s'))).
  pose proof (underscores_digit_tail _ _ Hs) as Ht.
  destruct (bool_decide (a = "_"%char) && is_lower_alnum c) eqn:Hm.
  - apply andb_prop in Hm as [_ Hc].
    assert (Hs' : camel_match (to_camel s') = false).
    { apply IH; [simpl; lia | exact (underscores_digit_tail _ _ Ht)]. }
    simpl. rewrite Hs'.
    rewrite bool_decide_eq_false_2 by (apply upper_ascii_not_underscore, Hc).
    destruct (to_camel s'); reflexivity.
  - assert (Hrec : camel_match (to_camel (String c s')) = false).
    { apply IH; [simpl; lia | exact Ht]. }
    change (camel_match (String a ?r)) with
      (match r with
       | String c0 _ => bool_decide (a = "_"%char) && is_lower_alnum c0
       | EmptyString => false
       end || camel_match r).
    rewrite Hrec, orb_false_r.
    destruct (bool_decide_reflect (a = "_"%char)) as [-> | Ha];
      [| destruct (to_camel _); reflexivity].
    simpl in Hm.
    destruct s' as [| c2 s''].
    + simpl. exact Hm.
    + change (to_camel (String c (String c2 s''))) with
        (if bool_decide (c = "_"%char) && is_lower_alnum c2
         then String (upper_ascii c2) (to_camel s'')
         else String c (to_camel (String c2 s''))).
      destruct (bool_decide (c = "_"%char) && is_lower_alnum c2) eqn:Hm2;
        [| simpl; exact Hm].
      apply andb_prop in Hm2 as [Hc%bool_decide_eq_true Hc2]. subst c.
      simpl. rewrite is_lower_alnum_upper_ascii by exact Hc2.
      simpl in Hs. apply orb_false_elim in Hs as [Hs _].
      exact Hs.
Qed.


Lemma underscores_digit_cons (a : ascii) (t : string) :
  underscores_digit (String a t) =
    match t with
    | String b (String c _) =>
        bool_decide (a = "_"%char) && bool_decide (b = "_"%char) && is_digit c
    | _ => false
    end || underscores_digit t.
Proof. reflexivity. Qed.

Lemma to_camel_dirty (s : string) :
  underscores_digit s = true -> camel_match (to_camel s) = true.
Proof.
  induction s as [s IH] using string_length_ind. intros Hs.
  destruct s as [| a [| c s']]; [discriminate | discriminate |].
  change (to_camel (String a (String c s'))) with
    (if bool_decide (a = "_"%char) && is_lower_alnum c
     then String (upper_ascii c) (to_camel s')
     else String a (to_camel (String c s'))).
  assert (Htail : forall x r, camel_match r = true ->
                              camel_match (String x r) = true).
  { intros x r Hr. simpl. rewrite Hr. apply orb_true_r. }
  destruct (bool_decide (a = "_"%char) && is_lower_alnum c) eqn:Hm.
  - apply andb_prop in Hm as [_ Hc].
    assert (Hc_ : bool_decide (c = "_"%char) = false).
    { apply bool_decide_eq_false_2. intros ->. discriminate Hc. }
    apply Htail, IH; [simpl; lia |].
    rewrite 2!underscores_digit_cons, Hc_ in Hs.
    destruct s' as [| d [| e s'']];
      rewrite ?andb_false_r, ?andb_false_l, ?orb_false_l in Hs;
      [discriminate | exact Hs | exact Hs].
  - destruct (underscores_digit (String c s')) eqn:Ht.
    + apply Htail, IH; [simpl; lia | exact Ht].
    + rewrite underscores_digit_cons, Ht, orb_false_r in Hs.
      destruct s' as [| d s'']; [discriminate |].
      apply andb_prop in Hs as [[Ha%bool_decide_eq_true Hc%bool_decide_eq_true]%andb_prop Hd].
      subst a c.
      assert (Hd' : is_lower_alnum d = true).
      { unfold is_lower_alnum. rewrite Hd. apply orb_true_r. }
      change (to_camel (String "_" (String d s''))) with
        (if bool_decide ("_"%char = "_"%char) && is_lower_alnum d
         then String (upper_ascii d) (to_camel s'')
         else String "_" (to_camel (String d s''))).
      rewrite Hd'. simpl.
      rewrite is_lower_alnum_upper_ascii, Hd by exact Hd'. reflexivity.
Qed.

Lemma to_camel_length (s : string) :
  (String.length (to_camel s) <= String.length s)%nat
  /\ (camel_match s = true ->
      (String.length (to_camel s) < String.length s)%nat).
Proof.
  induction s as [s IH] using string_length_ind.
  destruct s as [| a [| c s']]; [simpl; split; [lia | discriminate] .. |].
  change (to_camel (String a (String c s'))) with
    (if bool_decide (a = "_"%char) && is_lower_alnum c
     then String (upper_ascii c) (to_camel s')
     else String a (to_camel (String c s'))).
  change (camel_match (String a (String c s'))) with
    (bool_decide (a = "_"%char) && is_lower_alnum c
     || camel_match (String c s')).
  destruct (bool_decide (a = "_"%char) && is_lower_alnum c).
  - destruct (IH s') as [Hle _]; [simpl; lia |].
    simpl. split; intros; lia.
  - destruct (IH (String c s')) as [Hle Hlt]; [simpl; lia |].
    simpl in *. split; [lia |]. intros H. specialize (Hlt H). lia.
Qed.

Lemma to_camel_match_changes (s : string) :
  camel_match s = true -> to_camel s <> s.
Proof.
  intros H Heq. destruct (to_camel_length s) as [_ Hlt].
  specialize (Hlt H). rewrite Heq in Hlt. lia.
Qed.

(** C10, as stated, fails: the digit that follows two underscores is
    joined to the first underscore only by a second pass. *)
Lemma to_camel_not_idempotent :
  to_camel "__1" = "_1" /\ to_camel (to_camel "__1") = "1"
  /\ to_camel (to_camel "__1") <> to_camel "__1".
Proof. repeat split. discriminate. Qed.

(** C10, amended.  [to_snake] is idempotent on every string and [to_camel]
    on exactly the strings without two underscores before a digit; a string
    without capital is left as it is by [to_snake], and one without an
    underscore before a lower-case letter or digit by [to_camel]. *)
Theorem case_idempotence (s : string) :
  to_snake (to_snake s) = to_snake s
  /\ (to_camel (to_camel s) = to_camel s <-> underscores_digit s = false)
  /\ (has_upper s = false -> to_snake s = s)
  /\ (camel_match s = false -> to_camel s = s).
Proof.
  split; [apply to_snake_idempotent |].
  split; [| split; [apply to_snake_no_upper | apply to_camel_no_match]].
  split.
  - intros Hidem. destruct (underscores_digit s) eqn:Hs; [| reflexivity].
    exfalso. exact (to_camel_match_changes _ (to_camel_dirty s Hs) Hidem).
  - intros Hs. apply to_camel_no_match, to_camel_clean, Hs.
Qed.

Lemma case_idempotence_witness :
  to_snake "phone_number_id" = "phone_number_id"
  /\ to_camel "phoneNumberId" = "phoneNumberId"
  /\ to_camel (to_camel "a__b_1") = to_camel "a__b_1".
Proof.
  split; [| split].
  - apply (case_idempotence "phone_number_id"). reflexivity.
  - apply (case_idempotence "phoneNumberId"). reflexivity.
  - apply (case_idempotence "a__b_1"). reflexivity.
Defined.

End CaseProperties.

(** ** Deep case conversion *)

Section DeepProperties.
Import Case Spec.

Lemma forallb_Forall {A} (g : A -> bool) (l : list A) :
  forallb g l = true <-> Forall (fun x => g x = true) l.
Proof.
  induction l as [| x l IH]; simpl.
  - split; [constructor | reflexivity].
  - rewrite andb_true_iff, IH. split.
    + intros [Hx Hl]. constructor; assumption.
    + inversion 1; subst. auto.
Qed.

Lemma Forall_mp {A} (P Q : A -> Prop) (l : list A) :
  Forall (fun x => P x -> Q x) l -> Forall P l -> Forall Q l.
Proof.
  induction 1 as [| x l Hx _ IH]; inversion 1; subst; constructor; auto.
Qed.

Lemma mapM_total {A B} (f : A -> result B) (Q : B -> Prop) (l : list A) :
  Forall (fun x => exists y, f x = Ok y /\ Q y) l ->
  exists l', mapM f l = Ok l' /\ length l' = length l /\ Forall Q l'.
Proof.
  induction 1 as [| x l (y & Hy & Qy) _ (l' & Hl' & Hlen & HQ)]; simpl.
  - exists []. auto.
  - rewrite Hy. simpl. rewrite Hl'. simpl.
    exists (y :: l'). simpl. auto.
Qed.

Lemma dict_set_str_items (d : dict) (k : key) (v : value) :
  forallb str_item d = true -> str_item (k, v) = true ->
  forallb str_item (dict_set d k v) = true.
Proof.
  intros Hd Hkv. induction d as [| [k' v'] d IH]; simpl.
  - rewrite Hkv. reflexivity.
  - simpl in Hd. apply andb_prop in Hd as [Hhd Htl].
    destruct (decide (k' = k)); simpl.
    + rewrite Hkv, Htl. reflexivity.
    + rewrite Hhd, IH by exact Htl. reflexivity.
Qed.

Lemma dict_set_keys (d : dict) (k : key) (v : value) (k' : key) :
  k' ∈ keys (dict_set d k v) <-> k' = k \/ k' ∈ keys d.
Proof.
  unfold keys. induction d as [| [k0 v0] d IH]; simpl.
  - rewrite list_elem_of_singleton, elem_of_nil. tauto.
  - destruct (decide (k0 = k)) as [-> | Hne]; simpl.
    + rewrite !elem_of_cons. tauto.
    + rewrite !elem_of_cons, IH. tauto.
Qed.

Lemma convert_items_total (f : string -> string)
    (deep : value -> result value) (d acc : dict) :
  Forall (fun kv => is_str_key (fst kv) = true
                    /\ exists y, deep (snd kv) = Ok y
                                 /\ str_keys_deep y = true) d ->
  forallb str_item acc = true ->
  exists d',
    foldM (fun acc kv =>
             k' ← convert_key f (fst kv);
             v' ← deep (snd kv);
             Ok (dict_set acc k' v')) d acc = Ok d'
    /\ forallb str_item d' = true
    /\ forall k', k' ∈ keys d' <->
                  k' ∈ keys acc
                  \/ exists s, KStr s ∈ keys d /\ k' = KStr (f s).
Proof.
  intros Hd. revert acc.
  induction Hd as [| [k v] d (Hk & y & Hy & Hstr) _ IH]; intros acc Hacc.
  - exists acc. repeat split; [exact Hacc | |].
    + intros Hin. left. exact Hin.
    + intros [Hin | (s & Hs & _)]; [exact Hin |].
      unfold keys in Hs. simpl in Hs. apply elem_of_nil in Hs as [].
  - destruct k as [s | | |]; try discriminate.
    simpl in *. rewrite Hy. simpl.
    destruct (IH (dict_set acc (KStr (f s)) y)) as (d' & Hd' & Hitems & Hkeys).
    { apply dict_set_str_items; [exact Hacc |].
      unfold str_item. simpl. exact Hstr. }
    exists d'. repeat split; [exact Hd' | exact Hitems | |].
    + intros Hin. apply Hkeys in Hin as [Hin | (s' & Hs' & ->)].
      * apply dict_set_keys in Hin as [-> | Hin]; [right | left; exact Hin].
        exists s. split; [apply list_elem_of_here | reflexivity].
      * right. exists s'. split; [apply list_elem_of_further, Hs' | reflexivity].
    + intros Hin. apply Hkeys. rewrite dict_set_keys.
      destruct Hin as [Hin | (s' & Hs' & ->)]; [left; right; exact Hin |].
      apply elem_of_cons in Hs' as [[= ->] | Hs'].
      * left. left. reflexivity.
      * right. exists s'. split; [exact Hs' | reflexivity].
Qed.

Lemma deep_total (f : string -> string) (deep : value -> result value) :
  (forall v, deep v =
     match v with
     | VList l => VList <$> mapM deep l
     | VDict d => VDict <$> convert_items f deep d
     | _ => Ok v
     end) ->
  forall v, str_keys_deep v = true ->
    exists w, deep v = Ok w /\ same_kind f v w /\ str_keys_deep w = true.
Proof.
  intros Hdeep v.
  induction v as [| b | z | x | s | l IH | d IH] using value_ind;
    intros Hv; rewrite Hdeep; try (eexists; repeat split; reflexivity).
  - destruct (mapM_total deep (fun y => str_keys_deep y = true) l)
      as (l' & Hl' & Hlen & HQ).
    { simpl in Hv. apply forallb_Forall in Hv.
      refine (Forall_mp _ _ _ _ Hv).
      refine (Forall_impl _ _ _ IH _). intros x Hx Hstr.
      destruct (Hx Hstr) as (w & Hw & _ & Hs). eauto. }
    rewrite Hl'. exists (VList l'). simpl.
    repeat split; [congruence |].
    apply forallb_Forall, HQ.
  - destruct (convert_items_total f deep d []) as (d' & Hd' & Hs & Hkeys).
    { simpl in Hv. apply forallb_Forall in Hv.
      refine (Forall_mp _ _ _ _ Hv).
      refine (Forall_impl _ _ _ IH _). intros kv Hkv Hitem.
      apply andb_prop in Hitem as [Hk Hval].
      split; [exact Hk |].
      destruct (Hkv Hval) as (w & Hw & _ & Hws). eauto. }
    { reflexivity. }
    unfold convert_items. rewrite Hd'. exists (VDict d').
    split; [reflexivity |]. split; [| exact Hs].
    intros k'. rewrite Hkeys. unfold keys at 1. simpl.
    rewrite elem_of_nil. tauto.
Qed.

End DeepProperties.

(** ** API error construction *)

Section GraphApiErrorProperties.
Import Categorize Retry GraphApiError.

(** C6, as stated, fails: an [error_user_msg] that is the empty string is
    not null, yet [details] is taken from the body's [details]. *)
Lemma details_skips_empty_error_user_msg :
  exists e,
    from_response 400
      [(KStr "error",
        VDict [(KStr "message", VStr "Error");
               (KStr "error_user_msg", VStr "");
               (KStr "details", VStr "Technical details")])] None = Ok e
    /\ details e = VStr "Technical details"
    /\ details e <> VStr "".
Proof. eexists. repeat split. discriminate. Qed.

(** C6, amended.  [err] is the map under ["error"], or the body itself
    without that key.  When the code is hashable and the retry header does
    not overflow, [from_response] returns the error whose [details] is the
    [error_user_msg] of [err] if that is truthy (neither null nor empty),
    and the [details] of [err] otherwise; the other fields are read from
    [err] with their defaults. *)
Theorem from_response_details (http_status : Z) (body err : dict)
    (retry_after_header : option string) (c : option Z) (r : RetryHint) :
  get body "error" (VDict body) = VDict err ->
  code_arg (get err "code" VNone) = Ok c ->
  get_retry_hint (categorize_error c (Some http_status)) retry_after_header
    = Ok r ->
  exists e,
    from_response http_status body retry_after_header = Ok e
    /\ details e =
         (if truthy (get err "error_user_msg" VNone)
          then get err "error_user_msg" VNone
          else get err "details" VNone)
    /\ message e = get err "message" (VStr "Unknown Graph API error")
    /\ code e = get err "code" VNone
    /\ type e = get err "type" (VStr "")
    /\ category e = categorize_error c (Some http_status)
    /\ retry e = r
    /\ raw e = VDict body.
Proof.
  intros Herr Hcode Hretry. unfold from_response. rewrite Herr. simpl.
  destruct (truthy (get err "error_user_msg" VNone)); simpl;
    unfold init; rewrite Hcode; simpl; rewrite Hretry; simpl;
    eexists; repeat split.
Qed.

Lemma from_response_details_witness :
  exists e,
    from_response 400
      [(KStr "error",
        VDict [(KStr "message", VStr "Error");
               (KStr "error_user_msg", VStr "User-facing message");
               (KStr "details", VStr "Technical details")])] None = Ok e
    /\ details e = VStr "User-facing message".
Proof.
  destruct (from_response_details 400
              [(KStr "error",
                VDict [(KStr "message", VStr "Error");
                       (KStr "error_user_msg", VStr "User-facing message");
                       (KStr "details", VStr "Technical details")])]
              [(KStr "message", VStr "Error");
               (KStr "error_user_msg", VStr "User-facing message");
               (KStr "details", VStr "Technical details")]
              None None {| action := Retry.retry; retry_after_ms := None |})
    as (e & He & Hd & _); [reflexivity .. |].
  exists e. split; [exact He | exact Hd].
Defined.

(** The example of the specification. *)
Example from_response_invalid_token :
  exists e,
    from_response 401
      [(KStr "error",
        VDict [(KStr "message", VStr "Invalid token");
               (KStr "code", VInt 190)])] None = Ok e
    /\ category e = authorization
    /\ action (retry e) = refresh_token
    /\ is_auth_error e = true /\ requires_token_refresh e = true.
Proof. eexists. repeat split. Qed.

(** The OverflowError of an infinite [retry-after] header escapes from
    [from_response] too: no [GraphApiError] is built. *)
Example from_response_infinite_header :
  from_response 429
    [(KStr "error",
      VDict [(KStr "message", VStr "Throttled"); (KStr "code", VInt 4)])]
    (Some "inf") = Raise OverflowError.
Proof. vm_compute. reflexivity. Qed.

End GraphApiErrorProperties.

(** ** Transport headers *)

Section ClientProperties.
Import Client.

(** C5, as stated, fails: an [Authorization] entry of the caller replaces
    the bearer token. *)
Lemma caller_overrides_authorization :
  merged_headers
    {| _access_token := "secret-tok"; _base_url := "https://graph.facebook.com";
       _version := "v23.0" |}
    (Some {[ "Authorization" := "Basic Zm9v" ]}) !! "Authorization"
  = Some "Basic Zm9v"
  /\ merged_headers
       {| _access_token := "secret-tok";
          _base_url := "https://graph.facebook.com"; _version := "v23.0" |}
       (Some {[ "Authorization" := "Basic Zm9v" ]}) !! "Authorization"
     <> Some "Bearer secret-tok".
Proof. split; [reflexivity | discriminate]. Qed.

(** C5, amended.  The merged map always has an [Authorization] entry; every
    header of the caller is in it with the caller's value, [Authorization]
    included; the bearer token is the value of [Authorization] exactly when
    the caller gives none, and no other key is added. *)
Theorem merged_headers_caller_wins (self : WhatsAppClient)
    (headers : option (gmap string string)) :
  is_Some (merged_headers self headers !! "Authorization")
  /\ (forall k v, default ∅ headers !! k = Some v ->
        merged_headers self headers !! k = Some v)
  /\ (default ∅ headers !! "Authorization" = None ->
        merged_headers self headers !! "Authorization"
        = Some ("Bearer " +:+ _access_token self))
  /\ (forall k, k <> "Authorization" ->
        merged_headers self headers !! k = default ∅ headers !! k).
Proof.
  unfold merged_headers, _auth_headers.
  set (caller := default ∅ headers). repeat split.
  - destruct (caller !! "Authorization") as [v |] eqn:Hc.
    + exists v. apply lookup_union_Some_l, Hc.
    + eexists. rewrite lookup_union_r by exact Hc.
      apply lookup_singleton_eq.
  - intros k v Hk. apply lookup_union_Some_l, Hk.
  - intros Hc. rewrite lookup_union_r by exact Hc.
    apply lookup_singleton_eq.
  - intros k Hk. destruct (caller !! k) as [v |] eqn:Hc.
    + apply lookup_union_Some_l, Hc.
    + rewrite lookup_union_r by exact Hc.
      apply lookup_singleton_ne. congruence.
Qed.

Lemma merged_headers_caller_wins_witness :
  merged_headers
    {| _access_token := "my-token"; _base_url := "https://graph.facebook.com";
       _version := "v23.0" |}
    (Some {[ "Accept" := "application/json" ]}) !! "Authorization"
  = Some "Bearer my-token".
Proof.
  apply (merged_headers_caller_wins
           {| _access_token := "my-token";
              _base_url := "https://graph.facebook.com";
              _version := "v23.0" |}
           (Some {[ "Accept" := "application/json" ]})).
  reflexivity.
Defined.

End ClientProperties.

(** ** Webhook normaliser *)

Section NormalizeProperties.
Import Types Normalize Spec.

Lemma foldM_app {A S} (f : S -> A -> result S) (xs ys : list A) (st : S) :
  foldM f (xs ++ ys)%list st = foldM f xs st ≫= foldM f ys.
Proof.
  revert st. induction xs as [| x xs IH]; intros st; simpl; [reflexivity |].
  destruct (f st x) as [st' | e]; simpl; [apply IH | reflexivity].
Qed.

(** A loop whose body keeps a projection of the state keeps it. *)
Lemma foldM_keeps {A S T} (f : S -> A -> result S) (proj : S -> T) :
  (forall st x st', f st x = Ok st' -> proj st' = proj st) ->
  forall xs st st', foldM f xs st = Ok st' -> proj st' = proj st.
Proof.
  intros Hf. induction xs as [| x xs IH]; intros st st'; simpl.
  - intros [= <-]. reflexivity.
  - destruct (f st x) as [st1 | e] eqn:Hx; simpl; [| discriminate].
    intros Hrest. rewrite (IH _ _ Hrest). exact (Hf _ _ _ Hx).
Qed.

Lemma add_contact_held st c st' : add_contact st c = Ok st' -> held st' = held st.
Proof.
  unfold add_contact. destruct (Case.to_snake_deep c); simpl; [| discriminate].
  intros [= <-]. reflexivity.
Qed.

Lemma add_message_held st m st' : add_message st m = Ok st' -> held st' = held st.
Proof.
  unfold add_message.
  destruct (Case.to_snake_deep m) as [n |]; simpl; [| discriminate].
  destruct (contains_from n) as [b |]; simpl; [| discriminate].
  destruct (if b then rename_from n else Ok n) as [n' |]; simpl;
    [| discriminate].
  destruct (WebhookMessage.model_validate n'); simpl; [| discriminate].
  intros [= <-]. reflexivity.
Qed.

Lemma add_status_held st s st' : add_status st s = Ok st' -> held st' = held st.
Proof.
  unfold add_status.
  destruct (Case.to_snake_deep s) as [n |]; simpl; [| discriminate].
  destruct (MessageStatusUpdate.model_validate n); simpl; [| discriminate].
  intros [= <-]. reflexivity.
Qed.

(** One change: the pair held is replaced by the pair the change offers
    when the [phone_number_id] held is absent or empty, and kept otherwise. *)
Lemma do_change_held (st : locals) (change : value) (st' : locals) :
  do_change st change = Ok st' ->
  held st' =
    if truthy (phone_number_id st) then held st
    else default (held st) (change_metadata change).
Proof.
  unfold do_change, change_metadata.
  destruct (attr_get change "value" (VDict [])) as [value |]; simpl;
    [| discriminate].
  destruct (attr_get change "field" (VStr "")) as [field |]; simpl;
    [| discriminate].
  destruct (eq_str field "messages"); simpl.
  - destruct (attr_get value "metadata" (VDict [])) as [metadata |]; simpl;
      [| discriminate].
    intros Hrest.
    assert (Htake : exists st1, take_metadata st metadata = Ok st1
              /\ held st' = held st1) .
    { destruct (take_metadata st metadata) as [st1 |]; simpl in Hrest;
        [| discriminate].
      exists st1. split; [reflexivity |].
      destruct (attr_get value "contacts" (VList []) ≫= iter) as [cs |];
        simpl in Hrest; [| discriminate].
      destruct (foldM add_contact cs st1) as [st2 |] eqn:H2;
        simpl in Hrest; [| discriminate].
      destruct (attr_get value "messages" (VList []) ≫= iter) as [ms |];
        simpl in Hrest; [| discriminate].
      destruct (foldM add_message ms st2) as [st3 |] eqn:H3;
        simpl in Hrest; [| discriminate].
      destruct (attr_get value "statuses" (VList []) ≫= iter) as [ss |];
        simpl in Hrest; [| discriminate].
      rewrite (foldM_keeps _ held add_status_held _ _ _ Hrest).
      rewrite (foldM_keeps _ held add_message_held _ _ _ H3).
      exact (foldM_keeps _ held add_contact_held _ _ _ H2). }
    destruct Htake as (st1 & Htake & ->).
    unfold take_metadata in Htake.
    destruct (truthy (phone_number_id st)); [congruence |].
    destruct metadata; try discriminate. simpl in Htake.
    injection Htake as <-. reflexivity.
  - destruct (as_key field); simpl; [| discriminate].
    destruct (Case.to_snake_deep value); simpl; [| discriminate].
    intros [= <-]. destruct (truthy _); reflexivity.
Qed.

(** Once a [phone_number_id] is held, no later change replaces the pair. *)
Lemma changes_keep_held (changes : list value) (st st' : locals) :
  truthy (phone_number_id st) = true ->
  foldM do_change changes st = Ok st' -> held st' = held st.
Proof.
  revert st. induction changes as [| c changes IH]; intros st Hid; simpl.
  - intros [= <-]. reflexivity.
  - destruct (do_change st c) as [st1 |] eqn:Hc; simpl; [| discriminate].
    apply do_change_held in Hc. rewrite Hid in Hc.
    intros Hrest. rewrite (IH st1), Hc; [reflexivity | | exact Hrest].
    injection Hc as -> _. exact Hid.
Qed.

(** Changes that offer no [phone_number_id] leave none held. *)
Lemma changes_without_id (changes : list value) (st st' : locals) :
  truthy (phone_number_id st) = false ->
  Forall (fun c => offers_id c = false) changes ->
  foldM do_change changes st = Ok st' ->
  truthy (phone_number_id st') = false.
Proof.
  intros Hid Hnone. revert st Hid.
  induction Hnone as [| c changes Hc _ IH]; intros st Hid; simpl.
  - intros [= <-]. exact Hid.
  - destruct (do_change st c) as [st1 |] eqn:H1; simpl; [| discriminate].
    apply IH. apply do_change_held in H1. rewrite Hid in H1.
    unfold offers_id in Hc.
    destruct (change_metadata c) as [[pid dpn] |]; simpl in H1;
      injection H1 as -> _; assumption.
Qed.

Lemma foldM_cons {A S} (f : S -> A -> result S) (x : A) (xs : list A)
    (st : S) :
  foldM f (x :: xs) st = f st x ≫= foldM f xs.
Proof. reflexivity. Qed.

Lemma do_entry_changes (st : locals) (entry : value) :
  do_entry st entry =
    entry_changes entry ≫= fun changes => foldM do_change changes st.
Proof. reflexivity. Qed.


Lemma optional_as_str (v : value) (o : option string) :
  Types.optional as_str v = Ok o -> from_option VStr VNone o = v.
Proof.
  destruct v; simpl; try discriminate; intros [= <-]; reflexivity.
Qed.

(** Anything but a map normalises to the empty webhook; the key ["from"] of
    a message is read as [from_], and a change of another field goes to
    [raw] under its field. *)
Example normalize_webhook_examples :
  normalize_webhook (VStr "not a dict") = Ok NormalizedWebhook.empty
  /\ normalize_webhook VNone = Ok NormalizedWebhook.empty
  /\ normalize_webhook (VList []) = Ok NormalizedWebhook.empty
  /\ exists w m,
       normalize_webhook
         (VDict (one_entry
            [VDict [(KStr "field", VStr "messages");
                    (KStr "value",
                      VDict [(KStr "messages",
                               VList [VDict [(KStr "id", VStr "wamid.1");
                                             (KStr "type", VStr "text");
                                             (KStr "timestamp", VStr "1");
                                             (KStr "from", VStr "5511")]])])];
             alerts_change])) = Ok w
       /\ NormalizedWebhook.messages w = [m]
       /\ WebhookMessage.from_ m = Some "5511"
       /\ NormalizedWebhook.raw w
          = [("account_alerts", [[(KStr "alert_type", VStr "x")]])].
Proof. repeat split. do 2 eexists. repeat split. Qed.




End NormalizeProperties.

(** ** Event mapper and dispatcher *)

Section DispatcherProperties.
Import Types Events Dispatcher Spec.

Variable json_loads : string -> result value.
Variable str_of : value -> string.

Abbreviation map_message := (_map_message json_loads str_of).

(** Every message whose type is not ["interactive"] is mapped. *)
Lemma _map_message_total_outside_interactive (msg : WebhookMessage.t)
    (pid : option string) :
  WebhookMessage.type msg <> "interactive" ->
  exists event, map_message msg pid = Ok event.
Proof.
  intros Hty. unfold _map_message.
  repeat case_decide; try contradiction; eexists; reflexivity.
Qed.

(** A type outside the match gives the unknown variant with the type as
    [raw_type] and the dump of the message as [raw_data]. *)
Lemma _map_message_unknown_type (msg : WebhookMessage.t)
    (pid : option string) :
  WebhookMessage.type msg ∉ known_types ->
  map_message msg pid =
    Ok (UnknownMessageReceived (_base_kwargs msg pid)
          (WebhookMessage.type msg) (WebhookMessage.model_dump msg)).
Proof.
  intros Hty. unfold _map_message.
  repeat case_decide; try reflexivity;
    exfalso; apply Hty; unfold known_types; set_solver.
Qed.

(** A type tag without its payload gives the event with default fields. *)
Example _map_message_missing_payload (id timestamp : string)
    (pid : option string) :
  let base ty := _base_kwargs (bare_message id ty timestamp) pid in
  map_message (bare_message id "text" timestamp) pid
    = Ok (TextReceived (base "text") (VStr "") false)
  /\ map_message (bare_message id "image" timestamp) pid
     = Ok (ImageReceived (base "image") (VStr "") (VStr "") (VStr "") VNone)
  /\ map_message (bare_message id "audio" timestamp) pid
     = Ok (AudioReceived (base "audio") (VStr "") (VStr "") (VStr "")
             (VBool false))
  /\ map_message (bare_message id "location" timestamp) pid
     = Ok (LocationReceived (base "location") (VFloat (S754_zero false))
             (VFloat (S754_zero false)) VNone VNone)
  /\ map_message (bare_message id "contacts" timestamp) pid
     = Ok (ContactsReceived (base "contacts") [])
  /\ map_message (bare_message id "order" timestamp) pid
     = Ok (OrderReceived (base "order") (VStr "") (VList []) VNone)
  /\ map_message (bare_message id "interactive" timestamp) pid
     = Ok (UnknownMessageReceived (base "interactive") "interactive:" []).
Proof. repeat split. Qed.

(** C3.  The reply of an interactive message is read with
    [interactive.get("button_reply", {})], which defaults a missing key
    only: under a null (or any value that is not a map) the following
    [reply.get] raises AttributeError, so [_map_message] fails on a
    well-formed [WebhookMessage]. *)
Theorem _map_message_raises_on_null_reply (pid : option string) :
  map_message
    (interactive_message
       [(KStr "type", VStr "button_reply"); (KStr "button_reply", VNone)])
    pid = Raise AttributeError
  /\ map_message
       (interactive_message
          [(KStr "type", VStr "list_reply");
           (KStr "list_reply", VStr "row1")])
       pid = Raise AttributeError
  /\ map_message
       (interactive_message
          [(KStr "type", VStr "nfm_reply"); (KStr "nfm_reply", VList [])])
       pid = Raise AttributeError.
Proof. repeat split. Qed.

(** The failing messages pass validation: they are what
    [WebhookMessage.model_validate] returns on the decoded JSON. *)
Example null_reply_message_is_valid :
  WebhookMessage.model_validate
    (VDict [(KStr "id", VStr "wamid.1"); (KStr "type", VStr "interactive");
            (KStr "timestamp", VStr "1700000000");
            (KStr "from_", VStr "5511999999999");
            (KStr "interactive",
              VDict [(KStr "type", VStr "button_reply");
                     (KStr "button_reply", VNone)])])
  = Ok (interactive_message
          [(KStr "type", VStr "button_reply"); (KStr "button_reply", VNone)]).
Proof. reflexivity. Qed.

(** End to end: the webhook with the null reply is normalised, and its
    dispatch stops with AttributeError before anything is emitted. *)
Example null_reply_end_to_end :
  exists w,
    Normalize.normalize_webhook
      (VDict (one_entry
         [VDict [(KStr "field", VStr "messages");
                 (KStr "value",
                   VDict [(KStr "messages",
                            VList [VDict
                              [(KStr "id", VStr "wamid.1");
                               (KStr "type", VStr "interactive");
                               (KStr "timestamp", VStr "1700000000");
                               (KStr "from", VStr "5511999999999");
                               (KStr "interactive",
                                 VDict [(KStr "type", VStr "button_reply");
                                        (KStr "button_reply", VNone)])]])])]]))
    = Ok w
    /\ dispatch_webhook json_loads str_of w [] = ([], Raise AttributeError).
Proof. eexists. split; reflexivity. Qed.

(** With the reply a map, the three replies are mapped (for [nfm_reply]
    when [json.loads] raises nothing but a decoding error). *)
Lemma _map_interactive_dict_reply (msg : WebhookMessage.t)
    (base : MessageEvent) (interactive reply : dict) (kind : string) :
  WebhookMessage.interactive msg = Some interactive ->
  get interactive "type" (VStr "") = VStr kind ->
  get interactive kind (VDict []) = VDict reply ->
  (forall s e, json_loads s = Raise e ->
               e = JSONDecodeError \/ e = TypeError) ->
  exists event, _map_interactive json_loads str_of msg base = Ok event.
Proof.
  intros Hi Hty Hreply Hloads. unfold _map_interactive.
  rewrite Hi. simpl. rewrite Hty. unfold eq_str.
  case_bool_decide as H1; [subst kind; rewrite Hreply; simpl; eauto |].
  case_bool_decide as H2; [subst kind; rewrite Hreply; simpl; eauto |].
  case_bool_decide as H3; [subst kind; rewrite Hreply; simpl | eauto].
  destruct (get reply "response_json" (VDict [])) as [| | | | s | |];
    simpl; eauto.
  unfold loads_or_empty.
  destruct (json_loads s) as [v | e] eqn:Hs; simpl; [eauto |].
  destruct (Hloads s e Hs) as [-> | ->]; simpl; eauto.
Qed.

Lemma emit_each_ok {A} (f : A -> result WhatsAppEvent) (xs : list A)
    (events emitted : list WhatsAppEvent) :
  mapM f xs = Ok events ->
  emit_each f xs emitted = ((emitted ++ events)%list, Ok tt).
Proof.
  revert events emitted.
  induction xs as [| x xs IH]; intros events emitted; simpl.
  - intros [= <-]. rewrite app_nil_r. reflexivity.
  - destruct (f x) as [event | e]; simpl; [| discriminate].
    destruct (mapM f xs) as [events' | e]; simpl; [| discriminate].
    intros [= <-]. rewrite (IH events' _ eq_refl), <- app_assoc.
    reflexivity.
Qed.

Lemma mapM_pure {A B} (f : A -> B) (xs : list A) :
  mapM (fun x => Ok (f x)) xs = Ok (map f xs).
Proof.
  induction xs as [| x xs IH]; simpl; [reflexivity |].
  rewrite IH. reflexivity.
Qed.

(** C9.  Once the messages of the webhook are mapped, [dispatch_webhook]
    emits, after their events, one event per status update, in order; that
    event is [MessageSent], [MessageDelivered], [MessageRead] or
    [MessageFailed] (with [errors], the empty list by default) for the
    status of that name, and [MessageSent] for every other status. *)
Theorem dispatch_webhook_status_events (webhook : NormalizedWebhook.t)
    (emitted message_events : list WhatsAppEvent) :
  mapM (fun msg =>
          map_message msg (NormalizedWebhook.phone_number_id webhook))
    (NormalizedWebhook.messages webhook) = Ok message_events ->
  dispatch_webhook json_loads str_of webhook emitted =
    ((emitted ++ message_events
        ++ map (status_event (NormalizedWebhook.phone_number_id webhook))
             (NormalizedWebhook.statuses webhook))%list,
     Ok tt)
  /\ forall pid status,
       (MessageStatusUpdate.status status = "sent" ->
        status_event pid status = MessageSent (status_base pid status))
       /\ (MessageStatusUpdate.status status = "delivered" ->
           status_event pid status = MessageDelivered (status_base pid status))
       /\ (MessageStatusUpdate.status status = "read" ->
           status_event pid status = MessageRead (status_base pid status))
       /\ (MessageStatusUpdate.status status = "failed" ->
           status_event pid status =
             MessageFailed (status_base pid status)
               (default [] (MessageStatusUpdate.errors status)))
       /\ (MessageStatusUpdate.status status
             ∉ ["sent"; "delivered"; "read"; "failed"] ->
           status_event pid status = MessageSent (status_base pid status)).
Proof.
  intros Hmsgs. split.
  - unfold dispatch_webhook.
    rewrite (emit_each_ok _ _ _ _ Hmsgs).
    rewrite (emit_each_ok _ _
               (map (status_event (NormalizedWebhook.phone_number_id webhook))
                  (NormalizedWebhook.statuses webhook)))
      by apply mapM_pure.
    rewrite app_assoc. reflexivity.
  - intros pid status. unfold status_event. fold (status_base pid status).
    repeat split; intros Hs.
    + rewrite Hs. reflexivity.
    + rewrite Hs. reflexivity.
    + rewrite Hs. reflexivity.
    + rewrite Hs. reflexivity.
    + repeat case_decide; try reflexivity; exfalso; apply Hs; set_solver.
Qed.

End DispatcherProperties.

Lemma dispatch_webhook_status_events_witness :
  Dispatcher.dispatch_webhook Spec.loads_nothing Spec.str_nothing
    Spec.sample_webhook []
  = ([Events.TextReceived
        (Dispatcher._base_kwargs
           (Spec.bare_message "wamid.1" "text" "1700000000")
           (Some "1234567890"))
        (VStr "") false;
      Dispatcher.status_event (Some "1234567890")
        (Spec.status_update "wamid.2" "sent");
      Dispatcher.status_event (Some "1234567890")
        (Spec.status_update "wamid.3" "pending");
      Dispatcher.status_event (Some "1234567890")
        (Spec.status_update "wamid.4" "failed")],
     Ok tt).
Proof.
  exact (proj1 (dispatch_webhook_status_events Spec.loads_nothing
                  Spec.str_nothing Spec.sample_webhook []
                  [Events.TextReceived
                     (Dispatcher._base_kwargs
                        (Spec.bare_message "wamid.1" "text" "1700000000")
                        (Some "1234567890"))
                     (VStr "") false] eq_refl)).
Defined.

(** The end-to-end example of the specification: a status of ["pending"]
    is dispatched as [MessageSent]. *)
Example pending_dispatches_message_sent :
  exists base,
    Dispatcher.status_event (Some "1234567890")
      (Spec.status_update "wamid.3" "pending") = Events.MessageSent base.
Proof. eexists. reflexivity. Qed.

(** * Further properties *)

(** ** Round trips of the case converter *)

Section CaseRoundTrips.
Import Case Spec KeyShapes.

Ltac by_ascii c :=
  destruct c as [[] [] [] [] [] [] [] []]; vm_compute;
  repeat split; congruence.

Lemma to_camel_cons_match (c : ascii) (s : string) :
  is_lower_alnum c = true ->
  to_camel (String "_" (String c s)) = String (upper_ascii c) (to_camel s).
Proof. intros H. simpl. rewrite H. reflexivity. Qed.

Lemma to_camel_cons_other (a : ascii) (t : string) :
  (a = "_"%char ->
   match t with String c _ => is_lower_alnum c = false | EmptyString => True end) ->
  to_camel (String a t) = String a (to_camel t).
Proof.
  intros H. destruct t as [| c s']; [reflexivity |].
  simpl. destruct (bool_decide_reflect (a = "_"%char)) as [Ha | Ha]; simpl.
  - rewrite (H Ha). reflexivity.
  - reflexivity.
Qed.

Lemma lower_letter_alnum (c : ascii) :
  is_lower_letter c = true -> is_lower_alnum c = true.
Proof. by_ascii c. Qed.

Lemma lower_letter_upper (c : ascii) :
  is_lower_letter c = true ->
  is_upper (upper_ascii c) = true /\ lower_ascii (upper_ascii c) = c
  /\ is_lower_alnum (upper_ascii c) = false.
Proof. by_ascii c. Qed.

Lemma upper_lower_ascii (c : ascii) :
  is_upper c = true ->
  upper_ascii (lower_ascii c) = c /\ is_lower_alnum (lower_ascii c) = true
  /\ c <> "_"%char.
Proof. by_ascii c. Qed.

Lemma not_upper_lower (c : ascii) : is_upper c = false -> lower_ascii c = c.
Proof. by_ascii c. Qed.

Lemma lower_alnum_not_upper (c : ascii) :
  is_lower_alnum c = true -> is_upper c = false /\ c <> "_"%char.
Proof. by_ascii c. Qed.

Lemma snake_wf_cons (prev : option ascii) (after : bool) (c : ascii)
    (t : string) :
  snake_wf prev after (String c t) =
    if bool_decide (c = "_"%char) then
      from_option is_lower_alnum false prev && negb after
      && match t with
         | String x _ => is_lower_letter x
         | EmptyString => false
         end
      && snake_wf (Some c) false t
    else
      negb (is_upper c)
      && snake_wf (Some c) (bool_decide (prev = Some "_"%char)) t.
Proof. reflexivity. Qed.

(** The scan of [to_snake] over [to_camel s]: the character before the rest
    of the output is the one before the rest of [s], or its capital when it
    replaced an underscore and a letter ([after]). *)
Lemma snake_of_camel (s : string) :
  forall (prev : option ascii) (after : bool) (prev' : option ascii),
    snake_wf prev after s = true ->
    prev <> Some "_"%char ->
    (if after then from_option is_lower_alnum false prev' = false
     else prev' = prev) ->
    lower (snake_sub prev' (to_camel s)) = s.
Proof.
  induction s as [s IH] using string_length_ind.
  intros prev after prev' Hwf Hprev Hout.
  destruct s as [| c t]; [reflexivity |].
  rewrite snake_wf_cons in Hwf.
  destruct (bool_decide_reflect (c = "_"%char)) as [-> | Hc].
  - apply andb_prop in Hwf as [Hwf Hrest].
    apply andb_prop in Hwf as [Hwf Hnext].
    apply andb_prop in Hwf as [Hp Ha].
    destruct after; [discriminate |]. subst prev'.
    destruct t as [| x t']; [discriminate |].
    rewrite to_camel_cons_match by (apply lower_letter_alnum, Hnext).
    destruct (lower_letter_upper x Hnext) as (Hup & Hlow & Hnot).
    simpl. rewrite Hup, Hp. simpl. rewrite Hlow. do 2 f_equal.
    assert (Hx : bool_decide (x = "_"%char) = false).
    { apply bool_decide_eq_false_2. intros ->. discriminate Hnext. }
    rewrite snake_wf_cons in Hrest.
    rewrite Hx in Hrest. apply andb_prop in Hrest as [_ Hrest].
    rewrite bool_decide_eq_true_2 in Hrest by reflexivity.
    apply (IH t') with (prev := Some x) (after := true).
    + simpl. lia.
    + exact Hrest.
    + intros [= ->]. discriminate Hnext.
    + simpl. exact Hnot.
  - apply andb_prop in Hwf as [Hup Hrest]. apply negb_true_iff in Hup.
    rewrite bool_decide_eq_false_2 in Hrest by exact Hprev.
    rewrite to_camel_cons_other by (intros ->; congruence).
    simpl. rewrite Hup. simpl. rewrite (not_upper_lower c Hup). f_equal.
    apply (IH t) with (prev := Some c) (after := false).
    + simpl. lia.
    + exact Hrest.
    + congruence.
    + reflexivity.
Qed.

(** X1.  A snake-case key survives [to_camel] followed by [to_snake]: the key
    has no capital, and each underscore stands between a lower-case letter
    or digit and a lower-case letter that starts a word of two characters
    or more. *)
Theorem to_snake_to_camel_round_trip (s : string) :
  snake_key s = true -> to_snake (to_camel s) = s.
Proof.
  intros H. unfold to_snake.
  apply (snake_of_camel s None false None H); [discriminate | reflexivity].
Qed.

Lemma to_snake_to_camel_round_trip_witness :
  to_snake (to_camel "display_phone_number") = "display_phone_number".
Proof. apply (to_snake_to_camel_round_trip "display_phone_number"). reflexivity. Defined.

Lemma snake_sub_head (prev : option ascii) (s : string) :
  match lower (snake_sub prev s), s with
  | EmptyString, EmptyString => True
  | String a _, String c _ =>
      a = if is_upper c && from_option is_lower_alnum false prev
          then "_"%char else lower_ascii c
  | _, _ => False
  end.
Proof.
  destruct s as [| c s']; simpl; [exact I |].
  destruct (is_upper c && from_option is_lower_alnum false prev); reflexivity.
Qed.

Lemma snake_sub_cons (prev : option ascii) (c : ascii) (s : string) :
  snake_sub prev (String c s) =
    if is_upper c && from_option is_lower_alnum false prev
    then String "_" (String c (snake_sub (Some c) s))
    else String c (snake_sub (Some c) s).
Proof. reflexivity. Qed.

Lemma lower_cons (c : ascii) (s : string) :
  lower (String c s) = String (lower_ascii c) (lower s).
Proof. reflexivity. Qed.

Lemma camel_of_snake (s : string) (prev : option ascii) :
  camel_wf prev s = true ->
  to_camel (lower (snake_sub prev s)) = s.
Proof.
  revert prev. induction s as [| c s' IH]; intros prev Hwf; [reflexivity |].
  simpl in Hwf. apply andb_prop in Hwf as [Hc Hrest].
  pose proof (IH (Some c) Hrest) as IHc.
  rewrite snake_sub_cons. destruct (is_upper c) eqn:Hup.
  - rewrite Hc. cbn [andb]. rewrite 2!lower_cons.
    destruct (upper_lower_ascii c Hup) as (Hul & Hla & _).
    change (lower_ascii "_") with "_"%char.
    rewrite to_camel_cons_match by exact Hla.
    rewrite Hul, IHc. reflexivity.
  - cbn [andb]. rewrite lower_cons, (not_upper_lower c Hup).
    rewrite to_camel_cons_other; [rewrite IHc; reflexivity |].
    intros ->.
    pose proof (snake_sub_head (Some "_"%char) s') as Hhead.
    destruct (lower (snake_sub (Some "_"%char) s')) as [| a r];
      [exact I |].
    destruct s' as [| x s'']; [contradiction |].
    simpl in Hhead. rewrite andb_false_r in Hhead. subst a.
    simpl in Hrest. apply andb_prop in Hrest as [Hx _].
    destruct (is_upper x) eqn:Hxu; [discriminate |].
    rewrite (not_upper_lower x Hxu).
    apply negb_true_iff in Hx. exact Hx.
Qed.

(** X2.  A camel-case key survives [to_snake] followed by [to_camel]: each
    capital of the key follows a lower-case letter or a digit, and no
    underscore is followed by a lower-case letter or a digit. *)
Theorem to_camel_to_snake_round_trip (s : string) :
  camel_key s = true -> to_camel (to_snake s) = s.
Proof. apply camel_of_snake. Qed.

Lemma to_camel_to_snake_round_trip_witness :
  to_camel (to_snake "displayPhoneNumber2") = "displayPhoneNumber2".
Proof. apply (to_camel_to_snake_round_trip "displayPhoneNumber2"). reflexivity. Defined.

End CaseRoundTrips.

(** ** Deep case conversion: keys, failures, round trips *)

Section DeepExtras.
Import Case Spec KeyShapes DeepShapes.

Lemma dict_get_set (d : dict) (k k' : key) (v : value) :
  dict_get (dict_set d k v) k' =
    if decide (k = k') then Some v else dict_get d k'.
Proof.
  induction d as [| [k0 v0] d IH]; simpl.
  - destruct (decide (k = k')); reflexivity.
  - destruct (decide (k0 = k)) as [-> | Hne]; simpl.
    + destruct (decide (k = k')); reflexivity.
    + destruct (decide (k0 = k')) as [-> | Hne'].
      * destruct (decide (k = k')); [congruence | reflexivity].
      * exact IH.
Qed.

Lemma dict_set_keys_eq (d : dict) (k : key) (v : value) :
  keys (dict_set d k v) =
    if decide (k ∈ keys d) then keys d else (keys d ++ [k])%list.
Proof.
  unfold keys. induction d as [| [k0 v0] d IH]; simpl.
  - destruct (decide (k ∈ [])) as [H | _]; [| reflexivity].
    apply elem_of_nil in H as [].
  - destruct (decide (k0 = k)) as [-> | Hne]; simpl.
    + rewrite decide_True by apply list_elem_of_here. reflexivity.
    + rewrite IH. destruct (decide (k ∈ map fst d)) as [Hin | Hnin].
      * rewrite decide_True by (apply list_elem_of_further, Hin). reflexivity.
      * rewrite decide_False; [reflexivity |].
        intros [? | ?]%elem_of_cons; congruence.
Qed.

Lemma dict_set_NoDup (d : dict) (k : key) (v : value) :
  NoDup (keys d) -> NoDup (keys (dict_set d k v)).
Proof.
  intros Hd. rewrite dict_set_keys_eq.
  destruct (decide (k ∈ keys d)) as [Hin | Hnin]; [exact Hd |].
  apply NoDup_app. split; [exact Hd |]. split.
  - intros x Hx ->%list_elem_of_singleton. contradiction.
  - apply NoDup_singleton.
Qed.

Lemma dict_set_fresh (d : dict) (k : key) (v : value) :
  k ∉ keys d -> dict_set d k v = (d ++ [(k, v)])%list.
Proof.
  unfold keys. induction d as [| [k0 v0] d IH]; simpl; intros Hk;
    [reflexivity |].
  destruct (decide (k0 = k)) as [-> | Hne].
  - exfalso. apply Hk, list_elem_of_here.
  - rewrite IH; [reflexivity |].
    intros Hin. apply Hk, list_elem_of_further, Hin.
Qed.

Lemma convert_items_unfold (f : string -> string)
    (deep : value -> result value) (d : dict) :
  convert_items f deep d =
    foldM (fun acc kv =>
             k' ← convert_key f (fst kv);
             v' ← deep (snd kv);
             Ok (dict_set acc k' v')) d [].
Proof. reflexivity. Qed.

(** What a successful run of the dict comprehension says about its input
    and its result. *)
Lemma convert_items_inv (f : string -> string) (q : string -> bool)
    (deep : value -> result value) (d : dict) :
  (forall s, q (f s) = true) ->
  Forall (fun kv => forall w, deep (snd kv) = Ok w ->
                              str_keys_deep (snd kv) = true
                              /\ keyed q w = true) d ->
  forall acc d',
    foldM (fun acc kv =>
             k' ← convert_key f (fst kv);
             v' ← deep (snd kv);
             Ok (dict_set acc k' v')) d acc = Ok d' ->
    keyed q (VDict acc) = true ->
    forallb (fun kv => is_str_key (fst kv) && str_keys_deep (snd kv)) d = true
    /\ keyed q (VDict d') = true
    /\ forall k', dict_get d' (KStr k') =
                  match last_value f k' d with
                  | Some v => match deep v with Ok w => Some w | Raise _ => None end
                  | None => dict_get acc (KStr k')
                  end.
Proof.
  intros Hq Hd.
  induction Hd as [| [k v] d Hv _ IH]; intros acc d' Hrun Hacc.
  - injection Hrun as <-. auto.
  - rewrite foldM_cons in Hrun. simpl in Hrun.
    destruct k as [s | | |]; try discriminate. simpl in Hrun.
    destruct (deep v) as [w |] eqn:Hw; [| discriminate]. simpl in Hrun.
    destruct (Hv w Hw) as [Hsv Hkw]. simpl in Hsv.
    destruct (IH _ _ Hrun) as (Hitems & Hkeyed & Hget).
    { simpl in Hacc |- *. apply andb_prop in Hacc as [Hnd Hall].
      apply andb_true_intro. split.
      - apply bool_decide_eq_true. apply dict_set_NoDup.
        apply bool_decide_eq_true in Hnd. exact Hnd.
      - clear -Hall Hq Hkw. induction acc as [| [k0 v0] acc IHacc]; simpl.
        + rewrite Hq, Hkw. reflexivity.
        + simpl in Hall. apply andb_prop in Hall as [H0 Hall].
          destruct (decide (k0 = KStr (f s))); simpl.
          * rewrite Hq, Hkw, Hall. reflexivity.
          * rewrite H0, IHacc by exact Hall. reflexivity. }
    split; [| split].
    + simpl. rewrite Hsv, Hitems. reflexivity.
    + exact Hkeyed.
    + intros k'. rewrite Hget. simpl.
      destruct (last_value f k' d) as [v' |]; [reflexivity |].
      rewrite dict_get_set.
      destruct (bool_decide_reflect (f s = k')) as [-> | Hne].
      * rewrite decide_True by reflexivity. rewrite Hw. reflexivity.
      * rewrite decide_False by congruence. reflexivity.
Qed.

Lemma mapM_inv {A B} (f : A -> result B) (P : A -> B -> Prop) (l : list A) :
  Forall (fun x => forall y, f x = Ok y -> P x y) l ->
  forall l', mapM f l = Ok l' -> Forall2 P l l'.
Proof.
  induction 1 as [| x l Hx _ IH]; intros l' Hrun; simpl in Hrun.
  - injection Hrun as <-. constructor.
  - destruct (f x) as [y |] eqn:Hy; [| discriminate]. simpl in Hrun.
    destruct (mapM f l) as [ys |]; [| discriminate]. simpl in Hrun.
    injection Hrun as <-. constructor; auto.
Qed.

Lemma deep_inv (f : string -> string) (q : string -> bool)
    (deep : value -> result value) :
  (forall v, deep v =
     match v with
     | VList l => VList <$> mapM deep l
     | VDict d => VDict <$> convert_items f deep d
     | _ => Ok v
     end) ->
  (forall s, q (f s) = true) ->
  forall v w, deep v = Ok w -> str_keys_deep v = true /\ keyed q w = true.
Proof.
  intros Hdeep Hq v.
  induction v as [| b | z | x | s | l IH | d IH] using value_ind;
    intros w; rewrite Hdeep; try (intros [= <-]; split; reflexivity).
  - destruct (mapM deep l) as [l' |] eqn:Hl; [| discriminate].
    intros [= <-]. pose proof (mapM_inv _ _ _ IH _ Hl) as H2. simpl.
    clear -H2. induction H2 as [| x y l l' [Hx Hy] _ [IH1 IH2]]; simpl.
    + auto.
    + rewrite Hx, Hy, IH1, IH2. auto.
  - rewrite convert_items_unfold.
    destruct (foldM _ d []) as [d' |] eqn:Hd; [| discriminate].
    intros [= <-].
    destruct (convert_items_inv f q deep d Hq IH [] d' Hd) as (H1 & H2 & _).
    { reflexivity. }
    split; [exact H1 | exact H2].
Qed.

Lemma to_snake_lower_case (s : string) :
  negb (has_upper (to_snake s)) = true.
Proof. unfold to_snake. rewrite has_upper_lower. reflexivity. Qed.

Lemma mapM_exact {A B} (f : A -> result B) (l : list A) (l' : list B) :
  Forall2 (fun x y => f x = Ok y) l l' -> mapM f l = Ok l'.
Proof.
  induction 1 as [| x y l l' Hx _ IH]; simpl; [reflexivity |].
  rewrite Hx. simpl. rewrite IH. reflexivity.
Qed.

(** The dict comprehension when the converted keys do not collide: the
    items are converted one by one, in order. *)
Lemma convert_items_exact (f : string -> string)
    (deep : value -> result value) (d out : dict) :
  Forall2 (fun kv kv' => exists s, fst kv = KStr s /\ fst kv' = KStr (f s)
                                   /\ deep (snd kv) = Ok (snd kv')) d out ->
  NoDup (keys out) ->
  forall acc, (forall k, k ∈ keys out -> k ∉ keys acc) ->
    foldM (fun acc kv =>
             k' ← convert_key f (fst kv);
             v' ← deep (snd kv);
             Ok (dict_set acc k' v')) d acc = Ok (acc ++ out)%list.
Proof.
  induction 1 as [| [k v] [k' v'] d out (s & Hk & Hk' & Hv) _ IH];
    intros Hnd acc Hacc.
  - rewrite app_nil_r. reflexivity.
  - simpl in Hk, Hk', Hv. subst k k'. rewrite foldM_cons. simpl.
    rewrite Hv. simpl.
    unfold keys in Hnd. simpl in Hnd. apply NoDup_cons in Hnd as [Hfresh Hnd].
    rewrite dict_set_fresh by (apply Hacc, list_elem_of_here).
    rewrite IH; [rewrite <- app_assoc; reflexivity | exact Hnd |].
    intros k Hk. unfold keys. rewrite map_app. simpl.
    rewrite elem_of_app, list_elem_of_singleton. intros [Hin | ->].
    + revert Hin. apply Hacc, list_elem_of_further, Hk.
    + apply Hfresh, Hk.
Qed.

Lemma renamed_keys (f : string -> string) (p : string -> bool)
    (ren : value -> value) (d : dict) :
  forallb (fun kv => match fst kv with KStr s => p s | _ => false end
                     && keyed p (snd kv)) d = true ->
  forall k, k ∈ keys (renamed f ren d) ->
    exists s, k = KStr (f s) /\ p s = true /\ KStr s ∈ keys d.
Proof.
  unfold keys, renamed. induction d as [| [k0 v0] d IH]; simpl; intros Hall k.
  - intros Hk. apply elem_of_nil in Hk as [].
  - apply andb_prop in Hall as [Hitem Hall].
    apply andb_prop in Hitem as [Hk0 _].
    destruct k0 as [s | | |]; try discriminate.
    rewrite elem_of_cons. intros [-> | Hin].
    + exists s. rewrite elem_of_cons. auto.
    + destruct (IH Hall k Hin) as (s0 & ? & ? & ?). exists s0.
      rewrite elem_of_cons. auto.
Qed.

Lemma renamed_NoDup (f g : string -> string) (p : string -> bool)
    (ren : value -> value) (d : dict) :
  (forall s, p s = true -> g (f s) = s) ->
  forallb (fun kv => match fst kv with KStr s => p s | _ => false end
                     && keyed p (snd kv)) d = true ->
  NoDup (keys d) -> NoDup (keys (renamed f ren d)).
Proof.
  intros Hinv. induction d as [| [k0 v0] d IH]; intros Hall Hnd;
    [constructor |].
  pose proof (renamed_keys f p ren d) as Hkeys.
  unfold keys, renamed in *. simpl in *.
  apply andb_prop in Hall as [Hitem Hall].
  apply andb_prop in Hitem as [Hk0 _].
  destruct k0 as [s | | |]; try discriminate.
  apply NoDup_cons in Hnd as [Hfresh Hnd].
  apply NoDup_cons. split; [| apply IH; assumption].
  intros Hin. apply Hfresh.
  destruct (Hkeys Hall _ Hin) as (s0 & Heq & Hp & Hs0).
  injection Heq as Heq.
  rewrite <- (Hinv s Hk0), Heq, (Hinv s0 Hp). exact Hs0.
Qed.

Lemma deep_rename (f g : string -> string) (p : string -> bool)
    (deepf deepg : value -> result value) :
  (forall v, deepf v =
     match v with
     | VList l => VList <$> mapM deepf l
     | VDict d => VDict <$> convert_items f deepf d
     | _ => Ok v
     end) ->
  (forall v, deepg v =
     match v with
     | VList l => VList <$> mapM deepg l
     | VDict d => VDict <$> convert_items g deepg d
     | _ => Ok v
     end) ->
  (forall s, p s = true -> g (f s) = s) ->
  forall v, keyed p v = true ->
    deepf v = Ok (rename_keys f v) /\ deepg (rename_keys f v) = Ok v.
Proof.
  intros Hf Hg Hinv v.
  induction v as [| b | z | x | s | l IH | d IH] using value_ind;
    intros Hv; simpl rename_keys; rewrite Hf, Hg;
    try (split; reflexivity).
  - simpl in Hv.
    assert (H2 : Forall2 (fun x y => deepf x = Ok y) l (map (rename_keys f) l)
                 /\ Forall2 (fun y x => deepg y = Ok x)
                            (map (rename_keys f) l) l).
    { induction IH as [| x l Hx _ IHl]; simpl; [split; constructor |].
      simpl in Hv. apply andb_prop in Hv as [Hvx Hvl].
      destruct (Hx Hvx) as [H1 H2]. destruct (IHl Hvl) as [H3 H4].
      split; constructor; assumption. }
    destruct H2 as [H1 H2].
    rewrite (mapM_exact _ _ _ H1), (mapM_exact _ _ _ H2). split; reflexivity.
  - simpl in Hv. apply andb_prop in Hv as [Hnd Hall].
    apply bool_decide_eq_true in Hnd.
    pose proof (renamed_NoDup f g p (rename_keys f) d Hinv Hall Hnd) as Hout.
    assert (H2 : Forall2 (fun kv kv' =>
                   exists s, fst kv = KStr s /\ fst kv' = KStr (f s)
                             /\ deepf (snd kv) = Ok (snd kv'))
                   d (renamed f (rename_keys f) d)
                 /\ Forall2 (fun kv' kv =>
                      exists s', fst kv' = KStr s' /\ fst kv = KStr (g s')
                                 /\ deepg (snd kv') = Ok (snd kv))
                      (renamed f (rename_keys f) d) d).
    { clear Hnd Hout. unfold renamed.
      induction IH as [| [k v] d Hkv _ IHd]; simpl.
      - split; constructor.
      - simpl in Hall. apply andb_prop in Hall as [Hitem Hall].
        apply andb_prop in Hitem as [Hk Hval].
        destruct k as [s | | |]; try discriminate.
        destruct (Hkv Hval) as [H1 H2].
        destruct (IHd Hall) as (H3 & H4).
        split.
        + constructor; [| exact H3]. exists s. auto.
        + constructor; [| exact H4]. exists (f s). simpl.
          rewrite Hinv by exact Hk. auto. }
    destruct H2 as (H1 & H2).
    rewrite !convert_items_unfold.
    rewrite (convert_items_exact f deepf _ _ H1 Hout []),
            (convert_items_exact g deepg _ _ H2 Hnd []).
    + split; reflexivity.
    + intros k _ Hk. apply elem_of_nil in Hk as [].
    + intros k _ Hk. apply elem_of_nil in Hk as [].
Qed.

Lemma keyed_mono (p q : string -> bool) (v : value) :
  (forall s, p s = true -> q s = true) ->
  keyed p v = true -> keyed q v = true.
Proof.
  intros Hpq.
  induction v as [| b | z | x | s | l IH | d IH] using value_ind;
    simpl; try reflexivity.
  - induction IH as [| x l Hx _ IHl]; simpl; [reflexivity |].
    intros [H1 H2]%andb_prop. rewrite Hx, IHl by assumption. reflexivity.
  - intros [Hnd Hall]%andb_prop. rewrite Hnd. simpl. clear Hnd.
    induction IH as [| [k v] d Hkv _ IHd]; simpl; [reflexivity |].
    simpl in Hall. apply andb_prop in Hall as [Hitem Hall].
    apply andb_prop in Hitem as [Hk Hval]. simpl in Hkv.
    rewrite Hkv, IHd by assumption.
    destruct k as [s | | |]; try discriminate.
    rewrite Hpq by exact Hk. reflexivity.
Qed.

Lemma rename_keys_fixed (f : string -> string) (v : value) :
  keyed (fun s => bool_decide (f s = s)) v = true -> rename_keys f v = v.
Proof.
  induction v as [| b | z | x | s | l IH | d IH] using value_ind;
    simpl; try reflexivity.
  - intros Hall. f_equal.
    induction IH as [| x l Hx _ IHl]; simpl; [reflexivity |].
    simpl in Hall. apply andb_prop in Hall as [H1 H2].
    rewrite Hx, IHl by assumption. reflexivity.
  - intros [_ Hall]%andb_prop. f_equal. unfold renamed.
    induction IH as [| [k v] d Hkv _ IHd]; simpl; [reflexivity |].
    simpl in Hall. apply andb_prop in Hall as [Hitem Hall].
    apply andb_prop in Hitem as [Hk Hval]. simpl in Hkv.
    rewrite Hkv, IHd by assumption.
    destruct k as [s | | |]; try discriminate.
    apply bool_decide_eq_true in Hk. rewrite Hk. reflexivity.
Qed.

Lemma mapM_raise {A B} (f : A -> result B) (l : list A) (e : exn) :
  mapM f l = Raise e -> Exists (fun x => f x = Raise e) l.
Proof.
  induction l as [| x l IH]; simpl; [discriminate |].
  destruct (f x) as [y | e'] eqn:Hx; simpl.
  - destruct (mapM f l) as [ys | e'']; simpl; [discriminate |].
    intros [= <-]. apply Exists_cons_tl, IH. reflexivity.
  - intros [= <-]. apply Exists_cons_hd. exact Hx.
Qed.

Lemma deep_raise (f : string -> string) (deep : value -> result value) :
  (forall v, deep v =
     match v with
     | VList l => VList <$> mapM deep l
     | VDict d => VDict <$> convert_items f deep d
     | _ => Ok v
     end) ->
  forall v e, deep v = Raise e -> e = TypeError.
Proof.
  intros Hdeep v.
  induction v as [| b | z | x | s | l IH | d IH] using value_ind;
    intros e; rewrite Hdeep; try discriminate.
  - destruct (mapM deep l) as [l' | e'] eqn:Hl; [discriminate |].
    intros [= <-]. apply mapM_raise in Hl.
    induction IH as [| x l Hx _ IHl].
    + inversion Hl.
    + inversion Hl; subst; eauto.
  - rewrite convert_items_unfold. generalize (@nil (key * value)).
    induction IH as [| [k v] d Hkv _ IHd]; intros acc; [discriminate |].
    rewrite foldM_cons. simpl.
    destruct k as [s | | |]; simpl; try (intros [= <-]; reflexivity).
    destruct (deep v) as [w | e'] eqn:Hw; simpl.
    + apply IHd.
    + intros [= <-]. apply (Hkv e'). exact Hw.
Qed.

Lemma last_value_app (f : string -> string) (k' : string) (a b : dict) :
  last_value f k' (a ++ b)%list =
    match last_value f k' b with
    | Some v => Some v
    | None => last_value f k' a
    end.
Proof.
  induction a as [| [k v] a IH]; simpl.
  - destruct (last_value f k' b); reflexivity.
  - rewrite IH. destruct (last_value f k' b); reflexivity.
Qed.

Lemma filter_not_in_cons (seen : list key) (k : key) (l : list key) :
  filter (fun k' => k' ∉ (seen ++ [k])%list) l
  = filter (fun k' => k' ∉ seen) (filter (fun k' => k' <> k) l).
Proof.
  rewrite list_filter_filter. apply list_filter_iff. intros x.
  rewrite elem_of_app, list_elem_of_singleton. tauto.
Qed.

Lemma filter_not_in_seen (seen : list key) (k : key) (l : list key) :
  k ∈ seen ->
  filter (fun k' => k' ∉ seen) (filter (fun k' => k' <> k) l)
  = filter (fun k' => k' ∉ seen) l.
Proof.
  intros Hk. rewrite list_filter_filter. apply list_filter_iff. intros x.
  split; [tauto |]. intros Hx. split; [exact Hx | congruence].
Qed.

Lemma filter_not_in_nil (l : list key) :
  filter (fun k' => k' ∉ @nil key) l = l.
Proof.
  induction l as [| k l IH]; [reflexivity |].
  rewrite filter_cons_True by apply not_elem_of_nil. rewrite IH. reflexivity.
Qed.

(** The keys of the dict that the comprehension builds: those it started
    from, then the new converted keys in the order of their first
    occurrence. *)
Lemma convert_items_keys (f : string -> string)
    (deep : value -> result value) (d : dict) :
  forall acc d',
    foldM (fun acc kv =>
             k' ← convert_key f (fst kv);
             v' ← deep (snd kv);
             Ok (dict_set acc k' v')) d acc = Ok d' ->
    keys d' = (keys acc
               ++ filter (fun k' => k' ∉ keys acc)
                    (first_occurrences (map (converted_key f) (keys d))))%list.
Proof.
  induction d as [| [k v] d IH]; intros acc d' Hrun.
  - injection Hrun as <-. simpl. rewrite app_nil_r. reflexivity.
  - rewrite foldM_cons in Hrun. simpl in Hrun.
    destruct k as [s | | |]; try discriminate. simpl in Hrun.
    destruct (deep v) as [w |]; [| discriminate]. simpl in Hrun.
    rewrite (IH _ _ Hrun), dict_set_keys_eq. simpl.
    destruct (decide (KStr (f s) ∈ keys acc)) as [Hin | Hnin].
    + rewrite filter_cons_False by tauto.
      rewrite filter_not_in_seen by exact Hin. reflexivity.
    + rewrite filter_cons_True by exact Hnin.
      rewrite filter_not_in_cons, <- app_assoc. reflexivity.
Qed.

Lemma deep_converted (f : string -> string) (deep : value -> result value) :
  (forall v, deep v =
     match v with
     | VList l => VList <$> mapM deep l
     | VDict d => VDict <$> convert_items f deep d
     | _ => Ok v
     end) ->
  forall v w, deep v = Ok w -> converted f v w.
Proof.
  intros Hdeep v.
  induction v as [| b | z | x | s | l IH | d IH] using value_ind;
    intros w; rewrite Hdeep; try (intros [= <-]; reflexivity).
  - destruct (mapM deep l) as [l' |] eqn:Hl; [| discriminate].
    intros [= <-]. exists l'. split; [reflexivity |].
    pose proof (mapM_inv _ _ _ IH _ Hl) as H2. clear -H2.
    induction H2 as [| x y l l' Hxy _ IH2]; [exact I |].
    split; [exact Hxy | exact IH2].
  - rewrite convert_items_unfold.
    destruct (foldM _ d []) as [d' |] eqn:Hd; [| discriminate].
    intros [= <-]. exists d'. split; [reflexivity |]. split.
    + rewrite (convert_items_keys f deep d [] d' Hd). simpl.
      apply filter_not_in_nil.
    + destruct (convert_items_inv f (fun _ => true) deep d
                  ltac:(reflexivity)) with (acc := @nil (key * value))
        (d' := d') as (_ & _ & Hget); [| exact Hd | reflexivity |].
      { apply Forall_forall. intros kv _ w Hw.
        apply (deep_inv f (fun _ => true) deep Hdeep ltac:(reflexivity)).
        exact Hw. }
      assert (Hsuffix : forall d1 d0, d = (d0 ++ d1)%list ->
        Forall (fun kv => forall w, deep (snd kv) = Ok w
                                    -> converted f (snd kv) w) d1 ->
        stored f (converted f) d' d1).
      { induction d1 as [| [k x] d1 IH1]; intros d0 Hsplit Hall; [exact I |].
        apply Forall_cons in Hall as [Hx Hall]. split.
        - intros s -> Hlast. specialize (Hget (f s)).
          rewrite Hsplit, last_value_app in Hget. simpl in Hget.
          rewrite Hlast, bool_decide_eq_true_2 in Hget by reflexivity.
          destruct (deep x) as [y |] eqn:Hy.
          + exists y. split; [exact Hget | apply Hx; exact Hy].
          + exfalso.
            rewrite Hsplit, foldM_app in Hd.
            destruct (foldM _ d0 []) as [acc1 |]; [| discriminate].
            change (Ok acc1 ≫= ?k) with (k acc1) in Hd.
            rewrite foldM_cons in Hd. simpl in Hd. rewrite Hy in Hd.
            discriminate.
        - apply (IH1 (d0 ++ [(k, x)])%list); [| exact Hall].
          rewrite Hsplit, <- app_assoc. reflexivity. }
      apply (Hsuffix d [] eq_refl). exact IH.
Qed.











(** What the relation excludes and what it fixes: a changed value is not a
    conversion, and a collision keeps the first position and the last
    value. *)
Example converted_examples :
  ~ converted to_snake (VDict [(KStr "displayName", VStr "Ana")])
      (VDict [(KStr "display_name", VNone)])
  /\ converted to_snake
       (VDict [(KStr "displayName", VInt 1); (KStr "id", VInt 3);
               (KStr "display_name", VInt 2)])
       (VDict [(KStr "display_name", VInt 2); (KStr "id", VInt 3)]).
Proof.
  split.
  - intros (d' & [= <-] & _ & Hstored & _).
    destruct (Hstored "displayName" eq_refl eq_refl) as (y & [= <-] & Hy).
    discriminate Hy.
  - apply (deep_converted to_snake to_snake_deep
             ltac:(intros []; reflexivity)).
    reflexivity.
Qed.

(** X3.  The result of [to_snake_deep]: every key, at any depth, is a string
    without capital letter, and the keys of a dict are pairwise distinct. *)
Theorem to_snake_deep_keys (v w : value) :
  to_snake_deep v = Ok w ->
  keyed (fun s => negb (has_upper s)) w = true.
Proof.
  intros H.
  apply (deep_inv to_snake (fun s => negb (has_upper s)) to_snake_deep)
    with (v := v); [intros []; reflexivity | apply to_snake_lower_case | exact H].
Qed.

Lemma to_snake_deep_keys_witness :
  keyed (fun s => negb (has_upper s))
    (VDict [(KStr "display_name", VList [VDict [(KStr "first_name", VStr "A")]])])
  = true.
Proof.
  apply (to_snake_deep_keys
           (VDict [(KStr "displayName", VInt 1);
                   (KStr "display_name",
                    VList [VDict [(KStr "firstName", VStr "A")]])])).
  reflexivity.
Defined.

(** X4.  [to_snake_deep] is idempotent: its result is converted to itself. *)
Theorem to_snake_deep_idempotent (v w : value) :
  to_snake_deep v = Ok w -> to_snake_deep w = Ok w.
Proof.
  intros H.
  assert (Hk : keyed (fun s => negb (has_upper s)) w = true).
  { apply (deep_inv to_snake (fun s => negb (has_upper s)) to_snake_deep)
      with (v := v);
      [intros []; reflexivity | apply to_snake_lower_case | exact H]. }
  assert (Hfix : forall s, negb (has_upper s) = true ->
                           bool_decide (to_snake s = s) = true).
  { intros s Hs. apply bool_decide_eq_true, to_snake_no_upper.
    apply negb_true_iff, Hs. }
  pose proof (keyed_mono _ _ w Hfix Hk) as Hk'.
  destruct (deep_rename to_snake to_snake
              (fun s => bool_decide (to_snake s = s))
              to_snake_deep to_snake_deep) with (v := w) as [H1 _];
    [intros []; reflexivity | intros []; reflexivity | | exact Hk' |].
  - intros s Hs. apply bool_decide_eq_true in Hs. rewrite Hs. exact Hs.
  - rewrite H1. f_equal. apply rename_keys_fixed. exact Hk'.
Qed.

Lemma to_snake_deep_idempotent_witness :
  to_snake_deep (VDict [(KStr "display_name", VList [VDict [(KStr "first_name", VStr "A")]])])
  = Ok (VDict [(KStr "display_name", VList [VDict [(KStr "first_name", VStr "A")]])]).
Proof.
  apply (to_snake_deep_idempotent
           (VDict [(KStr "displayName", VInt 1);
                   (KStr "display_name",
                    VList [VDict [(KStr "firstName", VStr "A")]])])).
  reflexivity.
Defined.

(** X5.  The deep conversions fail in one way only: with TypeError, and only on
    a value that has a dict key which is not a string. *)
Theorem deep_conversions_raise_type_error (v : value) (e : exn) :
  to_camel_deep v = Raise e \/ to_snake_deep v = Raise e ->
  e = TypeError /\ str_keys_deep v = false.
Proof.
  intros H. split.
  - destruct H as [H | H].
    + apply (deep_raise to_camel to_camel_deep) with (v := v);
        [intros []; reflexivity | exact H].
    + apply (deep_raise to_snake to_snake_deep) with (v := v);
        [intros []; reflexivity | exact H].
  - destruct (str_keys_deep v) eqn:Hs; [exfalso | reflexivity].
    destruct H as [H | H].
    + destruct (deep_total to_camel to_camel_deep) with (v := v)
        as (w & Hw & _); [intros []; reflexivity | exact Hs | congruence].
    + destruct (deep_total to_snake to_snake_deep) with (v := v)
        as (w & Hw & _); [intros []; reflexivity | exact Hs | congruence].
Qed.

Lemma deep_conversions_raise_type_error_witness :
  TypeError = TypeError
  /\ str_keys_deep (VList [VDict [(KStr "a", VDict [(KInt 1, VNone)])]]) = false.
Proof.
  apply (deep_conversions_raise_type_error
           (VList [VDict [(KStr "a", VDict [(KInt 1, VNone)])]]) TypeError).
  left. reflexivity.
Defined.

(** X6.  When the keys of two items of a dict are converted to the same key, the
    result holds that key once, with the converted value of the last such
    item; a key that no item is converted to is absent. *)
Theorem deep_conversions_last_item_wins (d d' : dict) (k' : string) :
  (to_camel_deep (VDict d) = Ok (VDict d') ->
   dict_get d' (KStr k') =
     v ← last_value to_camel k' d;
     match to_camel_deep v with Ok w => Some w | Raise _ => None end)
  /\ (to_snake_deep (VDict d) = Ok (VDict d') ->
      dict_get d' (KStr k') =
        v ← last_value to_snake k' d;
        match to_snake_deep v with Ok w => Some w | Raise _ => None end).
Proof.
  assert (Hgen : forall f q deep,
    (forall v, deep v =
       match v with
       | VList l => VList <$> mapM deep l
       | VDict d => VDict <$> convert_items f deep d
       | _ => Ok v
       end) ->
    (forall s, q (f s) = true) ->
    deep (VDict d) = Ok (VDict d') ->
    dict_get d' (KStr k') =
      v ← last_value f k' d;
      match deep v with Ok w => Some w | Raise _ => None end).
  { intros f q deep Hdeep Hq. rewrite Hdeep, convert_items_unfold.
    destruct (foldM _ d []) as [d0 |] eqn:Hd; [| discriminate].
    intros [= <-].
    destruct (convert_items_inv f q deep d Hq) with (acc := @nil (key * value))
      (d' := d0) as (_ & _ & Hget); [| exact Hd | reflexivity |].
    - apply Forall_forall. intros kv _ w Hw.
      apply (deep_inv f q deep Hdeep Hq). exact Hw.
    - rewrite Hget. destruct (last_value f k' d); reflexivity. }
  split.
  - apply (Hgen to_camel (fun _ => true)); [intros []; reflexivity | reflexivity].
  - apply (Hgen to_snake (fun _ => true)); [intros []; reflexivity | reflexivity].
Qed.

Lemma deep_conversions_last_item_wins_witness :
  dict_get [(KStr "display_name", VInt 2); (KStr "id", VInt 3)] (KStr "display_name")
  = Some (VInt 2).
Proof.
  apply (deep_conversions_last_item_wins
           [(KStr "displayName", VInt 1); (KStr "id", VInt 3); (KStr "display_name", VInt 2)]
           [(KStr "display_name", VInt 2); (KStr "id", VInt 3)] "display_name").
  reflexivity.
Defined.

(** X7.  A value whose keys are distinct snake-case names survives
    [to_camel_deep] followed by [to_snake_deep] unchanged. *)
Theorem deep_snake_camel_round_trip (v : value) :
  keyed snake_key v = true ->
  to_camel_deep v ≫= to_snake_deep = Ok v.
Proof.
  intros Hv.
  destruct (deep_rename to_camel to_snake snake_key
              to_camel_deep to_snake_deep) with (v := v) as [H1 H2];
    [intros []; reflexivity | intros []; reflexivity | | exact Hv |].
  - intros s Hs. unfold to_snake.
    apply (snake_of_camel s None false None Hs); [discriminate | reflexivity].
  - rewrite H1. exact H2.
Qed.

Lemma deep_snake_camel_round_trip_witness :
  to_camel_deep
    (VDict [(KStr "display_name", VList [VDict [(KStr "first_name", VStr "A")]]);
            (KStr "id", VInt 3)])
  ≫= to_snake_deep
  = Ok (VDict [(KStr "display_name", VList [VDict [(KStr "first_name", VStr "A")]]);
               (KStr "id", VInt 3)]).
Proof.
  apply (deep_snake_camel_round_trip
           (VDict [(KStr "display_name", VList [VDict [(KStr "first_name", VStr "A")]]);
                   (KStr "id", VInt 3)])).
  reflexivity.
Defined.

(** X8.  A value whose keys are distinct camel-case names survives
    [to_snake_deep] followed by [to_camel_deep] unchanged. *)
Theorem deep_camel_snake_round_trip (v : value) :
  keyed camel_key v = true ->
  to_snake_deep v ≫= to_camel_deep = Ok v.
Proof.
  intros Hv.
  destruct (deep_rename to_snake to_camel camel_key
              to_snake_deep to_camel_deep) with (v := v) as [H1 H2];
    [intros []; reflexivity | intros []; reflexivity | | exact Hv |].
  - intros s Hs. apply camel_of_snake. exact Hs.
  - rewrite H1. exact H2.
Qed.

Lemma deep_camel_snake_round_trip_witness :
  to_snake_deep
    (VDict [(KStr "displayName", VList [VDict [(KStr "firstName", VStr "A")]]);
            (KStr "id", VInt 3)])
  ≫= to_camel_deep
  = Ok (VDict [(KStr "displayName", VList [VDict [(KStr "firstName", VStr "A")]]);
               (KStr "id", VInt 3)]).
Proof.
  apply (deep_camel_snake_round_trip
           (VDict [(KStr "displayName", VList [VDict [(KStr "firstName", VStr "A")]]);
                   (KStr "id", VInt 3)])).
  reflexivity.
Defined.

End DeepExtras.

(** ** Error classification and construction *)

Section ErrorExtras.
Import Categorize Retry GraphApiError.

Lemma table_values (c : Z) (category : ErrorCategory) :
  _CODE_TO_CATEGORY !! c = Some category ->
  category ∈ [authorization; permission; parameter; throttling; template;
              media; phone_registration; integrity; reengagement_window;
              flow].
Proof.
  intros H. apply elem_of_list_to_map_2 in H.
  repeat (apply elem_of_cons in H as [H | H];
          [injection H as -> ->; rewrite !elem_of_cons; tauto |]).
  apply elem_of_nil in H as [].
Qed.

Lemma categorize_error_range_aux (code http_status : option Z) :
  categorize_error code http_status
    ∈ [authorization; permission; parameter; throttling; template; media;
       phone_registration; integrity; reengagement_window; flow; server;
       unknown].
Proof.
  unfold categorize_error.
  destruct code as [c |].
  - change (Some c ≫= _) with (_CODE_TO_CATEGORY !! c).
    destruct (_CODE_TO_CATEGORY !! c) as [category |] eqn:Hc.
    + apply table_values in Hc. revert Hc.
      rewrite !elem_of_cons, !elem_of_nil. tauto.
    + destruct http_status as [st |]; [destruct (500 <=? st) |];
        rewrite !elem_of_cons; tauto.
  - change (None ≫= _) with (@None ErrorCategory).
    destruct http_status as [st |]; [destruct (500 <=? st) |];
      rewrite !elem_of_cons; tauto.
Qed.

(** X9.  Three categories of [ErrorCategory] are never assigned:
    [business_eligibility], [waba_config] and [synchronization].  The
    result is one of the ten categories of the table, or [server] or
    [unknown] from the fallback on the HTTP status. *)
Theorem categorize_error_range (code http_status : option Z) :
  categorize_error code http_status
    ∈ [authorization; permission; parameter; throttling; template; media;
       phone_registration; integrity; reengagement_window; flow; server;
       unknown].
Proof. apply categorize_error_range_aux. Qed.

(** X10.  The helper methods of a constructed error agree with its retry hint:
    a token refresh is advised exactly for an authorization error, the
    action is [retry_after] exactly for a rate limit, which then always
    carries a delay, a template error is to be fixed and retried, and plain
    [retry] is advised exactly for the categories [server] and [unknown]. *)
Theorem graph_api_error_helpers_agree (message : value) (http_status : Z)
    (code type_ details error_subcode fbtrace_id error_data : value)
    (retry_after_header : option string) (raw : value) (e : t) :
  init message http_status code type_ details error_subcode fbtrace_id
       error_data retry_after_header raw = Ok e ->
  requires_token_refresh e = is_auth_error e
  /\ bool_decide (action (GraphApiError.retry e) = retry_after)
     = is_rate_limit e
  /\ (is_rate_limit e = true ->
      is_Some (retry_after_ms (GraphApiError.retry e)))
  /\ (is_template_error e = true ->
      action (GraphApiError.retry e) = fix_and_retry)
  /\ (action (GraphApiError.retry e) = Retry.retry <->
      category e = server \/ category e = unknown).
Proof.
  unfold init.
  destruct (code_arg code) as [c |]; [| discriminate]. simpl.
  assert (Hrange : categorize_error c (Some http_status) <> synchronization).
  { pose proof (categorize_error_range_aux c (Some http_status)) as Hr.
    intros Heq. rewrite Heq in Hr. revert Hr.
    rewrite !elem_of_cons, elem_of_nil. intuition discriminate. }
  revert Hrange. generalize (categorize_error c (Some http_status)).
  intros cat Hrange.
  destruct (get_retry_hint cat retry_after_header) as [hint |] eqn:Hhint;
    [| discriminate].
  simpl. intros [= <-].
  unfold requires_token_refresh, is_auth_error, is_rate_limit,
    is_template_error. simpl.
  pose proof (get_retry_hint_action _ _ _ Hhint) as Hact.
  unfold get_retry_hint in Hhint.
  destruct (parsed_header retry_after_header) as [ms |]; [| discriminate].
  simpl in Hhint. injection Hhint as <-. simpl in *.
  repeat split.
  - destruct cat; reflexivity.
  - destruct cat; reflexivity.
  - intros Hc%bool_decide_eq_true. subst cat. simpl.
    destruct ms; simpl; eauto.
  - intros Hc%bool_decide_eq_true. subst cat. reflexivity.
  - destruct cat; try discriminate; try tauto; contradiction.
  - intros [-> | ->]; reflexivity.
Qed.

Lemma graph_api_error_helpers_agree_witness :
  exists e,
    init (VStr "Throttled") 429 (VInt 4) (VStr "") VNone VNone VNone VNone
         None VNone = Ok e
    /\ is_rate_limit e = true
    /\ is_Some (retry_after_ms (GraphApiError.retry e)).
Proof.
  eexists. split; [reflexivity |].
  destruct (graph_api_error_helpers_agree
              (VStr "Throttled") 429 (VInt 4) (VStr "") VNone VNone VNone
              VNone None VNone _ eq_refl) as (_ & _ & H & _).
  split; [reflexivity | apply H; reflexivity].
Defined.

(** X11.  [get_retry_hint] fails exactly when the header parses as a float whose
    product with 1000 is infinite, and then with OverflowError. *)
Theorem get_retry_hint_raises_iff (category : ErrorCategory)
    (retry_after_header : option string) (e : exn) :
  get_retry_hint category retry_after_header = Raise e <->
  e = OverflowError
  /\ exists h x s,
       retry_after_header = Some h
       /\ float_of_string h = Ok x
       /\ float_mul x (float_of_Z 1000) = S754_infinity s.
Proof.
  unfold get_retry_hint, parsed_header, header_ms. split.
  - destruct retry_after_header as [h |]; [| discriminate].
    destruct (float_of_string h) as [x | e'] eqn:Hf; simpl.
    + destruct (int_of_float _) as [n | e'] eqn:Hi; simpl; [discriminate |].
      apply int_of_float_raises in Hi as [[-> [s Hs]] | [-> _]]; simpl;
        [| discriminate].
      intros [= <-]. split; [reflexivity |]. exists h, x, s. auto.
    + apply float_of_string_raises in Hf as ->. discriminate.
  - intros (-> & h & x & s & -> & Hf & Hm). rewrite Hf.
    cbn [mbind result_bind]. rewrite Hm. reflexivity.
Qed.

Lemma get_retry_hint_raises_iff_witness :
  get_retry_hint server (Some "1e306") = Raise OverflowError.
Proof.
  apply (get_retry_hint_raises_iff server (Some "1e306") OverflowError).
  split; [reflexivity |].
  eexists _, _, _.
  split; [reflexivity | split; vm_compute; reflexivity].
Defined.

(** X12.  [from_response] can fail in three ways only, each before any
    [GraphApiError] exists: the member ["error"] of the body is not a map
    (AttributeError), the code is a list or a map (TypeError), or the
    [retry-after] header is too large (OverflowError). *)
Theorem from_response_raises (http_status : Z) (body : dict)
    (retry_after_header : option string) (e : exn) :
  from_response http_status body retry_after_header = Raise e ->
  (e = AttributeError
   /\ forall err, get body "error" (VDict body) <> VDict err)
  \/ (e = TypeError
      /\ exists err, get body "error" (VDict body) = VDict err
                     /\ as_key (get err "code" VNone) = Raise TypeError)
  \/ (e = OverflowError
      /\ exists h, retry_after_header = Some h
                   /\ header_ms h = Raise OverflowError).
Proof.
  unfold from_response.
  destruct (get body "error" (VDict body)) as [| b | z | x | s | l | err];
    try (simpl; intros [= <-]; left; split; [reflexivity | discriminate]).
  simpl.
  assert (Hinit : forall m c ty dt sc fb ed,
            c = get err "code" VNone ->
            init m http_status c ty dt sc fb ed retry_after_header
                 (VDict body) = Raise e ->
            (e = TypeError
             /\ exists err0, VDict err = VDict err0
                  /\ as_key (get err0 "code" VNone) = Raise TypeError)
            \/ (e = OverflowError
                /\ exists h, retry_after_header = Some h
                             /\ header_ms h = Raise OverflowError)).
  { intros m c ty dt sc fb ed -> Hrun. unfold init, code_arg in Hrun.
    destruct (as_key (get err "code" VNone)) as [k | e'] eqn:Hk; simpl in Hrun.
    - right.
      destruct (get_retry_hint _ retry_after_header) as [r | e'] eqn:Hr;
        simpl in Hrun; [discriminate |].
      injection Hrun as ->.
      pose proof (get_retry_hint_raises_only_overflow _ _ _ Hr) as ->.
      split; [reflexivity |].
      unfold get_retry_hint, parsed_header in Hr.
      destruct retry_after_header as [h |]; [| discriminate].
      exists h. split; [reflexivity |].
      destruct (header_ms h) as [ms | e'] eqn:Hh; [discriminate |].
      destruct e'; try discriminate. reflexivity.
    - injection Hrun as ->. left.
      assert (e = TypeError) as ->.
      { destruct (get err "code" VNone); simpl in Hk; congruence. }
      split; [reflexivity |]. exists err. auto. }
  destruct (truthy (get err "error_user_msg" VNone)); simpl;
    intros Hrun; right; eapply Hinit; try exact Hrun; reflexivity.
Qed.

Lemma from_response_raises_witness :
  (AttributeError = AttributeError
   /\ forall err,
        get [(KStr "error", VStr "Bad Gateway")] "error"
            (VDict [(KStr "error", VStr "Bad Gateway")]) <> VDict err)
  \/ (AttributeError = TypeError
      /\ exists err,
           get [(KStr "error", VStr "Bad Gateway")] "error"
               (VDict [(KStr "error", VStr "Bad Gateway")]) = VDict err
           /\ as_key (get err "code" VNone) = Raise TypeError)
  \/ (AttributeError = OverflowError
      /\ exists h, @None string = Some h
                   /\ header_ms h = Raise OverflowError).
Proof.
  apply (from_response_raises 502 [(KStr "error", VStr "Bad Gateway")] None
           AttributeError).
  reflexivity.
Defined.

(** X13.  A body without the member ["error"] is read as if it were the error
    map itself: it gives the error of the same body wrapped under
    ["error"], but for [raw], which is the body as received. *)
Theorem from_response_flat_body (http_status : Z) (body : dict)
    (retry_after_header : option string) :
  dict_get body (KStr "error") = None ->
  match from_response http_status body retry_after_header,
        from_response http_status [(KStr "error", VDict body)]
                      retry_after_header with
  | Ok e, Ok e' =>
      raw e = VDict body /\ raw e' = VDict [(KStr "error", VDict body)]
      /\ message e = message e' /\ code e = code e' /\ type e = type e'
      /\ details e = details e' /\ error_subcode e = error_subcode e'
      /\ fbtrace_id e = fbtrace_id e' /\ error_data e = error_data e'
      /\ category e = category e'
      /\ GraphApiError.retry e = GraphApiError.retry e'
  | Raise x, Raise x' => x = x'
  | _, _ => False
  end.
Proof.
  intros Hflat. unfold from_response.
  replace (get body "error" (VDict body)) with (VDict body)
    by (unfold get; rewrite Hflat; reflexivity).
  change (get [(KStr "error", VDict body)] "error"
              (VDict [(KStr "error", VDict body)])) with (VDict body).
  simpl. unfold init.
  destruct (truthy (get body "error_user_msg" VNone)); simpl;
    (destruct (code_arg (get body "code" VNone)) as [c |]; simpl;
       [| reflexivity]);
    (destruct (get_retry_hint _ retry_after_header) as [r |]; simpl;
       [| reflexivity]);
    repeat split.
Qed.

Lemma from_response_flat_body_witness :
  exists e e',
    from_response 401
      [(KStr "message", VStr "Invalid token"); (KStr "code", VInt 190)] None
    = Ok e
    /\ from_response 401
         [(KStr "error",
           VDict [(KStr "message", VStr "Invalid token");
                  (KStr "code", VInt 190)])] None
       = Ok e'
    /\ message e = message e' /\ category e = category e'
    /\ GraphApiError.retry e = GraphApiError.retry e'.
Proof.
  pose proof (from_response_flat_body 401
                [(KStr "message", VStr "Invalid token");
                 (KStr "code", VInt 190)] None eq_refl) as H.
  destruct (from_response 401
              [(KStr "message", VStr "Invalid token"); (KStr "code", VInt 190)]
              None) as [e |]; [| contradiction].
  destruct (from_response 401 [(KStr "error", _)] None) as [e' |];
    [| contradiction].
  exists e, e'. intuition.
Defined.

End ErrorExtras.

(** ** Webhook normalisation: items, raw buckets, sender, metadata *)

Section NormalizeExtras.
Import Types Normalize Spec NormalizeShapes.

Lemma mapM_app {A B} (g : A -> result B) (xs ys : list A) :
  mapM g (xs ++ ys)%list =
    xs' ← mapM g xs; ys' ← mapM g ys; Ok (xs' ++ ys')%list.
Proof.
  induction xs as [| x xs IH]; simpl.
  - destruct (mapM g ys); reflexivity.
  - destruct (g x); simpl; [| reflexivity]. rewrite IH.
    destruct (mapM g xs); simpl; [| reflexivity].
    destruct (mapM g ys); reflexivity.
Qed.

(** A loop that appends one validated item per step collects the items in
    order. *)
Lemma foldM_collect {A B S} (f : S -> A -> result S) (g : A -> result B)
    (proj : S -> list B) :
  (forall st x st', f st x = Ok st' ->
     exists y, g x = Ok y /\ proj st' = (proj st ++ [y])%list) ->
  forall xs st st', foldM f xs st = Ok st' ->
    exists ys, mapM g xs = Ok ys /\ proj st' = (proj st ++ ys)%list.
Proof.
  intros Hf. induction xs as [| x xs IH]; intros st st'; simpl.
  - intros [= <-]. exists []. rewrite app_nil_r. auto.
  - destruct (f st x) as [st1 |] eqn:Hx; simpl; [| discriminate].
    intros Hrest. destruct (Hf _ _ _ Hx) as (y & Hy & Hp).
    destruct (IH _ _ Hrest) as (ys & Hys & Hp').
    exists (y :: ys). rewrite Hy. simpl. rewrite Hys. simpl.
    rewrite Hp', Hp, <- app_assoc. auto.
Qed.

Lemma add_message_collects st msg st' :
  add_message st msg = Ok st' ->
  exists m, normalize_message msg = Ok m
            /\ all_messages st' = (all_messages st ++ [m])%list.
Proof.
  unfold add_message, normalize_message, renamed_message.
  destruct (Case.to_snake_deep msg) as [n |]; simpl; [| discriminate].
  destruct (contains_from n) as [b |]; simpl; [| discriminate].
  destruct (if b then rename_from n else Ok n) as [n' |]; simpl;
    [| discriminate].
  destruct (WebhookMessage.model_validate n') as [m |]; simpl;
    [| discriminate].
  intros [= <-]. exists m. auto.
Qed.

Lemma add_status_collects st s st' :
  add_status st s = Ok st' ->
  exists u, normalize_status s = Ok u
            /\ all_statuses st' = (all_statuses st ++ [u])%list.
Proof.
  unfold add_status, normalize_status.
  destruct (Case.to_snake_deep s) as [n |]; simpl; [| discriminate].
  destruct (MessageStatusUpdate.model_validate n) as [u |]; simpl;
    [| discriminate].
  intros [= <-]. exists u. auto.
Qed.

Lemma add_contact_collects st c st' :
  add_contact st c = Ok st' ->
  exists c', Case.to_snake_deep c = Ok c'
             /\ all_contacts st' = (all_contacts st ++ [c'])%list.
Proof.
  unfold add_contact.
  destruct (Case.to_snake_deep c) as [c' |]; simpl; [| discriminate].
  intros [= <-]. exists c'. auto.
Qed.

Lemma add_message_others st msg st' :
  add_message st msg = Ok st' ->
  all_contacts st' = all_contacts st /\ all_statuses st' = all_statuses st
  /\ raw st' = raw st.
Proof.
  unfold add_message.
  destruct (Case.to_snake_deep msg) as [n |]; simpl; [| discriminate].
  destruct (contains_from n) as [b |]; simpl; [| discriminate].
  destruct (if b then rename_from n else Ok n) as [n' |]; simpl;
    [| discriminate].
  destruct (WebhookMessage.model_validate n') as [m |]; simpl;
    [| discriminate].
  intros [= <-]. auto.
Qed.

Lemma add_status_others st s st' :
  add_status st s = Ok st' ->
  all_contacts st' = all_contacts st /\ all_messages st' = all_messages st
  /\ raw st' = raw st.
Proof.
  unfold add_status.
  destruct (Case.to_snake_deep s) as [n |]; simpl; [| discriminate].
  destruct (MessageStatusUpdate.model_validate n) as [u |]; simpl;
    [| discriminate].
  intros [= <-]. auto.
Qed.

Lemma add_contact_others st c st' :
  add_contact st c = Ok st' ->
  all_messages st' = all_messages st /\ all_statuses st' = all_statuses st
  /\ raw st' = raw st.
Proof.
  unfold add_contact.
  destruct (Case.to_snake_deep c) as [c' |]; simpl; [| discriminate].
  intros [= <-]. auto.
Qed.

Lemma take_metadata_others st metadata st' :
  take_metadata st metadata = Ok st' ->
  collected st' = collected st /\ raw st' = raw st.
Proof.
  unfold take_metadata. destruct (truthy (phone_number_id st)).
  - intros [= <-]. auto.
  - destruct (attr_get metadata "phone_number_id" VNone); simpl;
      [| discriminate].
    destruct (attr_get metadata "display_phone_number" VNone); simpl;
      [| discriminate].
    intros [= <-]. auto.
Qed.

(** One change: the items of the change, validated in order, are appended
    to the three lists. *)
Lemma do_change_collects (st : locals) (change : value) (st' : locals) :
  do_change st change = Ok st' ->
  exists cs ms ss,
    mapM Case.to_snake_deep (change_items "contacts" change) = Ok cs
    /\ mapM normalize_message (change_items "messages" change) = Ok ms
    /\ mapM normalize_status (change_items "statuses" change) = Ok ss
    /\ all_contacts st' = (all_contacts st ++ cs)%list
    /\ all_messages st' = (all_messages st ++ ms)%list
    /\ all_statuses st' = (all_statuses st ++ ss)%list.
Proof.
  unfold do_change, change_items.
  destruct (attr_get change "value" (VDict [])) as [value |]; simpl;
    [| discriminate].
  destruct (attr_get change "field" (VStr "")) as [field |]; simpl;
    [| discriminate].
  destruct (eq_str field "messages"); simpl.
  - destruct (attr_get value "metadata" (VDict [])) as [metadata |]; simpl;
      [| discriminate].
    destruct (take_metadata st metadata) as [st1 |] eqn:H1; simpl;
      [| discriminate].
    apply take_metadata_others in H1 as [H1 _].
    destruct (attr_get value "contacts" (VList []) ≫= iter) as [cs0 |];
      simpl; [| discriminate].
    destruct (foldM add_contact cs0 st1) as [st2 |] eqn:H2; simpl;
      [| discriminate].
    destruct (attr_get value "messages" (VList []) ≫= iter) as [ms0 |];
      simpl; [| discriminate].
    destruct (foldM add_message ms0 st2) as [st3 |] eqn:H3; simpl;
      [| discriminate].
    destruct (attr_get value "statuses" (VList []) ≫= iter) as [ss0 |];
      simpl; [| discriminate].
    intros H4.
    destruct (foldM_collect _ _ all_contacts add_contact_collects _ _ _ H2)
      as (cs & Hcs & Ec).
    destruct (foldM_collect _ _ all_messages add_message_collects _ _ _ H3)
      as (ms & Hms & Em).
    destruct (foldM_collect _ _ all_statuses add_status_collects _ _ _ H4)
      as (ss & Hss & Es).
    exists cs, ms, ss. repeat split; try assumption.
    + rewrite (foldM_keeps _ all_contacts
                 (fun a b c H => proj1 (add_status_others a b c H)) _ _ _ H4).
      rewrite (foldM_keeps _ all_contacts
                 (fun a b c H => proj1 (add_message_others a b c H)) _ _ _ H3).
      rewrite Ec. injection H1 as -> _ _. reflexivity.
    + rewrite (foldM_keeps _ all_messages
                 (fun a b c H => proj1 (proj2 (add_status_others a b c H)))
                 _ _ _ H4).
      rewrite Em.
      rewrite (foldM_keeps _ all_messages
                 (fun a b c H => proj1 (add_contact_others a b c H)) _ _ _ H2).
      injection H1 as _ -> _. reflexivity.
    + rewrite Es.
      rewrite (foldM_keeps _ all_statuses
                 (fun a b c H => proj1 (proj2 (add_message_others a b c H)))
                 _ _ _ H3).
      rewrite (foldM_keeps _ all_statuses
                 (fun a b c H => proj1 (proj2 (add_contact_others a b c H)))
                 _ _ _ H2).
      injection H1 as _ _ ->. reflexivity.
  - destruct (as_key field); simpl; [| discriminate].
    destruct (Case.to_snake_deep value); simpl; [| discriminate].
    intros [= <-]. exists [], [], []. simpl. rewrite !app_nil_r. auto 10.
Qed.

Lemma changes_collect (changes : list value) (st st' : locals) :
  foldM do_change changes st = Ok st' ->
  exists cs ms ss,
    mapM Case.to_snake_deep (flat_map (change_items "contacts") changes)
      = Ok cs
    /\ mapM normalize_message (flat_map (change_items "messages") changes)
       = Ok ms
    /\ mapM normalize_status (flat_map (change_items "statuses") changes)
       = Ok ss
    /\ all_contacts st' = (all_contacts st ++ cs)%list
    /\ all_messages st' = (all_messages st ++ ms)%list
    /\ all_statuses st' = (all_statuses st ++ ss)%list.
Proof.
  revert st. induction changes as [| c changes IH]; intros st.
  - intros [= <-]. exists [], [], []. simpl. rewrite !app_nil_r. auto 10.
  - rewrite foldM_cons.
    destruct (do_change st c) as [st1 |] eqn:H1; [| discriminate].
    intros Hrest. change (foldM do_change changes st1 = Ok st') in Hrest.
    destruct (do_change_collects _ _ _ H1)
      as (cs1 & ms1 & ss1 & Hc1 & Hm1 & Hs1 & Ec1 & Em1 & Es1).
    destruct (IH _ Hrest) as (cs & ms & ss & Hc & Hm & Hs & Ec & Em & Es).
    exists (cs1 ++ cs)%list, (ms1 ++ ms)%list, (ss1 ++ ss)%list.
    cbn [flat_map]. rewrite !mapM_app, Hc1, Hm1, Hs1, Hc, Hm, Hs.
    rewrite Ec, Em, Es, Ec1, Em1, Es1, <- !app_assoc. auto 10.
Qed.

Lemma normalize_webhook_run (payload : dict) (w : NormalizedWebhook.t) :
  normalize_webhook (VDict payload) = Ok w ->
  exists st,
    foldM do_change (payload_changes payload) initial = Ok st
    /\ NormalizedWebhook.init (get payload "object" VNone)
         (phone_number_id st) (display_phone_number st) (all_contacts st)
         (all_messages st) (all_statuses st) (raw st) = Ok w.
Proof.
  unfold normalize_webhook, payload_changes.
  destruct (iter (get payload "entry" (VList []))) as [entries |]; simpl;
    [| discriminate].
  assert (Hflat : forall st,
    (exists e, foldM do_entry entries st = Raise e)
    \/ exists chss, mapM entry_changes entries = Ok chss
         /\ foldM do_entry entries st = foldM do_change (concat chss) st).
  { induction entries as [| entry entries IH]; intros st.
    - right. exists []. auto.
    - rewrite foldM_cons, do_entry_changes.
      change (mapM entry_changes (entry :: entries)) with
        (entry_changes entry ≫= fun y =>
           mapM entry_changes entries ≫= fun ys => Ok (y :: ys)).
      destruct (entry_changes entry) as [changes | e]; [| left; eauto].
      change (Ok changes ≫= ?k) with (k changes). cbv beta.
      destruct (foldM do_change changes st) as [st1 | e] eqn:H1;
        [| left; eauto].
      change (Ok st1 ≫= ?k) with (k st1).
      destruct (IH st1) as [[e He] | (chss & Hch & Hf)]; [left; eauto |].
      right. exists (changes :: chss). rewrite Hch. split; [reflexivity |].
      change (concat (changes :: chss)) with (changes ++ concat chss)%list.
      rewrite foldM_app, H1. exact Hf. }
  destruct (Hflat initial) as [[e He] | (chss & Hch & Hf)].
  - rewrite He. discriminate.
  - rewrite Hch, Hf.
    destruct (foldM do_change (concat chss) initial) as [st |]; simpl;
      [| discriminate].
    intros Hw. exists st. auto.
Qed.

(** X14.  The messages and the status updates of the normalised webhook are the
    items of the ["messages"] changes of the payload, each converted and
    validated on its own, kept in the order of the payload; so are the
    contacts, converted to snake case. *)
Theorem normalize_webhook_items (payload : dict) (w : NormalizedWebhook.t) :
  normalize_webhook (VDict payload) = Ok w ->
  mapM normalize_message
    (flat_map (change_items "messages") (payload_changes payload))
    = Ok (NormalizedWebhook.messages w)
  /\ mapM normalize_status
       (flat_map (change_items "statuses") (payload_changes payload))
     = Ok (NormalizedWebhook.statuses w)
  /\ mapM Case.to_snake_deep
       (flat_map (change_items "contacts") (payload_changes payload))
     = Ok (map VDict (NormalizedWebhook.contacts w)).
Proof.
  intros Hw. destruct (normalize_webhook_run _ _ Hw) as (st & Hst & Hinit).
  destruct (changes_collect _ _ _ Hst)
    as (cs & ms & ss & Hc & Hm & Hs & Ec & Em & Es).
  simpl in Ec, Em, Es.
  unfold NormalizedWebhook.init in Hinit.
  destruct (Types.optional as_str (get payload "object" VNone)); simpl in Hinit;
    [| discriminate].
  destruct (Types.optional as_str (phone_number_id st)); simpl in Hinit;
    [| discriminate].
  destruct (Types.optional as_str (display_phone_number st)); simpl in Hinit;
    [| discriminate].
  destruct (mapM as_dict (all_contacts st)) as [ds |] eqn:Hds; simpl in Hinit;
    [| discriminate].
  destruct (NormalizedWebhook.as_raw (raw st)); simpl in Hinit;
    [| discriminate].
  injection Hinit as <-. simpl. rewrite Em, Es. repeat split; try assumption.
  rewrite Hc, <- Ec. f_equal.
  clear -Hds. revert ds Hds. generalize (all_contacts st).
  induction l as [| c l IH]; intros ds; simpl.
  - intros [= <-]. reflexivity.
  - destruct c; simpl; try discriminate.
    destruct (str_keys d); simpl; [| discriminate].
    destruct (mapM as_dict l); simpl; [| discriminate].
    intros [= <-]. simpl. rewrite <- (IH _ eq_refl). reflexivity.
Qed.

Lemma normalize_webhook_items_witness :
  exists w,
    normalize_webhook (VDict two_entries) = Ok w
    /\ mapM normalize_message
         [inbound_message "wamid.1" "5511"; inbound_message "wamid.2" "5512";
          inbound_message "wamid.3" "5513"]
       = Ok (NormalizedWebhook.messages w)
    /\ map WebhookMessage.id (NormalizedWebhook.messages w)
       = ["wamid.1"; "wamid.2"; "wamid.3"].
Proof.
  eexists. split; [vm_compute; reflexivity |]. split.
  - refine (proj1 (normalize_webhook_items two_entries _ _)).
    vm_compute. reflexivity.
  - reflexivity.
Defined.

Lemma dict_set_Forall (P : key * value -> Prop) (d : dict) (k : key)
    (v : value) :
  Forall P d -> P (k, v) -> Forall P (dict_set d k v).
Proof.
  intros Hd Hkv. induction Hd as [| [k0 v0] d H0 Hd IH]; simpl.
  - constructor; [exact Hkv | constructor].
  - destruct (decide (k0 = k)); constructor; assumption.
Qed.

Lemma raw_append_ok (raw : dict) (field : key) (item : value) :
  field <> KStr "messages" ->
  NoDup (keys raw) /\ Forall raw_item_ok raw ->
  NoDup (keys (raw_append raw field item))
  /\ Forall raw_item_ok (raw_append raw field item).
Proof.
  intros Hfield [Hnd Hall]. unfold raw_append.
  destruct (dict_get raw field) as [[| | | | | l |] |];
    (split; [apply dict_set_NoDup; exact Hnd |]);
    (apply dict_set_Forall; [exact Hall |]);
    (split; [exact Hfield |]); simpl; eauto.
  destruct l as [| x l]; simpl; eauto.
Qed.

Lemma foldM_invariant {A S} (f : S -> A -> result S) (I : S -> Prop) :
  (forall st x st', f st x = Ok st' -> I st -> I st') ->
  forall xs st st', foldM f xs st = Ok st' -> I st -> I st'.
Proof.
  intros Hf. induction xs as [| x xs IH]; intros st st'; simpl.
  - intros [= <-]. auto.
  - destruct (f st x) as [st1 |] eqn:Hx; simpl; [| discriminate].
    intros Hrest Hst. eapply IH; [exact Hrest |]. eapply Hf; eassumption.
Qed.

Lemma do_change_raw_ok (st : locals) (change : value) (st' : locals) :
  do_change st change = Ok st' ->
  NoDup (keys (raw st)) /\ Forall raw_item_ok (raw st) ->
  NoDup (keys (raw st')) /\ Forall raw_item_ok (raw st').
Proof.
  unfold do_change.
  destruct (attr_get change "value" (VDict [])) as [value |]; simpl;
    [| discriminate].
  destruct (attr_get change "field" (VStr "")) as [field |]; simpl;
    [| discriminate].
  destruct (eq_str field "messages") eqn:Hfield; simpl.
  - destruct (attr_get value "metadata" (VDict [])) as [metadata |]; simpl;
      [| discriminate].
    destruct (take_metadata st metadata) as [st1 |] eqn:H1; simpl;
      [| discriminate].
    apply take_metadata_others in H1 as [_ H1].
    destruct (attr_get value "contacts" (VList []) ≫= iter) as [cs0 |];
      simpl; [| discriminate].
    destruct (foldM add_contact cs0 st1) as [st2 |] eqn:H2; simpl;
      [| discriminate].
    destruct (attr_get value "messages" (VList []) ≫= iter) as [ms0 |];
      simpl; [| discriminate].
    destruct (foldM add_message ms0 st2) as [st3 |] eqn:H3; simpl;
      [| discriminate].
    destruct (attr_get value "statuses" (VList []) ≫= iter) as [ss0 |];
      simpl; [| discriminate].
    intros H4.
    rewrite (foldM_keeps _ raw
               (fun a b c H => proj2 (proj2 (add_status_others a b c H)))
               _ _ _ H4).
    rewrite (foldM_keeps _ raw
               (fun a b c H => proj2 (proj2 (add_message_others a b c H)))
               _ _ _ H3).
    rewrite (foldM_keeps _ raw
               (fun a b c H => proj2 (proj2 (add_contact_others a b c H)))
               _ _ _ H2).
    rewrite H1. auto.
  - destruct (as_key field) as [k |] eqn:Hk; simpl; [| discriminate].
    destruct (Case.to_snake_deep value); simpl; [| discriminate].
    intros [= <-]. simpl. apply raw_append_ok.
    intros ->. destruct field; simpl in Hk; try discriminate.
    + destruct (integral f); discriminate.
    + injection Hk as ->. discriminate.
Qed.

(** X15.  The [raw] of the normalised webhook has pairwise distinct fields, never
    the field ["messages"], and no empty bucket. *)
Theorem normalize_webhook_raw (payload : value) (w : NormalizedWebhook.t) :
  normalize_webhook payload = Ok w ->
  NoDup (map fst (NormalizedWebhook.raw w))
  /\ Forall (fun kl => fst kl <> "messages" /\ snd kl <> [])
       (NormalizedWebhook.raw w).
Proof.
  destruct payload as [| | | | | | payload];
    try (intros [= <-]; split; constructor).
  intros Hw. destruct (normalize_webhook_run _ _ Hw) as (st & Hst & Hinit).
  assert (Hraw : NoDup (keys (raw st)) /\ Forall raw_item_ok (raw st)).
  { refine (foldM_invariant do_change
              (fun st => NoDup (keys (raw st)) /\ Forall raw_item_ok (raw st))
              do_change_raw_ok _ _ _ Hst _).
    split; constructor. }
  unfold NormalizedWebhook.init in Hinit.
  destruct (Types.optional as_str (get payload "object" VNone)); simpl in Hinit;
    [| discriminate].
  destruct (Types.optional as_str (phone_number_id st)); simpl in Hinit;
    [| discriminate].
  destruct (Types.optional as_str (display_phone_number st)); simpl in Hinit;
    [| discriminate].
  destruct (mapM as_dict (all_contacts st)); simpl in Hinit; [| discriminate].
  destruct (NormalizedWebhook.as_raw (raw st)) as [r |] eqn:Hr;
    simpl in Hinit; [| discriminate].
  injection Hinit as <-. simpl.
  clear -Hraw Hr. revert r Hr. destruct Hraw as [Hnd Hall].
  unfold NormalizedWebhook.as_raw, keys in *.
  induction (raw st) as [| [k v] d IH]; intros r; simpl.
  - intros [= <-]. split; constructor.
  - destruct k as [s | | |]; try discriminate.
    destruct (as_dict_list v) as [l |] eqn:Hl; simpl; [| discriminate].
    destruct (mapM _ d) as [r' |] eqn:Hr'; simpl; [| discriminate].
    intros [= <-]. simpl in Hnd. apply NoDup_cons in Hnd as [Hfresh Hnd].
    apply Forall_cons in Hall as [[Hs (x & l0 & Hv)] Hall].
    destruct (IH Hnd Hall r' eq_refl) as [IH1 IH2].
    simpl in Hs, Hv. subst v. split.
    + simpl. apply NoDup_cons. split; [| exact IH1].
      intros Hin. apply Hfresh. clear -Hin Hr'.
      revert r' Hr' Hin. induction d as [| [k1 v1] d IHd]; intros r'; simpl.
      * intros [= <-] Hin. apply elem_of_nil in Hin as [].
      * destruct k1 as [s1 | | |]; try discriminate.
        destruct (as_dict_list v1); simpl; [| discriminate].
        destruct (mapM _ d) as [r1 |]; simpl; [| discriminate].
        intros [= <-]. simpl. rewrite !elem_of_cons.
        intros [-> | Hin]; [left; reflexivity | right].
        apply (IHd r1 eq_refl Hin).
    + constructor; [| exact IH2]. simpl. split; [congruence |].
      simpl in Hl. destruct (as_dict x); simpl in Hl; [| discriminate].
      destruct (mapM as_dict l0); simpl in Hl; [| discriminate].
      injection Hl as <-. discriminate.
Qed.

Lemma normalize_webhook_raw_witness :
  exists w,
    normalize_webhook (VDict two_entries) = Ok w
    /\ map fst (NormalizedWebhook.raw w) = ["account_alerts"]
    /\ Forall (fun kl => fst kl <> "messages" /\ snd kl <> [])
         (NormalizedWebhook.raw w).
Proof.
  eexists. split; [vm_compute; reflexivity |]. split; [reflexivity |].
  refine (proj2 (normalize_webhook_raw (VDict two_entries) _ _)).
  vm_compute. reflexivity.
Defined.

Lemma dict_get_del (d : dict) (k k' : key) :
  NoDup (keys d) ->
  dict_get (dict_del d k) k' =
    if decide (k = k') then None else dict_get d k'.
Proof.
  unfold keys. induction d as [| [k0 v0] d IH]; simpl; intros Hnd.
  - destruct (decide (k = k')); reflexivity.
  - apply NoDup_cons in Hnd as [Hfresh Hnd].
    destruct (decide (k0 = k)) as [-> | Hne].
    + destruct (decide (k = k')) as [<- | Hne'].
      * clear -Hfresh. induction d as [| [k1 v1] d IHd]; [reflexivity |].
        simpl in *. destruct (decide (k1 = k)) as [-> | _].
        -- exfalso. apply Hfresh, list_elem_of_here.
        -- apply IHd. intros Hin. apply Hfresh, list_elem_of_further, Hin.
      * reflexivity.
    + simpl. destruct (decide (k0 = k')) as [-> | Hne'].
      * rewrite decide_False by congruence. reflexivity.
      * apply IH, Hnd.
Qed.

(** X16.  The sender of a message: ["from"] is never a key of the dict that is
    validated; ["from_"] holds the value the item had under ["from_"], and
    the value it had under ["from"] only if it had no ["from_"]; every other
    key is as [to_snake_deep] left it. *)
Theorem renamed_message_lookup (msg : value) (d : dict) :
  Case.to_snake_deep msg = Ok (VDict d) ->
  exists d',
    renamed_message msg = Ok (VDict d')
    /\ dict_get d' (KStr "from") = None
    /\ dict_get d' (KStr "from_") =
         match dict_get d (KStr "from_") with
         | Some x => Some x
         | None => dict_get d (KStr "from")
         end
    /\ forall k, k <> KStr "from" -> k <> KStr "from_" ->
                 dict_get d' k = dict_get d k.
Proof.
  intros Hd. unfold renamed_message. rewrite Hd. simpl.
  assert (Hnd : NoDup (keys d)).
  { destruct (deep_inv Case.to_snake (fun _ => true) Case.to_snake_deep)
      with (v := msg) (w := VDict d) as [_ Hk];
      [intros []; reflexivity | reflexivity | exact Hd |].
    simpl in Hk. apply andb_prop in Hk as [Hk _].
    apply bool_decide_eq_true in Hk. exact Hk. }
  unfold dict_mem.
  destruct (dict_get d (KStr "from")) as [x |] eqn:Hfrom.
  - rewrite bool_decide_eq_true_2 by eauto. simpl.
    pose proof (dict_get_del d (KStr "from") (KStr "from_") Hnd) as Hdel.
    rewrite decide_False in Hdel by discriminate.
    destruct (dict_get d (KStr "from_")) as [y |] eqn:Hfrom_.
    + rewrite bool_decide_eq_true_2 by (rewrite Hdel; eauto).
      eexists. split; [reflexivity |]. repeat split.
      * rewrite dict_get_del, decide_True by auto. reflexivity.
      * exact Hdel.
      * intros k Hk _. rewrite dict_get_del, decide_False by auto.
        reflexivity.
    + rewrite bool_decide_eq_false_2
        by (rewrite Hdel; intros [? ?]; discriminate).
      eexists. split; [reflexivity |]. repeat split.
      * rewrite dict_get_set, decide_False by discriminate.
        rewrite dict_get_del, decide_True by auto. reflexivity.
      * rewrite dict_get_set, decide_True by reflexivity. reflexivity.
      * intros k Hk Hk'. rewrite dict_get_set, decide_False by congruence.
        rewrite dict_get_del, decide_False by auto. reflexivity.
  - rewrite bool_decide_eq_false_2 by (intros [? ?]; discriminate). simpl.
    exists d. split; [reflexivity |]. split; [exact Hfrom |].
    split; [| reflexivity].
    destruct (dict_get d (KStr "from_")); reflexivity.
Qed.

Lemma renamed_message_lookup_witness :
  exists d',
    renamed_message
      (VDict [(KStr "id", VStr "wamid.1"); (KStr "from", VStr "5511");
              (KStr "from_", VStr "5599")]) = Ok (VDict d')
    /\ dict_get d' (KStr "from") = None
    /\ dict_get d' (KStr "from_") = Some (VStr "5599").
Proof.
  destruct (renamed_message_lookup
              (VDict [(KStr "id", VStr "wamid.1"); (KStr "from", VStr "5511");
                      (KStr "from_", VStr "5599")])
              [(KStr "id", VStr "wamid.1"); (KStr "from", VStr "5511");
               (KStr "from_", VStr "5599")] eq_refl)
    as (d' & H1 & H2 & H3 & _).
  exists d'. auto.
Defined.

Lemma changes_split (changes : list value) :
  existsb offers_id changes = true ->
  exists before change after,
    changes = (before ++ change :: after)%list
    /\ Forall (fun c => offers_id c = false) before
    /\ offers_id change = true.
Proof.
  induction changes as [| c changes IH]; simpl; [discriminate |].
  destruct (offers_id c) eqn:Hc; simpl.
  - intros _. exists [], c, changes. auto.
  - intros H. destruct (IH H) as (before & change & after & -> & Hb & Ho).
    exists (c :: before), change, after. auto.
Qed.

(** X17.  The normalised webhook has a [phone_number_id] that is not empty
    exactly when some ["messages"] change of the payload has one in its
    metadata. *)
Theorem phone_number_id_present_iff (payload : dict)
    (w : NormalizedWebhook.t) :
  normalize_webhook (VDict payload) = Ok w ->
  (existsb offers_id (payload_changes payload) = true <->
   exists s, NormalizedWebhook.phone_number_id w = Some s /\ s <> "").
Proof.
  intros Hw. destruct (normalize_webhook_run _ _ Hw) as (st & Hst & Hinit).
  assert (Hpid : Types.optional as_str (phone_number_id st)
                 = Ok (NormalizedWebhook.phone_number_id w)).
  { unfold NormalizedWebhook.init in Hinit.
    destruct (Types.optional as_str (get payload "object" VNone));
      simpl in Hinit; [| discriminate].
    destruct (Types.optional as_str (phone_number_id st)); simpl in Hinit;
      [| discriminate].
    destruct (Types.optional as_str (display_phone_number st));
      simpl in Hinit; [| discriminate].
    destruct (mapM as_dict (all_contacts st)); simpl in Hinit;
      [| discriminate].
    destruct (NormalizedWebhook.as_raw (raw st)); simpl in Hinit;
      [| discriminate].
    injection Hinit as <-. reflexivity. }
  apply optional_as_str in Hpid.
  assert (Htruthy : truthy (phone_number_id st) = true <->
            exists s, NormalizedWebhook.phone_number_id w = Some s /\ s <> "").
  { rewrite <- Hpid.
    destruct (NormalizedWebhook.phone_number_id w) as [s |]; simpl.
    - rewrite negb_true_iff, bool_decide_eq_false. split.
      + intros Hs. exists s. auto.
      + intros (s' & [= <-] & Hs). exact Hs.
    - split; [discriminate | intros (s & Hs & _); discriminate]. }
  rewrite <- Htruthy. clear Htruthy Hpid Hinit Hw.
  destruct (existsb offers_id (payload_changes payload)) eqn:Hex.
  - split; [intros _ | reflexivity].
    destruct (changes_split _ Hex)
      as (before & change & after & Hsplit & Hbefore & Hchange).
    rewrite Hsplit, foldM_app in Hst.
    destruct (foldM do_change before initial) as [st1 |] eqn:H1;
      simpl in Hst; [| discriminate].
    destruct (do_change st1 change) as [st2 |] eqn:H2; simpl in Hst;
      [| discriminate].
    apply changes_without_id in H1; [| reflexivity | exact Hbefore].
    apply do_change_held in H2. rewrite H1 in H2.
    unfold offers_id in Hchange.
    destruct (change_metadata change) as [[pid dpn] |]; [| discriminate].
    simpl in H2. injection H2 as Hp _.
    apply changes_keep_held in Hst; [| rewrite Hp; exact Hchange].
    injection Hst as -> _. rewrite Hp. exact Hchange.
  - split; [discriminate |]. intros Ht.
    apply changes_without_id in Hst; [congruence | reflexivity |].
    apply Forall_forall. intros c Hc.
    destruct (offers_id c) eqn:Ho; [| reflexivity].
    rewrite <- Hex. symmetry. apply existsb_exists. exists c.
    split; [| exact Ho]. apply list_elem_of_In. exact Hc.
Qed.

Lemma phone_number_id_present_iff_witness :
  exists w,
    normalize_webhook (VDict two_entries) = Ok w
    /\ (existsb offers_id (payload_changes two_entries) = true <->
        exists s, NormalizedWebhook.phone_number_id w = Some s /\ s <> "").
Proof.
  eexists. split; [vm_compute; reflexivity |].
  apply (phone_number_id_present_iff two_entries).
  vm_compute. reflexivity.
Defined.

End NormalizeExtras.

(** ** Exceptions of the normaliser *)

Section RaisesExtras.
Import Types Normalize Spec NormalizeShapes Raises.

Ltac mem :=
  first [ rewrite !elem_of_cons; tauto
        | intros ?; rewrite !elem_of_cons, elem_of_nil; tauto ].

Lemma only_ok {A} (E : list exn) (a : A) : only E (Ok a).
Proof. intros e. discriminate. Qed.

Lemma only_raise {A} (E : list exn) (e : exn) :
  e ∈ E -> only E (@Raise A e).
Proof. intros He e' [= <-]. exact He. Qed.

Lemma only_bind {A B} (E : list exn) (m : result A) (k : A -> result B) :
  only E m -> (forall a, m = Ok a -> only E (k a)) -> only E (m ≫= k).
Proof.
  intros Hm Hk e. destruct m as [a | e']; simpl.
  - apply (Hk a eq_refl).
  - intros [= <-]. apply Hm. reflexivity.
Qed.

Lemma only_fmap {A B} (E : list exn) (m : result A) (f : A -> B) :
  only E m -> only E (f <$> m).
Proof.
  intros Hm e. destruct m as [a | e']; simpl; [discriminate |].
  intros [= <-]. apply Hm. reflexivity.
Qed.

Lemma only_mono {A} (E E' : list exn) (m : result A) :
  E ⊆ E' -> only E m -> only E' m.
Proof. intros Hsub Hm e He. apply Hsub, Hm, He. Qed.

Lemma only_mapM {A B} (E : list exn) (f : A -> result B) (l : list A) :
  (forall x, only E (f x)) -> only E (mapM f l).
Proof.
  intros Hf. induction l as [| x l IH]; simpl; [apply only_ok |].
  apply only_bind; [apply Hf | intros y _].
  apply only_bind; [exact IH | intros ys _; apply only_ok].
Qed.

Lemma only_foldM {A S} (E : list exn) (f : S -> A -> result S)
    (l : list A) :
  (forall st x, only E (f st x)) -> forall st, only E (foldM f l st).
Proof.
  intros Hf. induction l as [| x l IH]; intros st; [apply only_ok |].
  rewrite foldM_cons. apply only_bind; [apply Hf | intros st' _; apply IH].
Qed.

Lemma only_attr_get (x : value) (k : string) (d : value) :
  only [AttributeError] (attr_get x k d).
Proof.
  destruct x; simpl; first [apply only_ok | apply only_raise; mem].
Qed.

Lemma only_iter (v : value) : only [TypeError] (iter v).
Proof.
  destruct v; simpl; first [apply only_ok | apply only_raise; mem].
Qed.

Lemma only_as_key (v : value) : only [TypeError] (as_key v).
Proof.
  destruct v; simpl; first [apply only_ok | apply only_raise; mem].
Qed.

Lemma only_to_snake_deep (v : value) :
  only [TypeError] (Case.to_snake_deep v).
Proof.
  intros e He.
  rewrite (deep_raise Case.to_snake Case.to_snake_deep
             ltac:(intros []; reflexivity) v e He).
  mem.
Qed.

Lemma only_as_str (v : value) : only [ValidationError] (as_str v).
Proof.
  destruct v; simpl; first [apply only_ok | apply only_raise; mem].
Qed.

Lemma only_as_dict (v : value) : only [ValidationError] (as_dict v).
Proof.
  destruct v; simpl; try (apply only_raise; mem).
  destruct (str_keys d); [apply only_ok | apply only_raise; mem].
Qed.

Lemma only_as_dict_list (v : value) :
  only [ValidationError] (as_dict_list v).
Proof.
  destruct v; simpl; try (apply only_raise; mem).
  apply only_mapM, only_as_dict.
Qed.

Lemma only_optional {A} (E : list exn) (f : value -> result A) (v : value) :
  (forall x, only E (f x)) -> only E (Types.optional f v).
Proof.
  intros Hf. destruct v; simpl; first [apply only_ok | apply only_fmap, Hf].
Qed.

Lemma only_field_opt {A} (f : value -> result A) (d : dict)
    (alias name : string) :
  (forall x, only [ValidationError] (f x)) ->
  only [ValidationError] (field_opt f d alias name).
Proof.
  intros Hf. unfold field_opt.
  destruct (dict_get d _); [apply only_optional, Hf | apply only_ok].
Qed.

Lemma only_field_req {A} (f : value -> result A) (d : dict)
    (alias name : string) :
  (forall x, only [ValidationError] (f x)) ->
  only [ValidationError] (field_req f d alias name).
Proof.
  intros Hf. unfold field_req.
  destruct (dict_get d _); [apply Hf | apply only_raise; mem].
Qed.

Ltac only_fields :=
  repeat first
    [ apply only_ok
    | apply only_raise; mem
    | apply only_bind; [| intros ? _]
    | apply only_field_opt; intros ?
    | apply only_field_req; intros ?
    | apply only_as_str | apply only_as_dict | apply only_as_dict_list ].

Lemma only_context_validate (v : value) :
  only [ValidationError] (WebhookMessageContext.model_validate v).
Proof.
  destruct v; simpl; try (apply only_raise; mem). only_fields.
Qed.

Lemma only_message_validate (v : value) :
  only [ValidationError] (WebhookMessage.model_validate v).
Proof.
  destruct v; simpl; try (apply only_raise; mem).
  destruct (str_keys d); [| apply only_raise; mem].
  repeat first
    [ apply only_ok
    | apply only_bind; [| intros ? _]
    | apply only_field_opt; intros ?
    | apply only_field_req; intros ?
    | apply only_context_validate
    | apply only_as_str | apply only_as_dict | apply only_as_dict_list ].
Qed.

Lemma only_status_validate (v : value) :
  only [ValidationError] (MessageStatusUpdate.model_validate v).
Proof.
  destruct v; simpl; try (apply only_raise; mem).
  destruct (str_keys d); [| apply only_raise; mem].
  only_fields.
Qed.

Ltac only_steps :=
  repeat first
    [ apply only_ok
    | apply only_raise; mem
    | apply (only_mono [AttributeError]); [mem | apply only_attr_get]
    | apply (only_mono [TypeError]); [mem | apply only_iter]
    | apply (only_mono [TypeError]); [mem | apply only_as_key]
    | apply (only_mono [TypeError]); [mem | apply only_to_snake_deep]
    | apply only_bind; [| intros ? _] ].

Lemma only_add_message (st : locals) (msg : value) :
  only [AttributeError; TypeError; ValidationError] (add_message st msg).
Proof.
  unfold add_message.
  apply only_bind; [only_steps | intros n _].
  apply only_bind; [destruct n; simpl; only_steps | intros b _].
  apply only_bind;
    [destruct b; [destruct n; simpl; only_steps | apply only_ok]
    | intros n' _].
  apply only_bind; [| intros m _; apply only_ok].
  apply (only_mono [ValidationError]); [mem | apply only_message_validate].
Qed.

Lemma only_add_status (st : locals) (status : value) :
  only [AttributeError; TypeError; ValidationError] (add_status st status).
Proof.
  unfold add_status.
  apply only_bind; [only_steps | intros n _].
  apply only_bind; [| intros u _; apply only_ok].
  apply (only_mono [ValidationError]); [mem | apply only_status_validate].
Qed.

Lemma only_add_contact (st : locals) (c : value) :
  only [AttributeError; TypeError; ValidationError] (add_contact st c).
Proof.
  unfold add_contact.
  apply only_bind; [only_steps | intros c' _; apply only_ok].
Qed.

Lemma only_items (value : value) (name : string) :
  only [AttributeError; TypeError; ValidationError]
    (attr_get value name (VList []) ≫= iter).
Proof. only_steps. Qed.

Lemma only_do_change (st : locals) (change : value) :
  only [AttributeError; TypeError; ValidationError] (do_change st change).
Proof.
  unfold do_change.
  apply only_bind; [only_steps | intros value _].
  apply only_bind; [only_steps | intros field _].
  destruct (negb (eq_str field "messages")).
  - apply only_bind; [only_steps | intros k _].
    apply only_bind; [only_steps | intros item _; apply only_ok].
  - apply only_bind; [only_steps | intros metadata _].
    apply only_bind.
    { unfold take_metadata. destruct (truthy _); [apply only_ok |].
      apply only_bind; [only_steps | intros pid _].
      apply only_bind; [only_steps | intros dpn _; apply only_ok]. }
    intros st1 _.
    apply only_bind; [apply only_items | intros cs _].
    apply only_bind;
      [apply only_foldM; intros; apply only_add_contact | intros st2 _].
    apply only_bind; [apply only_items | intros ms _].
    apply only_bind;
      [apply only_foldM; intros; apply only_add_message | intros st3 _].
    apply only_bind; [apply only_items | intros ss _].
    apply only_foldM; intros; apply only_add_status.
Qed.

Lemma only_do_entry (st : locals) (entry : value) :
  only [AttributeError; TypeError; ValidationError] (do_entry st entry).
Proof.
  unfold do_entry.
  apply only_bind; [apply only_items | intros changes _].
  apply only_foldM; intros; apply only_do_change.
Qed.

Lemma only_init (object pid dpn : value) (contacts : list value)
    (messages : list WebhookMessage.t)
    (statuses : list MessageStatusUpdate.t) (raw : dict) :
  only [ValidationError]
    (NormalizedWebhook.init object pid dpn contacts messages statuses raw).
Proof.
  unfold NormalizedWebhook.init.
  apply only_bind; [apply only_optional, only_as_str | intros o _].
  apply only_bind; [apply only_optional, only_as_str | intros p _].
  apply only_bind; [apply only_optional, only_as_str | intros d _].
  apply only_bind; [apply only_mapM, only_as_dict | intros cs _].
  apply only_bind; [| intros r _; apply only_ok].
  unfold NormalizedWebhook.as_raw. apply only_mapM. intros [k v]. simpl.
  destruct k; try (apply only_raise; mem).
  apply only_bind; [apply only_as_dict_list | intros ? _; apply only_ok].
Qed.

(** X18.  On any payload [normalize_webhook] raises nothing but AttributeError
    (a member that should be a map is not), TypeError (a member that should
    be a list cannot be iterated, or a key or field cannot be hashed) and
    the ValidationError of the models. *)
Theorem normalize_webhook_raises (payload : value) (e : exn) :
  normalize_webhook payload = Raise e ->
  e ∈ [AttributeError; TypeError; ValidationError].
Proof.
  revert e. change (only [AttributeError; TypeError; ValidationError]
                      (normalize_webhook payload)).
  destruct payload; simpl; try apply only_ok.
  apply only_bind;
    [apply (only_mono [TypeError]); [mem | apply only_iter]
    | intros entries _].
  apply only_bind;
    [apply only_foldM; intros; apply only_do_entry | intros st _].
  apply (only_mono [ValidationError]); [mem | apply only_init].
Qed.

Lemma normalize_webhook_raises_witness :
  ValidationError ∈ [AttributeError; TypeError; ValidationError].
Proof.
  apply (normalize_webhook_raises
           (VDict (one_entry
              [full_change "111" [] [VDict [(KStr "id", VStr "wamid.1")]] []]))
           ValidationError).
  vm_compute. reflexivity.
Defined.

End RaisesExtras.

(** ** Event dispatch *)

Section DispatcherExtras.
Import Types Events Dispatcher Spec NormalizeShapes EventShapes.

Variable json_loads : string -> result value.
Variable str_of : value -> string.

(** X19.  Every event that [_map_message] returns is a message event with the
    base fields of the message: the [phone_number_id] given, the id and the
    timestamp of the message, its sender or the empty string, and its
    context if that is not empty. *)
Theorem _map_message_base (msg : WebhookMessage.t) (pid : option string)
    (event : WhatsAppEvent) :
  _map_message json_loads str_of msg pid = Ok event ->
  message_base event = Some (_base_kwargs msg pid)
  /\ phone_number_id (_base_kwargs msg pid) = pid
  /\ message_id (_base_kwargs msg pid) = WebhookMessage.id msg
  /\ timestamp (_base_kwargs msg pid) = WebhookMessage.timestamp msg
  /\ from_number (_base_kwargs msg pid)
     = default "" (WebhookMessage.from_ msg)
  /\ context (_base_kwargs msg pid) <> Some [].
Proof.
  intros Hev. split.
  - unfold _map_message in Hev.
    repeat case_decide; try (injection Hev as <-; reflexivity).
    unfold _map_interactive in Hev.
    repeat (destruct (eq_str _ _); simpl in Hev);
      repeat match type of Hev with
             | context [attr_get ?x ?k ?d] =>
                 destruct (attr_get x k d); simpl in Hev; [| discriminate]
             | context [match ?v with VStr _ => _ | _ => _ end] =>
                 destruct v; simpl in Hev
             | context [loads_or_empty ?l ?s] =>
                 destruct (loads_or_empty l s); simpl in Hev; [| discriminate]
             end;
      try (injection Hev as <-; reflexivity); try discriminate.
  - repeat split. unfold _base_kwargs. simpl.
    destruct (WebhookMessage.context msg) as [c |]; [| discriminate].
    destruct (WebhookMessageContext.model_dump c); discriminate.
Qed.

Lemma emit_each_stops {A} (f : A -> result WhatsAppEvent)
    (before after : list A) (x : A) (events emitted : list WhatsAppEvent)
    (e : exn) :
  mapM f before = Ok events -> f x = Raise e ->
  emit_each f (before ++ x :: after)%list emitted
    = ((emitted ++ events)%list, Raise e).
Proof.
  revert events emitted.
  induction before as [| y before IH]; intros events emitted; simpl.
  - intros [= <-] ->. rewrite app_nil_r. reflexivity.
  - destruct (f y) as [ev |]; simpl; [| discriminate].
    destruct (mapM f before) as [evs |]; simpl; [| discriminate].
    intros [= <-] Hx. rewrite (IH evs _ eq_refl Hx), <- app_assoc.
    reflexivity.
Qed.

(** X20.  When the mapping of a message fails, [dispatch_webhook] ends with that
    exception: the events of the messages before it have been emitted, and
    nothing else is, neither for the messages after it nor for any status
    update of the webhook. *)
Theorem dispatch_webhook_stops_at_failure (webhook : NormalizedWebhook.t)
    (before after : list WebhookMessage.t) (msg : WebhookMessage.t)
    (events emitted : list WhatsAppEvent) (e : exn) :
  NormalizedWebhook.messages webhook = (before ++ msg :: after)%list ->
  mapM (fun m => _map_message json_loads str_of m
                   (NormalizedWebhook.phone_number_id webhook)) before
    = Ok events ->
  _map_message json_loads str_of msg
    (NormalizedWebhook.phone_number_id webhook) = Raise e ->
  dispatch_webhook json_loads str_of webhook emitted
    = ((emitted ++ events)%list, Raise e).
Proof.
  intros Hmsgs Hbefore Hmsg. unfold dispatch_webhook. rewrite Hmsgs.
  rewrite (emit_each_stops _ _ _ _ _ _ _ Hbefore Hmsg). reflexivity.
Qed.

(** X21.  [_map_message] fails on interactive messages only, and in two ways:
    with AttributeError when the reply named by the type of the interactive
    payload is present and not a map, or with the exception of [json.loads]
    on the [response_json] string of a flow reply when that is neither a
    decoding error nor a TypeError. *)
Theorem _map_message_raises (msg : WebhookMessage.t) (pid : option string)
    (e : exn) :
  _map_message json_loads str_of msg pid = Raise e ->
  WebhookMessage.type msg = "interactive"
  /\ exists interactive kind,
       WebhookMessage.interactive msg = Some interactive
       /\ get interactive "type" (VStr "") = VStr kind
       /\ kind ∈ reply_kinds
       /\ ((e = AttributeError
            /\ exists x, dict_get interactive (KStr kind) = Some x
                         /\ is_dict x = false)
           \/ (kind = "nfm_reply"
               /\ exists reply s,
                    get interactive kind (VDict []) = VDict reply
                    /\ get reply "response_json" (VDict []) = VStr s
                    /\ json_loads s = Raise e
                    /\ e <> JSONDecodeError /\ e <> TypeError)).
Proof.
  intros Hev. unfold _map_message in Hev.
  repeat case_decide; try discriminate. split; [assumption |].
  unfold _map_interactive in Hev.
  destruct (WebhookMessage.interactive msg) as [interactive |];
    [| discriminate].
  simpl in Hev. exists interactive.
  assert (Hreply : forall kind,
            (exists r, attr_get (get interactive kind (VDict [])) "id" VNone
                       = Ok r)
            \/ exists x, dict_get interactive (KStr kind) = Some x
                         /\ is_dict x = false).
  { intros kind. unfold get.
    destruct (dict_get interactive (KStr kind)) as [x |]; simpl;
      [| left; eauto].
    destruct x; simpl; eauto. }
  destruct (get interactive "type" (VStr "")) as [| | | | kind | |];
    try discriminate.
  exists kind. unfold eq_str in Hev. revert Hev.
  case_bool_decide as Hk1.
  { intros Hev. subst kind. repeat split; [unfold reply_kinds; set_solver |].
    left. destruct (Hreply "button_reply") as [[r Hr] | Hx].
    - destruct (get interactive "button_reply" (VDict [])); discriminate.
    - split; [| exact Hx].
      destruct Hx as (x & Hx & Hd). unfold get in Hev. rewrite Hx in Hev.
      destruct x; simpl in Hev; congruence. }
  case_bool_decide as Hk2.
  { intros Hev. subst kind. repeat split; [unfold reply_kinds; set_solver |].
    left. destruct (Hreply "list_reply") as [[r Hr] | Hx].
    - destruct (get interactive "list_reply" (VDict [])); discriminate.
    - split; [| exact Hx].
      destruct Hx as (x & Hx & Hd). unfold get in Hev. rewrite Hx in Hev.
      destruct x; simpl in Hev; congruence. }
  case_bool_decide as Hk3; [| discriminate].
  intros Hev. subst kind. repeat split; [unfold reply_kinds; set_solver |].
  destruct (Hreply "nfm_reply") as [[r Hr] | Hx].
  - right. split; [reflexivity |].
    destruct (get interactive "nfm_reply" (VDict [])) as [| | | | | | reply];
      try discriminate.
    exists reply. simpl in Hev.
    destruct (get reply "response_json" (VDict [])) as [| | | | s | |];
      try discriminate.
    exists s. repeat split.
    + unfold loads_or_empty in Hev.
      destruct (json_loads s) as [v | e']; [discriminate |].
      destruct (existsb (subclass e') [JSONDecodeError; TypeError]);
        simpl in Hev; [discriminate |].
      injection Hev as ->. reflexivity.
    + intros ->. unfold loads_or_empty in Hev.
      destruct (json_loads s) as [v | e']; [discriminate |].
      destruct e'; simpl in Hev; discriminate.
    + intros ->. unfold loads_or_empty in Hev.
      destruct (json_loads s) as [v | e']; [discriminate |].
      destruct e'; simpl in Hev; discriminate.
  - left. split; [| exact Hx].
    destruct Hx as (x & Hx & Hd). unfold get in Hev. rewrite Hx in Hev.
    destruct x; simpl in Hd; try discriminate; simpl in Hev; congruence.
Qed.

Lemma mapM_length {A B} (f : A -> result B) (l : list A) (l' : list B) :
  mapM f l = Ok l' -> length l' = length l.
Proof.
  revert l'. induction l as [| x l IH]; intros l'; simpl.
  - intros [= <-]. reflexivity.
  - destruct (f x); simpl; [| discriminate].
    destruct (mapM f l) as [ys |]; simpl; [| discriminate].
    intros [= <-]. simpl. rewrite (IH ys eq_refl). reflexivity.
Qed.

Lemma mapM_message_base (pid : option string)
    (msgs : list WebhookMessage.t) (events : list WhatsAppEvent) :
  mapM (fun m => _map_message json_loads str_of m pid) msgs = Ok events ->
  map message_base events = map (fun m => Some (_base_kwargs m pid)) msgs.
Proof.
  revert events. induction msgs as [| m msgs IH]; intros events; simpl.
  - intros [= <-]. reflexivity.
  - destruct (_map_message json_loads str_of m pid) as [ev |] eqn:Hev;
      simpl; [| discriminate].
    destruct (mapM _ msgs) as [evs |]; simpl; [| discriminate].
    intros [= <-]. simpl. rewrite (IH evs eq_refl). f_equal.
    unfold _map_message in Hev.
    repeat case_decide; try (injection Hev as <-; reflexivity).
    unfold _map_interactive in Hev.
    repeat (destruct (eq_str _ _); simpl in Hev);
      repeat match type of Hev with
             | context [attr_get ?x ?k ?d] =>
                 destruct (attr_get x k d); simpl in Hev; [| discriminate]
             | context [match ?v with VStr _ => _ | _ => _ end] =>
                 destruct v; simpl in Hev
             | context [loads_or_empty ?l ?s] =>
                 destruct (loads_or_empty l s); simpl in Hev; [| discriminate]
             end;
      try (injection Hev as <-; reflexivity); try discriminate.
Qed.

(** X22.  Normalisation followed by dispatch: when no message of the payload is
    interactive, the dispatch succeeds and emits one event per item of the
    payload, those of the messages first, in order, each with the id of its
    message, then those of the status updates. *)
Theorem normalize_then_dispatch (payload : dict) (w : NormalizedWebhook.t) :
  Normalize.normalize_webhook (VDict payload) = Ok w ->
  Forall (fun m => WebhookMessage.type m <> "interactive")
    (NormalizedWebhook.messages w) ->
  exists message_events,
    dispatch_webhook json_loads str_of w []
      = ((message_events
            ++ map (status_event (NormalizedWebhook.phone_number_id w))
                 (NormalizedWebhook.statuses w))%list, Ok tt)
    /\ map message_base message_events
       = map (fun m => Some (_base_kwargs m
                               (NormalizedWebhook.phone_number_id w)))
           (NormalizedWebhook.messages w)
    /\ length message_events
       = length (flat_map (change_items "messages") (payload_changes payload))
    /\ length (NormalizedWebhook.statuses w)
       = length (flat_map (change_items "statuses") (payload_changes payload)).
Proof.
  intros Hw Htypes.
  assert (Hmap : exists evs,
            mapM (fun m => _map_message json_loads str_of m
                             (NormalizedWebhook.phone_number_id w))
              (NormalizedWebhook.messages w) = Ok evs).
  { induction Htypes as [| m msgs Hm _ IH]; simpl; [eauto |].
    destruct (_map_message_total_outside_interactive json_loads str_of m
                (NormalizedWebhook.phone_number_id w) Hm) as [ev Hev].
    destruct IH as [evs Hevs]. rewrite Hev. simpl. rewrite Hevs. simpl.
    eauto. }
  destruct Hmap as [evs Hevs]. exists evs.
  destruct (normalize_webhook_run _ _ Hw) as (st & Hst & Hinit).
  destruct (changes_collect _ _ _ Hst)
    as (cs & ms & ss & Hc & Hm & Hs & Ec & Em & Es).
  simpl in Em, Es.
  assert (Hfields : NormalizedWebhook.messages w = ms
                    /\ NormalizedWebhook.statuses w = ss).
  { unfold NormalizedWebhook.init in Hinit.
    destruct (Types.optional as_str (get payload "object" VNone));
      simpl in Hinit; [| discriminate].
    destruct (Types.optional as_str (Normalize.phone_number_id st));
      simpl in Hinit; [| discriminate].
    destruct (Types.optional as_str (Normalize.display_phone_number st));
      simpl in Hinit; [| discriminate].
    destruct (mapM as_dict (Normalize.all_contacts st)); simpl in Hinit;
      [| discriminate].
    destruct (NormalizedWebhook.as_raw (Normalize.raw st)); simpl in Hinit;
      [| discriminate].
    injection Hinit as <-. simpl. split; congruence. }
  destruct Hfields as [Hfm Hfs].
  repeat split.
  - unfold dispatch_webhook.
    rewrite (emit_each_ok _ _ _ _ Hevs).
    rewrite (emit_each_ok _ _
               (map (status_event (NormalizedWebhook.phone_number_id w))
                  (NormalizedWebhook.statuses w)))
      by apply mapM_pure.
    reflexivity.
  - apply mapM_message_base. exact Hevs.
  - rewrite (mapM_length _ _ _ Hevs), Hfm. apply (mapM_length _ _ _ Hm).
  - rewrite Hfs. apply (mapM_length _ _ _ Hs).
Qed.

End DispatcherExtras.

Lemma _map_message_base_witness :
  Events.phone_number_id
    (Dispatcher._base_kwargs (Spec.bare_message "wamid.1" "text" "1") (Some "111"))
  = Some "111".
Proof.
  destruct (_map_message_base Spec.loads_nothing Spec.str_nothing
              (Spec.bare_message "wamid.1" "text" "1") (Some "111") _ eq_refl)
    as (_ & H & _).
  exact H.
Defined.

Lemma dispatch_webhook_stops_at_failure_witness :
  Dispatcher.dispatch_webhook Spec.loads_nothing Spec.str_nothing
    {| Types.NormalizedWebhook.object := None;
       Types.NormalizedWebhook.phone_number_id := Some "111";
       Types.NormalizedWebhook.display_phone_number := None;
       Types.NormalizedWebhook.contacts := [];
       Types.NormalizedWebhook.messages :=
         [Spec.bare_message "wamid.1" "text" "1";
          Spec.interactive_message
            [(KStr "type", VStr "button_reply"); (KStr "button_reply", VNone)];
          Spec.bare_message "wamid.3" "text" "3"];
       Types.NormalizedWebhook.statuses := [Spec.status_update "wamid.0" "read"];
       Types.NormalizedWebhook.raw := [] |} []
  = ([Events.TextReceived
        (Dispatcher._base_kwargs (Spec.bare_message "wamid.1" "text" "1")
           (Some "111")) (VStr "") false],
     Raise AttributeError).
Proof.
  apply (dispatch_webhook_stops_at_failure Spec.loads_nothing Spec.str_nothing
           _ [Spec.bare_message "wamid.1" "text" "1"]
           [Spec.bare_message "wamid.3" "text" "3"]
           (Spec.interactive_message
              [(KStr "type", VStr "button_reply");
               (KStr "button_reply", VNone)])
           _ [] AttributeError); reflexivity.
Defined.

Lemma _map_message_raises_witness :
  Types.WebhookMessage.type
    (Spec.interactive_message
       [(KStr "type", VStr "list_reply"); (KStr "list_reply", VInt 3)])
  = "interactive".
Proof.
  destruct (_map_message_raises Spec.loads_nothing Spec.str_nothing
              (Spec.interactive_message
                 [(KStr "type", VStr "list_reply");
                  (KStr "list_reply", VInt 3)])
              None AttributeError eq_refl) as [H _].
  exact H.
Defined.

Lemma normalize_then_dispatch_witness :
  exists w,
    Normalize.normalize_webhook (VDict NormalizeShapes.two_entries) = Ok w
    /\ exists message_events,
         Dispatcher.dispatch_webhook Spec.loads_nothing Spec.str_nothing w []
         = ((message_events
               ++ map (Dispatcher.status_event
                         (Types.NormalizedWebhook.phone_number_id w))
                    (Types.NormalizedWebhook.statuses w))%list, Ok tt)
         /\ length message_events = 3%nat.
Proof.
  eexists. split; [vm_compute; reflexivity |].
  edestruct (normalize_then_dispatch Spec.loads_nothing Spec.str_nothing
               NormalizeShapes.two_entries) as (evs & Hd & _ & Hlen & _).
  - vm_compute. reflexivity.
  - repeat constructor; discriminate.
  - exists evs. split; [exact Hd | exact Hlen].
Defined.

(** ** The request cycle of the client *)

Section RequestExtras.
Import Categorize Retry GraphApiError Client Request Spec KeyShapes DeepShapes
  EventShapes.

Lemma rstrip_slash_snoc (s : string) :
  rstrip_slash (s +:+ "/") = rstrip_slash s.
Proof.
  induction s as [| c s IH]; [reflexivity |].
  change (String c s +:+ "/") with (String c (s +:+ "/")).
  simpl. rewrite IH. reflexivity.
Qed.

(** X23.  Slashes at the joint do not matter: a slash after the base URL or
    before a relative path leaves the URL of the request unchanged. *)
Theorem _url_ignores_boundary_slashes
    (access_token base_url graph_version path : string) :
  String.prefix "http" path = false ->
  _url (init access_token (base_url +:+ "/") graph_version) ("/" +:+ path)
  = _url (init access_token base_url graph_version) path.
Proof.
  intros Hrel. unfold _url, init. simpl _base_url. simpl _version.
  rewrite Hrel, rstrip_slash_snoc. reflexivity.
Qed.

Lemma _url_ignores_boundary_slashes_witness :
  _url (init "token" "https://graph.facebook.com/" "v23.0") "/123/messages"
  = "https://graph.facebook.com/v23.0/123/messages".
Proof.
  apply (_url_ignores_boundary_slashes "token" "https://graph.facebook.com"
           "v23.0" "123/messages").
  reflexivity.
Defined.

Lemma from_response_fields (http_status : Z) (body : dict)
    (retry_after_header : option string) (e : GraphApiError.t) :
  GraphApiError.from_response http_status body retry_after_header = Ok e ->
  GraphApiError.http_status e = http_status
  /\ raw e = VDict body
  /\ exists c, category e = categorize_error c (Some http_status).
Proof.
  unfold GraphApiError.from_response.
  destruct (attr_get (Py.get body "error" (VDict body)) "message" _) as [m |];
    simpl; [| discriminate].
  destruct (attr_get _ "code" VNone) as [cd |]; simpl; [| discriminate].
  destruct (attr_get _ "type" _) as [ty |]; simpl; [| discriminate].
  destruct (attr_get _ "error_user_msg" _) as [um |]; simpl;
    [| discriminate].
  destruct (if truthy um then _ else _) as [dt |]; simpl; [| discriminate].
  destruct (attr_get _ "error_subcode" _) as [sc |]; simpl; [| discriminate].
  destruct (attr_get _ "fbtrace_id" _) as [fb |]; simpl; [| discriminate].
  destruct (attr_get _ "error_data" _) as [ed |]; simpl; [| discriminate].
  unfold GraphApiError.init.
  destruct (code_arg cd) as [c |]; simpl; [| discriminate].
  destruct (get_retry_hint _ retry_after_header) as [r |]; simpl;
    [| discriminate].
  intros [= <-]. simpl. eauto.
Qed.

Lemma categorize_error_fallback (c : option Z) (http_status : Z) :
  (categorize_error c (Some http_status) = server -> 500 <= http_status)
  /\ (categorize_error c (Some http_status) = unknown -> http_status < 500).
Proof.
  unfold categorize_error.
  assert (Htable : forall k category,
            _CODE_TO_CATEGORY !! k = Some category ->
            category <> server /\ category <> unknown).
  { intros k category Hk. apply table_values in Hk. revert Hk.
    rewrite !elem_of_cons, elem_of_nil. intuition congruence. }
  destruct c as [k |].
  - change (Some k ≫= _) with (_CODE_TO_CATEGORY !! k).
    destruct (_CODE_TO_CATEGORY !! k) as [category |] eqn:Hk.
    + destruct (Htable _ _ Hk). split; congruence.
    + destruct (Z.leb_spec 500 http_status); split;
        first [discriminate | lia].
  - change (None ≫= _) with (@None ErrorCategory).
    destruct (Z.leb_spec 500 http_status); split; first [discriminate | lia].
Qed.

Section Http.

Variable Args : Type.
Variable http : string -> string -> Args -> gmap string string -> Response.

(** X24.  How [request] can end without [raw_response]: a value is returned only
    for a status below 400, and it is in snake case at every depth (so
    converting it again changes nothing); a [GraphApiError] is raised only
    for a status from 400 on, it carries that status, and its category is
    [server] only from 500 on and [unknown] only below 500. *)
Theorem request_outcome (self : WhatsAppClient) (method path : string)
    (args : Args) (headers : option (gmap string string)) :
  let resp := http method (_url self path) args (merged_headers self headers) in
  match request Args http self method path args headers false with
  | Returned v =>
      status_code resp < 400
      /\ keyed (fun s => negb (has_upper s)) v = true
      /\ Case.to_snake_deep v = Ok v
  | RaisedGraphApiError e =>
      400 <= status_code resp
      /\ http_status e = status_code resp
      /\ (category e = server -> 500 <= status_code resp)
      /\ (category e = unknown -> status_code resp < 500)
  | ReturnedResponse _ => False
  | Raised _ => True
  end.
Proof.
  intros resp. unfold request. fold resp. unfold respond.
  destruct (if bool_decide (content resp = "") then _ else _) as [body |];
    [| exact I].
  destruct (Z.leb_spec 400 (status_code resp)) as [Hst | Hst].
  - destruct (from_response _ body _) as [e |] eqn:He; [| exact I].
    unfold from_response in He. destruct body; try discriminate.
    destruct (from_response_fields _ _ _ _ He) as (Hs & _ & c & Hc).
    rewrite Hs, Hc. split; [exact Hst |]. split; [reflexivity |].
    apply categorize_error_fallback.
  - destruct (Case.to_snake_deep body) as [v |] eqn:Hv; [| exact I].
    split; [exact Hst |].
    assert (Hk : keyed (fun s => negb (has_upper s)) v = true).
    { apply (deep_inv Case.to_snake (fun s => negb (has_upper s))
               Case.to_snake_deep) with (v := body);
        [intros []; reflexivity | apply to_snake_lower_case | exact Hv]. }
    split; [exact Hk |].
    assert (Hfix : forall s, negb (has_upper s) = true ->
                             bool_decide (Case.to_snake s = s) = true).
    { intros s Hs. apply bool_decide_eq_true, to_snake_no_upper.
      apply negb_true_iff, Hs. }
    pose proof (keyed_mono _ _ v Hfix Hk) as Hk'.
    destruct (deep_rename Case.to_snake Case.to_snake
                (fun s => bool_decide (Case.to_snake s = s))
                Case.to_snake_deep Case.to_snake_deep) with (v := v)
      as [H1 _];
      [intros []; reflexivity | intros []; reflexivity | | exact Hk' |].
    + intros s Hs. apply bool_decide_eq_true in Hs. rewrite Hs. exact Hs.
    + rewrite H1. f_equal. apply rename_keys_fixed. exact Hk'.
Qed.

(** X25.  A response below 400 whose body is empty or decodes to JSON is always
    answered with a value: [request] raises nothing. *)
Theorem request_returns_on_success (self : WhatsAppClient)
    (method path : string) (args : Args)
    (headers : option (gmap string string)) :
  let resp := http method (_url self path) args (merged_headers self headers) in
  status_code resp < 400 ->
  (content resp <> "" ->
   exists body, json resp = Ok body /\ str_keys_deep body = true) ->
  exists v, request Args http self method path args headers false
            = Returned v.
Proof.
  intros resp Hst Hbody. unfold request. fold resp. unfold respond.
  assert (Hdec : exists body,
            (if bool_decide (content resp = "") then Ok (VDict [])
             else json resp) = Ok body /\ str_keys_deep body = true).
  { case_bool_decide as Hc; [exists (VDict []); auto |].
    destruct (Hbody Hc) as (body & Hj & Hs). eauto. }
  destruct Hdec as (body & -> & Hs).
  destruct (Z.leb_spec 400 (status_code resp)); [lia |].
  destruct (deep_total Case.to_snake Case.to_snake_deep) with (v := body)
    as (w & Hw & _); [intros []; reflexivity | exact Hs |].
  rewrite Hw. eauto.
Qed.

(** X26.  A response from 400 on: without a body the error raised has the
    default message, no code and the category of the status alone; a body
    that decodes to anything but a map ends [request] with AttributeError,
    not with a [GraphApiError]; and a body that does not decode ends it with
    the exception of the decoder. *)
Theorem request_error_status (self : WhatsAppClient)
    (method path : string) (args : Args)
    (headers : option (gmap string string)) :
  let resp := http method (_url self path) args (merged_headers self headers) in
  400 <= status_code resp ->
  (content resp = "" -> retry_after resp = None ->
   exists e,
     request Args http self method path args headers false
       = RaisedGraphApiError e
     /\ message e = VStr "Unknown Graph API error"
     /\ code e = VNone
     /\ category e = (if 500 <=? status_code resp then server else unknown)
     /\ action (GraphApiError.retry e) = Retry.retry
     /\ raw e = VDict [])
  /\ (content resp <> "" ->
      forall body, json resp = Ok body -> is_dict body = false ->
        request Args http self method path args headers false
          = Raised AttributeError)
  /\ (content resp <> "" ->
      forall x, json resp = Raise x ->
        request Args http self method path args headers false = Raised x).
Proof.
  intros resp Hst. unfold request. fold resp. unfold respond.
  destruct (Z.leb_spec 400 (status_code resp)) as [_ | ?]; [| lia].
  repeat split.
  - intros Hc Hr. rewrite bool_decide_eq_true_2 by exact Hc.
    unfold from_response, GraphApiError.from_response. rewrite Hr. simpl.
    unfold GraphApiError.init. simpl.
    change (categorize_error None (Some (status_code resp)))
      with (if 500 <=? status_code resp then server else unknown).
    destruct (500 <=? status_code resp); simpl; eexists; repeat split.
  - intros Hc body Hj Hd. rewrite bool_decide_eq_false_2 by exact Hc.
    rewrite Hj. destruct body; try discriminate; reflexivity.
  - intros Hc x Hj. rewrite bool_decide_eq_false_2 by exact Hc.
    rewrite Hj. reflexivity.
Qed.

End Http.

End RequestExtras.

Lemma request_returns_on_success_witness :
  exists v,
    Request.request unit
      (fun _ _ _ _ =>
         {| Request.status_code := 200; Request.content := "{}";
            Request.json := Ok (VDict [(KStr "messagingProduct", VStr "whatsapp")]);
            Request.retry_after := None |})
      (Request.init "token" Request._DEFAULT_BASE_URL Request._DEFAULT_VERSION)
      "POST" "123/messages" tt None false
    = Request.Returned v.
Proof.
  apply (request_returns_on_success unit
           (fun _ _ _ _ =>
              {| Request.status_code := 200; Request.content := "{}";
                 Request.json :=
                   Ok (VDict [(KStr "messagingProduct", VStr "whatsapp")]);
                 Request.retry_after := None |})).
  - simpl. lia.
  - intros _. eexists. split; reflexivity.
Defined.

Lemma request_error_status_witness :
  Request.request unit
    (fun _ _ _ _ =>
       {| Request.status_code := 502; Request.content := "[]";
          Request.json := Ok (VList []); Request.retry_after := None |})
    (Request.init "token" Request._DEFAULT_BASE_URL Request._DEFAULT_VERSION)
    "GET" "123" tt None false
  = Request.Raised AttributeError.
Proof.
  destruct (request_error_status unit
              (fun _ _ _ _ =>
                 {| Request.status_code := 502; Request.content := "[]";
                    Request.json := Ok (VList []);
                    Request.retry_after := None |})
              (Request.init "token" Request._DEFAULT_BASE_URL
                 Request._DEFAULT_VERSION)
              "GET" "123" tt None) as (_ & H & _).
  - simpl. lia.
  - apply (H ltac:(discriminate) (VList [])); reflexivity.
Defined.

(** ** Field aliases *)

Section AliasExtras.
Import Case Spec Types KeyShapes Alias.

(** The aliases that the models of the webhook are read under are those
    that [_to_camel] generates from the field names. *)
Example field_aliases :
  WebhookMessage.fields
    = map (fun name => (_to_camel name, name))
        (map snd WebhookMessage.fields)
  /\ MessageStatusUpdate.fields
     = map (fun name => (_to_camel name, name))
         (map snd MessageStatusUpdate.fields)
  /\ map _to_camel ["id"; "from_"; "referred_product"]
     = ["id"; "from"; "referredProduct"].
Proof. repeat split. Qed.

Lemma _to_camel_cons_other (c : ascii) (s : string) :
  c <> "_"%char -> _to_camel (String c s) = String c (_to_camel s).
Proof.
  intros Hc. unfold _to_camel. simpl.
  destruct (split_underscore s) as [p ps].
  rewrite bool_decide_eq_false_2 by exact Hc. reflexivity.
Qed.

Lemma _to_camel_cons_underscore (s : string) :
  _to_camel (String "_" s) =
    capitalize (fst (split_underscore s))
    +:+ join (map capitalize (snd (split_underscore s))).
Proof.
  unfold _to_camel. simpl. destruct (split_underscore s) as [p ps].
  reflexivity.
Qed.

Lemma snake_wf_no_upper (s : string) (prev : option ascii) (after : bool) :
  snake_wf prev after s = true -> has_upper s = false.
Proof.
  revert prev after. induction s as [| c s IH]; intros prev after;
    [reflexivity |].
  rewrite snake_wf_cons. simpl.
  destruct (bool_decide_reflect (c = "_"%char)) as [-> | Hc].
  - intros [_ Hrest]%andb_prop. apply (IH _ _ Hrest).
  - intros [Hup Hrest]%andb_prop. apply negb_true_iff in Hup.
    rewrite Hup. apply (IH _ _ Hrest).
Qed.

Lemma split_head_no_upper (s : string) :
  has_upper s = false -> has_upper (fst (split_underscore s)) = false.
Proof.
  induction s as [| c s IH]; simpl; [reflexivity |].
  intros [Hc Hs]%orb_false_elim. specialize (IH Hs).
  destruct (split_underscore s) as [p ps].
  destruct (bool_decide (c = "_"%char)); simpl; [reflexivity |].
  simpl in IH. rewrite Hc, IH. reflexivity.
Qed.

Lemma _to_camel_agrees (s : string) (prev : option ascii) (after : bool) :
  snake_wf prev after s = true -> _to_camel s = to_camel s.
Proof.
  revert prev after. induction s as [| c s IH]; intros prev after Hwf;
    [reflexivity |].
  rewrite snake_wf_cons in Hwf.
  destruct (bool_decide_reflect (c = "_"%char)) as [-> | Hc].
  - apply andb_prop in Hwf as [Hwf Hrest].
    apply andb_prop in Hwf as [_ Hnext].
    destruct s as [| x s']; [discriminate |].
    assert (Hx : x <> "_"%char) by (intros ->; discriminate Hnext).
    pose proof (IH _ _ Hrest) as IHs.
    rewrite _to_camel_cons_other in IHs by exact Hx.
    rewrite to_camel_cons_other in IHs by (intros ->; congruence).
    injection IHs as IHs.
    rewrite to_camel_cons_match by (apply lower_letter_alnum, Hnext).
    rewrite _to_camel_cons_underscore, <- IHs.
    pose proof (split_head_no_upper (String x s')
                  (snake_wf_no_upper _ _ _ Hrest)) as Hp.
    unfold _to_camel. simpl in Hp |- *.
    destruct (split_underscore s') as [p ps].
    rewrite bool_decide_eq_false_2 in Hp |- * by exact Hx.
    simpl in Hp |- *. apply orb_false_elim in Hp as [_ Hp].
    rewrite (lower_no_upper p Hp). reflexivity.
  - apply andb_prop in Hwf as [_ Hrest].
    rewrite _to_camel_cons_other by exact Hc.
    rewrite to_camel_cons_other by (intros ->; congruence).
    rewrite (IH _ _ Hrest). reflexivity.
Qed.

(** X27.  On a snake-case name the alias generator of the models and the key
    converter agree, and [to_snake] turns the alias back into the name: a
    key under its alias reaches a model under the name of the field once
    the payload has gone through [to_snake_deep]. *)
Theorem _to_camel_of_snake_key (s : string) :
  snake_key s = true ->
  _to_camel s = to_camel s /\ to_snake (_to_camel s) = s.
Proof.
  intros Hs. pose proof (_to_camel_agrees s None false Hs) as Heq.
  split; [exact Heq |]. rewrite Heq. unfold to_snake.
  apply (snake_of_camel s None false None Hs); [discriminate | reflexivity].
Qed.

Lemma _to_camel_of_snake_key_witness :
  _to_camel "display_phone_number" = to_camel "display_phone_number"
  /\ to_snake (_to_camel "display_phone_number") = "display_phone_number".
Proof. apply (_to_camel_of_snake_key "display_phone_number"). reflexivity. Defined.

Lemma has_underscore_app (s t : string) :
  has_underscore (s +:+ t) = has_underscore s || has_underscore t.
Proof.
  induction s as [| c s IH]; simpl; [reflexivity |].
  rewrite IH, orb_assoc. reflexivity.
Qed.

Lemma has_underscore_capitalize (w : string) :
  has_underscore w = false -> has_underscore (capitalize w) = false.
Proof.
  assert (Hlow : forall t, has_underscore t = false ->
                           has_underscore (lower t) = false).
  { induction t as [| c t IH]; simpl; [reflexivity |].
    intros [Hc Ht]%orb_false_elim. rewrite (IH Ht), orb_false_r.
    apply bool_decide_eq_false in Hc. apply bool_decide_eq_false.
    revert Hc. clear.
    destruct c as [[] [] [] [] [] [] [] []]; vm_compute; congruence. }
  destruct w as [| c w]; simpl; [reflexivity |].
  intros [Hc Hw]%orb_false_elim. rewrite (Hlow w Hw), orb_false_r.
  apply bool_decide_eq_false in Hc. apply bool_decide_eq_false.
  revert Hc. clear.
  destruct c as [[] [] [] [] [] [] [] []]; vm_compute; congruence.
Qed.

Lemma split_underscore_pieces (s : string) :
  has_underscore (fst (split_underscore s)) = false
  /\ Forall (fun w => has_underscore w = false) (snd (split_underscore s)).
Proof.
  induction s as [| c s [IH1 IH2]]; simpl; [split; [reflexivity | constructor] |].
  destruct (split_underscore s) as [p ps]. simpl in IH1, IH2.
  destruct (bool_decide_reflect (c = "_"%char)) as [-> | Hc]; simpl.
  - split; [reflexivity | constructor; assumption].
  - rewrite bool_decide_eq_false_2 by exact Hc. auto.
Qed.

Lemma _to_camel_no_underscore (s : string) :
  has_underscore (_to_camel s) = false.
Proof.
  unfold _to_camel. destruct (split_underscore_pieces s) as [H1 H2].
  destruct (split_underscore s) as [p ps]. simpl in H1, H2.
  rewrite has_underscore_app, H1. simpl.
  induction H2 as [| w ws Hw _ IH]; simpl; [reflexivity |].
  rewrite has_underscore_app, (has_underscore_capitalize w Hw), IH.
  reflexivity.
Qed.

(** X28.  An alias never has an underscore, so a field has an alias of its own
    exactly when its name has an underscore; a name without underscore is
    its own alias. *)
Theorem _to_camel_fixes_iff (s : string) :
  has_underscore (_to_camel s) = false
  /\ (_to_camel s = s <-> has_underscore s = false).
Proof.
  split; [apply _to_camel_no_underscore |]. split.
  - intros Heq. rewrite <- Heq. apply _to_camel_no_underscore.
  - induction s as [| c s IH]; [reflexivity |]. simpl.
    intros [Hc Hs]%orb_false_elim. apply bool_decide_eq_false in Hc.
    rewrite _to_camel_cons_other by exact Hc. rewrite (IH Hs). reflexivity.
Qed.

End AliasExtras.
